(** * Mind-Support backend: moderation pipeline

    A shallow embedding of the keyword scanner
    ([src/services/keywordScanner.ts]), the idempotency service
    ([src/services/idempotency.ts]), the webhook controller and the
    moderation controller, with the properties of the design document
    stated and settled against them.

    Conventions.
    - A JavaScript string is a [string]; its characters stand for UTF-16
      code units.  The string functions of the runtime ([toLowerCase],
      [trim], the classes [\w] and [\s]) are modelled on Basic Latin
      (code units below 128); statements that depend on them are made
      for such text.
    - A [Date] is its number of milliseconds since the epoch, a [Z].
    - [async] functions become computations in the monad [M]: a function
      of the [World] that returns a normal or an abrupt completion
      together with the new world.  State written before a [throw] stays
      written. *)

From Stdlib Require Import ZArith Ascii String Sorting.Sorted Sorting.Permutation.
From stdpp Require Import base tactics option list gmap strings pretty.

Local Open Scope string_scope.
Local Open Scope list_scope.
Local Open Scope Z_scope.

(** ** JavaScript strings *)

Module JsString.

Definition code (c : ascii) : nat := nat_of_ascii c.

Definition inRange (lo hi : nat) (c : ascii) : bool :=
  (lo <=? code c)%nat && (code c <=? hi)%nat.

Definition isUpper (c : ascii) : bool := inRange 65 90 c.
Definition isLower (c : ascii) : bool := inRange 97 122 c.
Definition isDigit (c : ascii) : bool := inRange 48 57 c.

(** The class [\w]: [[A-Za-z0-9_]]. *)
Definition isWordChar (c : ascii) : bool :=
  isUpper c || isLower c || isDigit c || (code c =? 95)%nat.

(** The class [\s] and the characters removed by [trim], on Basic
    Latin: TAB, LF, VT, FF, CR and SPACE. *)
Definition isSpace (c : ascii) : bool :=
  inRange 9 13 c || (code c =? 32)%nat.

Definition lowerChar (c : ascii) : ascii :=
  if isUpper c then ascii_of_nat (code c + 32) else c.

Definition upperChar (c : ascii) : ascii :=
  if isLower c then ascii_of_nat (code c - 32) else c.

Definition chars (s : string) : list ascii := list_ascii_of_string s.
Definition str (l : list ascii) : string := string_of_list_ascii l.

Definition toLowerCase (s : string) : string := str (map lowerChar (chars s)).
Definition toUpperCase (s : string) : string := str (map upperChar (chars s)).

Fixpoint trimStartChars (l : list ascii) : list ascii :=
  match l with
  | [] => []
  | c :: l' => if isSpace c then trimStartChars l' else l
  end.

Definition trimChars (l : list ascii) : list ascii :=
  rev (trimStartChars (rev (trimStartChars l))).

Definition trim (s : string) : string := str (trimChars (chars s)).

(** [s.replace(/[^\w\s]/g, ' ')] *)
Definition replaceNonWordChars (l : list ascii) : list ascii :=
  map (fun c => if isWordChar c || isSpace c then c else " "%char) l.

(** [s.replace(/\s+/g, ' ')]: every maximal run of white space becomes
    one space.  [inRun] tells that the previous character was white
    space, so that the run has been replaced already. *)
Fixpoint collapseFrom (inRun : bool) (l : list ascii) : list ascii :=
  match l with
  | [] => []
  | c :: l' =>
      if isSpace c
      then (if inRun then collapseFrom true l' else " "%char :: collapseFrom true l')
      else c :: collapseFrom false l'
  end.

Definition collapseSpaces (l : list ascii) : list ascii := collapseFrom false l.

End JsString.

(** ** Types ([src/types]) *)

Inductive KeywordSeverity := NONE | LOW | MEDIUM | HIGH.
Inductive KeywordAction := FLAG | HIDE | ESCALATE | NOTIFY.

#[global] Instance KeywordSeverity_eq_dec : EqDecision KeywordSeverity.
Proof. solve_decision. Defined.
#[global] Instance KeywordAction_eq_dec : EqDecision KeywordAction.
Proof. solve_decision. Defined.

(** The string value of the enum, as it is logged. *)
Definition severityName (s : KeywordSeverity) : string :=
  match s with NONE => "none" | LOW => "low" | MEDIUM => "medium" | HIGH => "high" end.

(** [IModerationKeyword] ([src/models/ModerationKeyword]). *)
Record IModerationKeyword := {
  word : string;
  severity : KeywordSeverity;
  action : KeywordAction;
  isRegex : bool;
  enabled : bool
}.

Record KeywordMatch := {
  m_word : string;
  m_severity : KeywordSeverity;
  m_action : KeywordAction;
  position : Z
}.

Record ScanResult := {
  r_severity : KeywordSeverity;
  matches : list KeywordMatch;
  severityScore : Z
}.

#[global] Instance KeywordMatch_eq_dec : EqDecision KeywordMatch.
Proof. solve_decision. Defined.

(** ** The regular-expression engine of the runtime

    [new RegExp(pattern, flags).exec(input)] on a fresh object either
    throws (the pattern is malformed), answers [null], or answers a match
    whose [index] is the position where it starts. *)

Inductive ExecResult :=
| RxThrow
| RxNull
| RxMatch (index : nat).

#[global] Instance ExecResult_eq_dec : EqDecision ExecResult.
Proof. solve_decision. Defined.

Class RegExpEngine := RegExp_exec : string -> string -> string -> ExecResult.

(** ** A model of the engine on a fragment of the pattern language

    The fragment: literal characters, [.], the escapes [\b \B \d \D \w
    \W \s \S \t \n \v \f \r \0] and escaped punctuation, character
    classes with ranges, groups [( )] and [(?: )], alternation [|], the
    quantifiers [* + ?] (also followed by [?]) and the anchors [^ $],
    with the flags [i] and [g].  Without back-references and look-around
    whether a match starts at a position is a question about positions
    alone, so the matcher answers it with a boolean and [exec] reports
    the first position that has a match.  A pattern outside the fragment
    is reported as such ([None]) and nothing is said about it. *)

Module Regex.
Import JsString.

Inductive ClassItem :=
| CChar (c : ascii)
| CRange (lo hi : ascii)
| CDigit (negated : bool)
| CWord (negated : bool)
| CSpace (negated : bool).

Inductive regex :=
| Empty
| Chr (c : ascii)
| Any
| Class (negated : bool) (items : list ClassItem)
| Bol
| Eol
| WordB
| NotWordB
| Seq (r1 r2 : regex)
| Alt (r1 r2 : regex)
| Star (r : regex).

Inductive Parsed (A : Type) :=
| POk (a : A) (rest : list ascii)
| PSyntaxError
| PUnmodelled.
Arguments POk {A} a rest.
Arguments PSyntaxError {A}.
Arguments PUnmodelled {A}.

Definition isChar (c x : ascii) : bool := Ascii.eqb c x.

Definition isAlnum (c : ascii) : bool := isWordChar c.

(** *** Parsing *)

(** A quantifier after an atom; [a+] is [aa*] and [a?] is [a|]. A
    following [?] makes the quantifier lazy, which does not change
    where matches start. *)
Definition skipLazy (s : list ascii) : list ascii :=
  match s with
  | c :: rest => if isChar c "?" then rest else s
  | [] => s
  end.

Definition quantify (r : regex) (s : list ascii) : Parsed regex :=
  match s with
  | c :: rest =>
      if isChar c "*" then POk (Star r) (skipLazy rest)
      else if isChar c "+" then POk (Seq r (Star r)) (skipLazy rest)
      else if isChar c "?" then POk (Alt r Empty) (skipLazy rest)
      else if isChar c "{" then PUnmodelled
      else POk r s
  | [] => POk r s
  end.

(** The character or class after a backslash, outside a class. *)
Definition parseEscape (s : list ascii) : Parsed regex :=
  match s with
  | [] => PSyntaxError
  | c :: rest =>
      if isChar c "b" then POk WordB rest
      else if isChar c "B" then POk NotWordB rest
      else if isChar c "d" then quantify (Class false [CDigit false]) rest
      else if isChar c "D" then quantify (Class false [CDigit true]) rest
      else if isChar c "w" then quantify (Class false [CWord false]) rest
      else if isChar c "W" then quantify (Class false [CWord true]) rest
      else if isChar c "s" then quantify (Class false [CSpace false]) rest
      else if isChar c "S" then quantify (Class false [CSpace true]) rest
      else if isChar c "t" then quantify (Chr (ascii_of_nat 9)) rest
      else if isChar c "n" then quantify (Chr (ascii_of_nat 10)) rest
      else if isChar c "v" then quantify (Chr (ascii_of_nat 11)) rest
      else if isChar c "f" then quantify (Chr (ascii_of_nat 12)) rest
      else if isChar c "r" then quantify (Chr (ascii_of_nat 13)) rest
      else if isChar c "0" then
        match rest with
        | d :: _ => if isDigit d then PUnmodelled else quantify (Chr (ascii_of_nat 0)) rest
        | [] => quantify (Chr (ascii_of_nat 0)) rest
        end
      else if isAlnum c then PUnmodelled
      else quantify (Chr c) rest
  end.

Inductive ClassAtom :=
| AChar (c : ascii)
| ASet (item : ClassItem).

Definition itemOf (a : ClassAtom) : ClassItem :=
  match a with AChar c => CChar c | ASet i => i end.

Definition classAtom (s : list ascii) : Parsed ClassAtom :=
  match s with
  | [] => PSyntaxError
  | c :: rest =>
      if isChar c "\" then
        match rest with
        | [] => PSyntaxError
        | e :: rest' =>
            if isChar e "d" then POk (ASet (CDigit false)) rest'
            else if isChar e "D" then POk (ASet (CDigit true)) rest'
            else if isChar e "w" then POk (ASet (CWord false)) rest'
            else if isChar e "W" then POk (ASet (CWord true)) rest'
            else if isChar e "s" then POk (ASet (CSpace false)) rest'
            else if isChar e "S" then POk (ASet (CSpace true)) rest'
            else if isChar e "b" then POk (AChar (ascii_of_nat 8)) rest'
            else if isChar e "t" then POk (AChar (ascii_of_nat 9)) rest'
            else if isChar e "n" then POk (AChar (ascii_of_nat 10)) rest'
            else if isChar e "v" then POk (AChar (ascii_of_nat 11)) rest'
            else if isChar e "f" then POk (AChar (ascii_of_nat 12)) rest'
            else if isChar e "r" then POk (AChar (ascii_of_nat 13)) rest'
            else if isAlnum e then PUnmodelled
            else POk (AChar e) rest'
        end
      else POk (AChar c) rest
  end.

(** The items of a class up to its closing bracket. *)
Fixpoint parseClassItems (fuel : nat) (s : list ascii) (acc : list ClassItem)
  : Parsed (list ClassItem) :=
  match fuel with
  | O => PUnmodelled
  | S fuel' =>
      match s with
      | [] => PSyntaxError
      | c :: rest =>
          if isChar c "]" then POk (rev acc) rest
          else
            match classAtom s with
            | POk a rest1 =>
                match rest1 with
                | dash :: rest2 =>
                    if isChar dash "-" && negb (match rest2 with
                                            | d :: _ => isChar d "]"
                                            | [] => true
                                            end)
                    then
                      match classAtom rest2 with
                      | POk b rest3 =>
                          match a, b with
                          | AChar lo, AChar hi =>
                              if (code lo <=? code hi)%nat
                              then parseClassItems fuel' rest3 (CRange lo hi :: acc)
                              else PSyntaxError
                          | _, _ => PUnmodelled
                          end
                      | PSyntaxError => PSyntaxError
                      | PUnmodelled => PUnmodelled
                      end
                    else parseClassItems fuel' rest1 (itemOf a :: acc)
                | [] => PSyntaxError
                end
            | PSyntaxError => PSyntaxError
            | PUnmodelled => PUnmodelled
            end
      end
  end.

Definition parseClass (s : list ascii) : Parsed regex :=
  let '(negated, body) :=
    match s with
    | c :: rest => if isChar c "^" then (true, rest) else (false, s)
    | [] => (false, s)
    end in
  match parseClassItems (S (length body)) body [] with
  | POk items rest => quantify (Class negated items) rest
  | PSyntaxError => PSyntaxError
  | PUnmodelled => PUnmodelled
  end.

(** Disjunction, Alternative and Term of the grammar. *)
Fixpoint parseDisjunction (fuel : nat) (s : list ascii) {struct fuel} : Parsed regex :=
  match fuel with
  | O => PUnmodelled
  | S fuel' =>
      match parseAlternative fuel' s with
      | POk r rest =>
          match rest with
          | c :: rest' =>
              if isChar c "|" then
                match parseDisjunction fuel' rest' with
                | POk r2 rest2 => POk (Alt r r2) rest2
                | PSyntaxError => PSyntaxError
                | PUnmodelled => PUnmodelled
                end
              else POk r rest
          | [] => POk r rest
          end
      | PSyntaxError => PSyntaxError
      | PUnmodelled => PUnmodelled
      end
  end
with parseAlternative (fuel : nat) (s : list ascii) {struct fuel} : Parsed regex :=
  match fuel with
  | O => PUnmodelled
  | S fuel' =>
      match s with
      | [] => POk Empty s
      | c :: _ =>
          if isChar c "|" || isChar c ")" then POk Empty s
          else
            match parseTerm fuel' s with
            | POk t rest =>
                match parseAlternative fuel' rest with
                | POk r rest' => POk (Seq t r) rest'
                | PSyntaxError => PSyntaxError
                | PUnmodelled => PUnmodelled
                end
            | PSyntaxError => PSyntaxError
            | PUnmodelled => PUnmodelled
            end
      end
  end
with parseTerm (fuel : nat) (s : list ascii) {struct fuel} : Parsed regex :=
  match fuel with
  | O => PUnmodelled
  | S fuel' =>
      match s with
      | [] => PSyntaxError
      | c :: rest =>
          if isChar c "^" then POk Bol rest
          else if isChar c "$" then POk Eol rest
          else if isChar c "*" || isChar c "+" || isChar c "?" then PSyntaxError
          else if isChar c "{" then PUnmodelled
          else if isChar c "\" then parseEscape rest
          else if isChar c "." then quantify Any rest
          else if isChar c "[" then parseClass rest
          else if isChar c "(" then
            let '(supported, body) :=
              match rest with
              | q :: rest1 =>
                  if isChar q "?" then
                    match rest1 with
                    | k :: rest2 => if isChar k ":" then (true, rest2) else (false, rest)
                    | [] => (false, rest)
                    end
                  else (true, rest)
              | [] => (true, rest)
              end in
            if supported then
              match parseDisjunction fuel' body with
              | POk r rest' =>
                  match rest' with
                  | k :: rest'' => if isChar k ")" then quantify r rest'' else PSyntaxError
                  | [] => PSyntaxError
                  end
              | PSyntaxError => PSyntaxError
              | PUnmodelled => PUnmodelled
              end
            else PUnmodelled
          else quantify (Chr c) rest
      end
  end.

Definition parsePattern (pattern : string) : Parsed regex :=
  let s := chars pattern in
  match parseDisjunction (4 * length s + 8) s with
  | POk r [] => POk r []
  | POk _ (_ :: _) => PSyntaxError
  | PSyntaxError => PSyntaxError
  | PUnmodelled => PUnmodelled
  end.

(** *** Matching *)

(** Canonicalize of the [i] flag. *)
Definition canon (c : ascii) : ascii := upperChar c.

Definition charMatches (ignoreCase : bool) (p c : ascii) : bool :=
  if ignoreCase then Ascii.eqb (canon p) (canon c) else Ascii.eqb p c.

Definition itemMatches (ignoreCase : bool) (c : ascii) (item : ClassItem) : bool :=
  match item with
  | CChar p => charMatches ignoreCase p c
  | CRange lo hi =>
      inRange (code lo) (code hi) c ||
      (ignoreCase &&
         (inRange (code lo) (code hi) (lowerChar c) || inRange (code lo) (code hi) (upperChar c)))
  | CDigit negated => xorb negated (isDigit c)
  | CWord negated => xorb negated (isWordChar c)
  | CSpace negated => xorb negated (isSpace c)
  end.

Definition isLineTerminator (c : ascii) : bool :=
  (code c =? 10)%nat || (code c =? 13)%nat.

(** IsWordChar(e - 1) differs from IsWordChar(e). *)
Definition isBoundary (text : list ascii) (i : nat) : bool :=
  let a := match i with
           | O => false
           | S j => match text !! j with Some c => isWordChar c | None => false end
           end in
  let b := match text !! i with Some c => isWordChar c | None => false end in
  xorb a b.

(** [matchFrom r i k]: [r] matches from position [i] up to some
    position from which [k] succeeds. *)
Fixpoint matchFrom (ignoreCase : bool) (text : list ascii) (r : regex)
    (i : nat) (k : nat -> bool) {struct r} : bool :=
  match r with
  | Empty => k i
  | Chr p =>
      match text !! i with
      | Some c => charMatches ignoreCase p c && k (S i)
      | None => false
      end
  | Any =>
      match text !! i with
      | Some c => negb (isLineTerminator c) && k (S i)
      | None => false
      end
  | Class negated items =>
      match text !! i with
      | Some c => xorb negated (existsb (itemMatches ignoreCase c) items) && k (S i)
      | None => false
      end
  | Bol => (i =? 0)%nat && k i
  | Eol => (i =? length text)%nat && k i
  | WordB => isBoundary text i && k i
  | NotWordB => negb (isBoundary text i) && k i
  | Seq r1 r2 => matchFrom ignoreCase text r1 i (fun j => matchFrom ignoreCase text r2 j k)
  | Alt r1 r2 => matchFrom ignoreCase text r1 i k || matchFrom ignoreCase text r2 i k
  | Star r1 =>
      (fix loop (n : nat) (i : nat) {struct n} : bool :=
         k i ||
         match n with
         | O => false
         | S n' => matchFrom ignoreCase text r1 i (fun j => (i <? j)%nat && loop n' j)
         end) (length text) i
  end.

Definition matchesAt (ignoreCase : bool) (text : list ascii) (r : regex) (i : nat) : bool :=
  matchFrom ignoreCase text r i (fun _ => true).

(** The first position among [i, i+1, ..., i+n] with a match. *)
Fixpoint searchFrom (ignoreCase : bool) (text : list ascii) (r : regex) (n i : nat)
  : ExecResult :=
  if matchesAt ignoreCase text r i then RxMatch i
  else match n with
       | O => RxNull
       | S n' => searchFrom ignoreCase text r n' (S i)
       end.

Definition ignoreCaseOf (flags : string) : option bool :=
  if String.eqb flags "i" || String.eqb flags "gi" || String.eqb flags "ig" then Some true
  else if String.eqb flags "" || String.eqb flags "g" then Some false
  else None.

(** [new RegExp(pattern, flags).exec(input)], on the fragment. *)
Definition exec (pattern flags input : string) : option ExecResult :=
  match ignoreCaseOf flags with
  | None => None
  | Some ignoreCase =>
      match parsePattern pattern with
      | POk r _ => Some (searchFrom ignoreCase (chars input) r (length (chars input)) 0)
      | PSyntaxError => Some RxThrow
      | PUnmodelled => None
      end
  end.

(** An engine agrees with the model where the model speaks. *)
Definition extends (engine : RegExpEngine) : Prop :=
  forall pattern flags input r,
    exec pattern flags input = Some r -> engine pattern flags input = r.

(** The model as an engine; outside the fragment it is made to throw. *)
Definition modelEngine : RegExpEngine :=
  fun pattern flags input =>
    match exec pattern flags input with
    | Some r => r
    | None => RxThrow
    end.

End Regex.

(** ** Errors, the environment of a request and the trace of effects *)

(** The [code] property of a thrown value: absent, a number (the MongoDB
    driver: 11000 is the duplicate-key error) or a string ([AppError]). *)
Inductive ErrCode :=
| CodeNone
| CodeNum (n : Z)
| CodeStr (s : string).

Record JsError := {
  e_message : string;
  e_status : option Z;
  e_code : ErrCode
}.

#[global] Instance ErrCode_eq_dec : EqDecision ErrCode.
Proof. solve_decision. Defined.
#[global] Instance JsError_eq_dec : EqDecision JsError.
Proof. solve_decision. Defined.

(** [new AppError(message, statusCode, code)] *)
Definition AppError (message : string) (status : Z) (c : string) : JsError :=
  {| e_message := message; e_status := Some status; e_code := CodeStr c |}.

(** The error of the driver when a unique index is violated. *)
Definition duplicateKeyError : JsError :=
  {| e_message := "E11000 duplicate key error"; e_status := None; e_code := CodeNum 11000 |}.

(** The call sites that reach storage or the chat provider.  Each is a
    place where the outside world can make the call fail. *)
Inductive Site :=
| KeywordFind            (* ModerationKeyword.find({ enabled: true }) *)
| ProcessedFindOne       (* ProcessedMessage.findOne({ messageId }) *)
| ProcessedCreate        (* ProcessedMessage.create *)
| QueueCreate            (* ModerationQueue.create *)
| ReportCreate           (* Report.create *)
| StreamDeleteMessage    (* client.deleteMessage *)
| StreamFlagMessage      (* client.flagMessage *)
| StreamBanUser          (* client.banUser *)
| ChatRoomIncFlagged     (* ChatRoom.updateOne(..., { $inc: { flaggedCount: 1 } }) *)
| AuditCreate            (* AuditLog.create *)
| ChatRoomTouch          (* ChatRoom.updateOne(..., { lastMessageAt }) *)
| MetricsUpsert          (* MetricsMessagesDaily.updateOne(..., { upsert: true }) *)
| ReportFindById
| ReportSave
| UserFindById
| UserSave
| ChatRoomFindOne
| ChatRoomSave
| QueueFindById
| QueueSave.

#[global] Instance Site_eq_dec : EqDecision Site.
Proof. solve_decision. Defined.

Definition isProviderSite (s : Site) : bool :=
  match s with
  | StreamDeleteMessage | StreamFlagMessage | StreamBanUser => true
  | _ => false
  end.

Inductive LogLevel := LDebug | LInfo | LWarn | LError.

(** What a request does to the outside, in the order it does it.  Of a
    log call the level and the formatted message are kept; further
    arguments (error objects, payloads) are not. *)
Inductive IOEvent :=
| EvLog (lvl : LogLevel) (msg : string)
| EvCall (site : Site) (key : string)
| EvScan (text : string).

#[global] Instance LogLevel_eq_dec : EqDecision LogLevel.
Proof. solve_decision. Defined.
#[global] Instance IOEvent_eq_dec : EqDecision IOEvent.
Proof. solve_decision. Defined.

(** The body of a webhook request ([StreamWebhookEvent]); of the fields
    of the message those that the controller reads. *)
Record StreamMessage := {
  msg_id : string;
  msg_text : string;
  msg_user_id : string;
  msg_cid : string
}.

Record StreamWebhookEvent := {
  ev_type : string;
  ev_message : option StreamMessage
}.

(** The strings that every version of the driver casts to an ObjectId:
    24 hexadecimal characters. *)
Definition isHexDigit (c : ascii) : bool :=
  JsString.isDigit c || JsString.inRange 97 102 c || JsString.inRange 65 70 c.

Definition isObjectIdString (s : string) : bool :=
  (String.length s =? 24)%nat && forallb isHexDigit (JsString.chars s).

(** What the outside world decides for one request: the clock, whether
    the push service has a key, which calls fail and how, what the SDK
    says of a signature ([None]: it throws), the calendar arithmetic
    of [Date] ([setHours], [setFullYear]) and which strings the driver
    of the database casts to an ObjectId.  The raw body that is verified
    is the serialization of the event, so the event stands for it. *)
Record Env := {
  now : Z;
  pushConfigured : bool;
  fault : Site -> option JsError;
  verifyWebhook : StreamWebhookEvent -> string -> option bool;
  addHours : Z -> Z -> Z;
  addYears : Z -> Z -> Z;
  castsToObjectId : string -> bool
}.

Definition setFault (s : Site) (e : option JsError) (env : Env) : Env :=
  {| now := now env;
     pushConfigured := pushConfigured env;
     fault := fun s' => if decide (s' = s) then e else fault env s';
     verifyWebhook := verifyWebhook env;
     addHours := addHours env;
     addYears := addYears env;
     castsToObjectId := castsToObjectId env |}.

(** An environment in which nothing fails and every signature is
    accepted, at time [t].  Its driver casts the strings of 24
    hexadecimal characters and no other. *)
Definition noFaults (t : Z) : Env :=
  {| now := t; pushConfigured := false; fault := fun _ => None;
     verifyWebhook := fun _ _ => Some true;
     addHours := fun d h => d + h * 3600000;
     addYears := fun d y => d + y * 31536000000;
     castsToObjectId := isObjectIdString |}.

(** ** Documents and the world *)

Inductive ReportTargetType := TMessage | TUser | TChannel | TResource.
Inductive ReportStatus := OPEN | UNDER_REVIEW | RESOLVED.
Inductive ModerationAction := DISMISS | REMOVE | BAN_USER | SUSPEND_CHANNEL.

#[global] Instance ReportTargetType_eq_dec : EqDecision ReportTargetType.
Proof. solve_decision. Defined.
#[global] Instance ReportStatus_eq_dec : EqDecision ReportStatus.
Proof. solve_decision. Defined.
#[global] Instance ModerationAction_eq_dec : EqDecision ModerationAction.
Proof. solve_decision. Defined.

Definition targetTypeName (t : ReportTargetType) : string :=
  match t with
  | TMessage => "message" | TUser => "user" | TChannel => "channel" | TResource => "resource"
  end.

Record QueuePayload := {
  p_messageId : string;
  p_userId : string;
  p_channelId : string;
  p_text : string;
  p_matches : list KeywordMatch
}.

(** [IModerationQueue].  The [_id] of a document of the queue, and of a
    report, is its position in the collection: documents of these
    collections are never deleted. *)
Record IModerationQueue := {
  payload : QueuePayload;
  reasonTags : list string;
  q_severity : Z;
  processed : bool;
  processedAt : option Z
}.

Record IReport := {
  targetType : ReportTargetType;
  targetId : string;
  reason : string;
  status : ReportStatus;
  moderatorId : option string;
  moderatorComment : option string;
  resolvedAt : option Z
}.

Record IUser := {
  displayName : string;
  bannedUntil : option Z
}.

Record IChatRoom := {
  lastMessageAt : option Z;
  flaggedCount : Z
}.

(** [actionDetails] of a resolution. *)
Record ActionDetails := {
  d_action : option ModerationAction;
  d_comment : option string;
  messageDeleted : option bool;
  streamBanned : option bool;
  d_bannedUntil : option Z;
  channelSuspended : option bool
}.

Inductive AuditMeta :=
| MetaAutomated (userId channelId sev : string) (ms : list KeywordMatch)
| MetaResolved (reportId : nat) (act : option ModerationAction) (details : ActionDetails)
| MetaQueueItem (sev : Z) (tags : list string).

Record IAuditLog := {
  a_action : string;
  actorUserId : option string;
  target : string;
  timestamp : Z;
  meta : AuditMeta
}.

Record World := {
  (* the fields of the KeywordScannerService singleton *)
  cache : list IModerationKeyword;
  lastCacheUpdate : option Z;
  (* the collections *)
  keywordsDb : list IModerationKeyword;
  processedDb : gmap string Z;
  queueDb : list IModerationQueue;
  reportsDb : list IReport;
  usersDb : gmap string IUser;
  chatRoomsDb : gmap string IChatRoom;
  metricsDb : gmap Z Z;
  auditDb : list IAuditLog;
  (* everything done to the outside so far *)
  trace : list IOEvent
}.

Definition emit (ev : IOEvent) (w : World) : World :=
  {| cache := cache w; lastCacheUpdate := lastCacheUpdate w;
     keywordsDb := keywordsDb w; processedDb := processedDb w;
     queueDb := queueDb w; reportsDb := reportsDb w; usersDb := usersDb w;
     chatRoomsDb := chatRoomsDb w; metricsDb := metricsDb w; auditDb := auditDb w;
     trace := trace w ++ [ev] |}.

Definition setCache (c : list IModerationKeyword) (t : option Z) (w : World) : World :=
  {| cache := c; lastCacheUpdate := t;
     keywordsDb := keywordsDb w; processedDb := processedDb w;
     queueDb := queueDb w; reportsDb := reportsDb w; usersDb := usersDb w;
     chatRoomsDb := chatRoomsDb w; metricsDb := metricsDb w; auditDb := auditDb w;
     trace := trace w |}.

Definition setProcessedDb (d : gmap string Z) (w : World) : World :=
  {| cache := cache w; lastCacheUpdate := lastCacheUpdate w;
     keywordsDb := keywordsDb w; processedDb := d;
     queueDb := queueDb w; reportsDb := reportsDb w; usersDb := usersDb w;
     chatRoomsDb := chatRoomsDb w; metricsDb := metricsDb w; auditDb := auditDb w;
     trace := trace w |}.

Definition setQueueDb (d : list IModerationQueue) (w : World) : World :=
  {| cache := cache w; lastCacheUpdate := lastCacheUpdate w;
     keywordsDb := keywordsDb w; processedDb := processedDb w;
     queueDb := d; reportsDb := reportsDb w; usersDb := usersDb w;
     chatRoomsDb := chatRoomsDb w; metricsDb := metricsDb w; auditDb := auditDb w;
     trace := trace w |}.

Definition setReportsDb (d : list IReport) (w : World) : World :=
  {| cache := cache w; lastCacheUpdate := lastCacheUpdate w;
     keywordsDb := keywordsDb w; processedDb := processedDb w;
     queueDb := queueDb w; reportsDb := d; usersDb := usersDb w;
     chatRoomsDb := chatRoomsDb w; metricsDb := metricsDb w; auditDb := auditDb w;
     trace := trace w |}.

Definition setUsersDb (d : gmap string IUser) (w : World) : World :=
  {| cache := cache w; lastCacheUpdate := lastCacheUpdate w;
     keywordsDb := keywordsDb w; processedDb := processedDb w;
     queueDb := queueDb w; reportsDb := reportsDb w; usersDb := d;
     chatRoomsDb := chatRoomsDb w; metricsDb := metricsDb w; auditDb := auditDb w;
     trace := trace w |}.

Definition setChatRoomsDb (d : gmap string IChatRoom) (w : World) : World :=
  {| cache := cache w; lastCacheUpdate := lastCacheUpdate w;
     keywordsDb := keywordsDb w; processedDb := processedDb w;
     queueDb := queueDb w; reportsDb := reportsDb w; usersDb := usersDb w;
     chatRoomsDb := d; metricsDb := metricsDb w; auditDb := auditDb w;
     trace := trace w |}.

Definition setMetricsDb (d : gmap Z Z) (w : World) : World :=
  {| cache := cache w; lastCacheUpdate := lastCacheUpdate w;
     keywordsDb := keywordsDb w; processedDb := processedDb w;
     queueDb := queueDb w; reportsDb := reportsDb w; usersDb := usersDb w;
     chatRoomsDb := chatRoomsDb w; metricsDb := d; auditDb := auditDb w;
     trace := trace w |}.

Definition setAuditDb (d : list IAuditLog) (w : World) : World :=
  {| cache := cache w; lastCacheUpdate := lastCacheUpdate w;
     keywordsDb := keywordsDb w; processedDb := processedDb w;
     queueDb := queueDb w; reportsDb := reportsDb w; usersDb := usersDb w;
     chatRoomsDb := chatRoomsDb w; metricsDb := metricsDb w; auditDb := d;
     trace := trace w |}.

(** ** The monad of [async] functions *)

Inductive Completion (A : Type) :=
| Normal (a : A)
| Abrupt (e : JsError).
Arguments Normal {A} a.
Arguments Abrupt {A} e.

Definition M (A : Type) : Type := World -> Completion A * World.

Definition ret {A} (a : A) : M A := fun w => (Normal a, w).

Definition bind {A B} (m : M A) (k : A -> M B) : M B :=
  fun w => match m w with
           | (Normal a, w') => k a w'
           | (Abrupt e, w') => (Abrupt e, w')
           end.

Definition throw {A} (e : JsError) : M A := fun w => (Abrupt e, w).

(** [try { m } catch (error) { h error }] *)
Definition tryCatch {A} (m : M A) (h : JsError -> M A) : M A :=
  fun w => match m w with
           | (Normal a, w') => (Normal a, w')
           | (Abrupt e, w') => h e w'
           end.

Definition get : M World := fun w => (Normal w, w).
Definition modify (f : World -> World) : M unit := fun w => (Normal tt, f w).

#[global] Instance M_ret : MRet M := @ret.
#[global] Instance M_bind : MBind M := fun A B k m => bind m k.

Definition logger (lvl : LogLevel) (msg : string) : M unit := modify (emit (EvLog lvl msg)).

(** A call to storage or to the provider: it is recorded, and fails if
    the environment says so. *)
Definition call (env : Env) (site : Site) (key : string) : M unit :=
  modify (emit (EvCall site key)) ;;
  match fault env site with
  | Some e => throw e
  | None => ret tt
  end.

(** ** The keyword scanner ([src/services/keywordScanner.ts]) *)

Definition dquote : string := String (ascii_of_nat 34) EmptyString.

(** [private cacheTTL: number = 5 * 60 * 1000] *)
Definition cacheTTL : Z := 5 * 60 * 1000.

(** The condition of the first [if] of [loadKeywords]: the cache is used
    when no reload is forced, it is not empty, it has been filled and it
    is younger than [cacheTTL]. *)
Definition cacheValid (env : Env) (force : bool) (w : World) : bool :=
  negb force &&
  (0 <? length (cache w))%nat &&
  match lastCacheUpdate w with
  | Some t => now env - t <? cacheTTL
  | None => false
  end.

Definition loadKeywords (env : Env) (force : bool) : M (list IModerationKeyword) :=
  w ← get;
  if cacheValid env force w
  then ret (cache w)
  else
    tryCatch
      (call env KeywordFind "enabled" ;;
       w1 ← get;
       let keywords := List.filter enabled (keywordsDb w1) in
       modify (setCache keywords (Some (now env))) ;;
       logger LInfo ("Loaded " +:+ pretty (length keywords) +:+ " moderation keywords into cache") ;;
       ret keywords)
      (fun error =>
         logger LError "Error loading moderation keywords:" ;;
         w2 ← get;
         ret (cache w2)).

Definition normalizeText (text : string) : string :=
  JsString.str
    (JsString.trimChars
       (JsString.collapseSpaces
          (JsString.replaceNonWordChars
             (JsString.chars (JsString.toLowerCase text))))).

(** [scores[severity] || 0] *)
Definition getSeverityScore (s : KeywordSeverity) : Z :=
  let score := match s with NONE => 0 | LOW => 1 | MEDIUM => 2 | HIGH => 3 end in
  if score =? 0 then 0 else score.

(** The variables of the loop of [scanText], and the errors it logs. *)
Record ScanState := {
  s_matches : list KeywordMatch;
  highestSeverity : KeywordSeverity;
  highestScore : Z;
  s_logged : list IOEvent
}.

Definition scanStart : ScanState :=
  {| s_matches := []; highestSeverity := NONE; highestScore := 0; s_logged := [] |}.

(** [matches.sort((a, b) => a.position - b.position)]: the sort of the
    runtime is stable, which determines its result; it is given here by
    insertion. *)
Fixpoint insertByPosition (m : KeywordMatch) (l : list KeywordMatch) : list KeywordMatch :=
  match l with
  | [] => [m]
  | x :: l' => if position m <=? position x then m :: l else x :: insertByPosition m l'
  end.

Definition sortMatches (l : list KeywordMatch) : list KeywordMatch :=
  foldr insertByPosition [] l.

Section Scanner.
Context {engine : RegExpEngine}.

(** The two branches that build and run the expression of a keyword. *)
Definition execKeyword (keyword : IModerationKeyword) (normalizedText : string) : ExecResult :=
  if isRegex keyword
  then RegExp_exec (word keyword) "gi" normalizedText
  else RegExp_exec ("\b" +:+ word keyword +:+ "\b") "i" normalizedText.

(** One turn of the loop over the keywords. *)
Definition scanKeyword (normalizedText : string) (st : ScanState)
    (keyword : IModerationKeyword) : ScanState :=
  match execKeyword keyword normalizedText with
  | RxThrow =>
      {| s_matches := s_matches st;
         highestSeverity := highestSeverity st;
         highestScore := highestScore st;
         s_logged := s_logged st ++
           [EvLog LError ("Error processing keyword " +:+ dquote +:+ word keyword +:+ dquote +:+ ":")] |}
  | RxNull => st
  | RxMatch index =>
      let pushed := s_matches st ++
        [{| m_word := word keyword; m_severity := severity keyword;
            m_action := action keyword; position := Z.of_nat index |}] in
      let score := getSeverityScore (severity keyword) in
      if highestScore st <? score
      then {| s_matches := pushed; highestSeverity := severity keyword;
              highestScore := score; s_logged := s_logged st |}
      else {| s_matches := pushed; highestSeverity := highestSeverity st;
              highestScore := highestScore st; s_logged := s_logged st |}
  end.

Definition scanKeywords (normalizedText : string) (keywords : list IModerationKeyword) : ScanState :=
  fold_left (scanKeyword normalizedText) keywords scanStart.

(** [!text || text.trim().length === 0] *)
Definition isBlank (text : string) : bool :=
  (String.eqb text "") || (String.length (JsString.trim text) =? 0)%nat.

(** [scanText].  Entering it is recorded in the trace. *)
Definition scanText (env : Env) (text : string) : M ScanResult :=
  modify (emit (EvScan text)) ;;
  if isBlank text
  then ret {| r_severity := NONE; matches := []; severityScore := 0 |}
  else
    keywords ← loadKeywords env false;
    let normalizedText := normalizeText text in
    let st := scanKeywords normalizedText keywords in
    modify (fun w => foldl (fun w ev => emit ev w) w (s_logged st)) ;;
    let sorted := sortMatches (s_matches st) in
    logger LDebug ("Scanned text, found " +:+ pretty (length sorted) +:+
                   " matches, severity: " +:+ severityName (highestSeverity st)) ;;
    ret {| r_severity := highestSeverity st;
           matches := sorted;
           severityScore := highestScore st |}.

Definition reloadKeywords (env : Env) : M unit :=
  loadKeywords env true ;;
  logger LInfo "Keyword cache reloaded".

Definition clearCache : M unit :=
  modify (setCache [] None) ;;
  logger LInfo "Keyword cache cleared".

End Scanner.

(** ** What a scan result must satisfy *)

Definition scoreOf (m : KeywordMatch) : Z := getSeverityScore (m_severity m).

(** The maximum of the per-match scores, 0 when there is no match. *)
Definition maxScore (ms : list KeywordMatch) : Z :=
  foldr (fun m acc => Z.max (scoreOf m) acc) 0 ms.

(** The severity of the first match of [ms] whose score is [n]. *)
Definition firstWithScore (n : Z) (ms : list KeywordMatch) : KeywordSeverity :=
  match List.find (fun m => scoreOf m =? n) ms with
  | Some m => m_severity m
  | None => NONE
  end.

Definition firstAttaining (ms : list KeywordMatch) : KeywordSeverity :=
  firstWithScore (maxScore ms) ms.

Definition byPosition (a b : KeywordMatch) : Prop := position a <= position b.

Section ScannerFacts.
Context {engine : RegExpEngine}.

(** The match a keyword contributes, if its expression matches. *)
Definition matchOf (normalizedText : string) (keyword : IModerationKeyword) : option KeywordMatch :=
  match execKeyword keyword normalizedText with
  | RxMatch index =>
      Some {| m_word := word keyword; m_severity := severity keyword;
              m_action := action keyword; position := Z.of_nat index |}
  | _ => None
  end.

(** The matches in the order in which the rules are encountered. *)
Definition encountered (normalizedText : string) (keywords : list IModerationKeyword)
  : list KeywordMatch :=
  omap (matchOf normalizedText) keywords.

(** The rule set a scan started in world [w] works with. *)
Definition loadedKeywords (env : Env) (w : World) : list IModerationKeyword :=
  match loadKeywords env false w with
  | (Normal ks, _) => ks
  | (Abrupt _, _) => []
  end.

End ScannerFacts.

(** ** The idempotency service ([src/services/idempotency.ts]) *)

Definition isProcessed (env : Env) (messageId : string) : M bool :=
  tryCatch
    (call env ProcessedFindOne messageId ;;
     w ← get;
     ret (bool_decide (is_Some (processedDb w !! messageId))))
    (fun error =>
       logger LError "Error checking message processed status:" ;;
       ret false).

(** [ProcessedMessage.create]: [messageId] has a unique index. *)
Definition createProcessedMessage (env : Env) (messageId : string) : M unit :=
  call env ProcessedCreate messageId ;;
  w ← get;
  match processedDb w !! messageId with
  | Some _ => throw duplicateKeyError
  | None => modify (setProcessedDb (<[messageId := now env]> (processedDb w)))
  end.

Definition markProcessed (env : Env) (messageId : string) : M unit :=
  tryCatch
    (createProcessedMessage env messageId ;;
     logger LDebug ("Message marked as processed: " +:+ messageId))
    (fun error =>
       if decide (e_code error <> CodeNum 11000)
       then logger LError "Error marking message as processed:"
       else ret tt).

(** ** The provider client and the push service *)

Definition boolName (b : bool) : string := if b then "true" else "false".

Definition deleteMessage (env : Env) (messageId : string) (hard : bool) : M unit :=
  tryCatch
    (call env StreamDeleteMessage messageId ;;
     logger LInfo ("Message deleted: " +:+ messageId +:+ " (hard: " +:+ boolName hard +:+ ")"))
    (fun error => logger LError "Error deleting message:" ;; throw error).

Definition flagMessage (env : Env) (messageId userId reason : string) : M unit :=
  tryCatch
    (call env StreamFlagMessage messageId ;;
     logger LInfo ("Message flagged: " +:+ messageId +:+ " by user: " +:+ userId))
    (fun error => logger LError "Error flagging message:" ;; throw error).

Record BanOptions := {
  timeout : option Z;
  ban_reason : string;
  bannedBy : string
}.

Definition banUser (env : Env) (targetUserId : string) (options : BanOptions) : M unit :=
  tryCatch
    (call env StreamBanUser targetUserId ;;
     logger LInfo ("User banned: " +:+ targetUserId))
    (fun error => logger LError "Error banning user:" ;; throw error).

Definition verifyWebhookSignature (env : Env) (body : StreamWebhookEvent) (signature : string)
  : M bool :=
  match verifyWebhook env body signature with
  | Some b => ret b
  | None => logger LError "Error verifying webhook signature:" ;; ret false
  end.

Definition notifyModerators (env : Env) (message : string) : M unit :=
  if negb (pushConfigured env)
  then logger LWarn "Push service not configured, skipping moderator notification"
  else
    logger LInfo "Notifying moderators:" ;;
    logger LInfo "Moderators notified".

Definition sendCrisisResources (env : Env) (userId : string) : M unit :=
  if negb (pushConfigured env)
  then logger LWarn "Push service not configured, skipping crisis notification"
  else
    logger LInfo ("Sending crisis resources to user " +:+ userId +:+ ":") ;;
    logger LInfo ("Crisis resources sent to user " +:+ userId).

(** ** The webhook controller *)

Definition createQueueItem (env : Env) (item : IModerationQueue) : M unit :=
  call env QueueCreate (p_messageId (payload item)) ;;
  w ← get;
  modify (setQueueDb (queueDb w ++ [item])).

Definition createReport (env : Env) (r : IReport) : M unit :=
  call env ReportCreate (targetId r) ;;
  w ← get;
  modify (setReportsDb (reportsDb w ++ [r])).

Definition createAuditLog (env : Env) (a : IAuditLog) : M unit :=
  call env AuditCreate (target a) ;;
  w ← get;
  modify (setAuditDb (auditDb w ++ [a])).

Definition incFlagged (n : Z) (room : IChatRoom) : IChatRoom :=
  {| lastMessageAt := lastMessageAt room; flaggedCount := flaggedCount room + n |}.

Definition touchRoom (t : Z) (room : IChatRoom) : IChatRoom :=
  {| lastMessageAt := Some t; flaggedCount := flaggedCount room |}.

(** [ChatRoom.updateOne({ streamChannelId }, { $inc: { flaggedCount: 1 } })]:
    nothing happens when no room has this channel. *)
Definition incFlaggedCount (env : Env) (channelId : string) : M unit :=
  call env ChatRoomIncFlagged channelId ;;
  w ← get;
  modify (setChatRoomsDb (alter (incFlagged 1) channelId (chatRoomsDb w))).

Definition queueItemOf (messageId userId channelId : string) (scanResult : ScanResult)
    (text : string) (sev : Z) : IModerationQueue :=
  {| payload := {| p_messageId := messageId; p_userId := userId; p_channelId := channelId;
                   p_text := text; p_matches := matches scanResult |};
     reasonTags := map m_word (matches scanResult);
     q_severity := sev;
     processed := false;
     processedAt := None |}.

(** [words.join(', ')] *)
Fixpoint join (sep : string) (l : list string) : string :=
  match l with
  | [] => ""
  | [x] => x
  | x :: l' => x +:+ sep +:+ join sep l'
  end.

Definition handleHighSeverity (env : Env) (messageId userId channelId : string)
    (scanResult : ScanResult) (text : string) : M unit :=
  logger LWarn ("HIGH severity message detected: " +:+ messageId) ;;
  createQueueItem env (queueItemOf messageId userId channelId scanResult text 3) ;;
  createReport env
    {| targetType := TMessage;
       targetId := messageId;
       reason := "Automatic: High severity keywords detected - " +:+
                 join ", " (map m_word (matches scanResult));
       status := UNDER_REVIEW;
       moderatorId := None; moderatorComment := None; resolvedAt := None |} ;;
  tryCatch
    (deleteMessage env messageId true ;;
     logger LInfo ("Message deleted: " +:+ messageId))
    (fun error => logger LError "Failed to delete message:") ;;
  tryCatch
    (notifyModerators env "HIGH severity message detected")
    (fun error => logger LError "Failed to notify moderators:") ;;
  tryCatch
    (sendCrisisResources env userId)
    (fun error => logger LError "Failed to send crisis resources:") ;;
  incFlaggedCount env channelId ;;
  createAuditLog env
    {| a_action := "message_moderated_high";
       actorUserId := None;
       target := messageId;
       timestamp := now env;
       meta := MetaAutomated userId channelId "high" (matches scanResult) |}.

Definition handleMediumSeverity (env : Env) (messageId userId channelId : string)
    (scanResult : ScanResult) (text : string) : M unit :=
  logger LWarn ("MEDIUM severity message detected: " +:+ messageId) ;;
  createQueueItem env (queueItemOf messageId userId channelId scanResult text 2) ;;
  tryCatch
    (flagMessage env messageId "system" "Medium severity keywords detected" ;;
     logger LInfo ("Message flagged: " +:+ messageId))
    (fun error => logger LError "Failed to flag message:") ;;
  incFlaggedCount env channelId ;;
  createAuditLog env
    {| a_action := "message_flagged_medium";
       actorUserId := None;
       target := messageId;
       timestamp := now env;
       meta := MetaAutomated userId channelId "medium" (matches scanResult) |}.

Definition handleLowSeverity (env : Env) (messageId userId channelId : string)
    (scanResult : ScanResult) (text : string) : M unit :=
  logger LInfo ("LOW severity message detected: " +:+ messageId) ;;
  createQueueItem env (queueItemOf messageId userId channelId scanResult text 1).

(** The day of a date, [toISOString().split('T')[0]], as the number of
    the day. *)
Definition dayOf (t : Z) : Z := t / 86400000.

Definition updateMetricsAndChatRoom (env : Env) (channelId : string) : M unit :=
  call env ChatRoomTouch channelId ;;
  w ← get;
  modify (setChatRoomsDb (alter (touchRoom (now env)) channelId (chatRoomsDb w))) ;;
  let today := dayOf (now env) in
  call env MetricsUpsert (pretty today) ;;
  w1 ← get;
  modify (setMetricsDb (<[today := default 0 (metricsDb w1 !! today) + 1]> (metricsDb w1))).

Section Controllers.
Context {engine : RegExpEngine}.

(** The second half of [processMessageCreated], from the scan to the
    last log: what is done with a message once it is let in. *)
Definition classifyAndDispatch (env : Env) (message : StreamMessage) : M unit :=
  let messageId := msg_id message in
  let text := msg_text message in
  let userId := msg_user_id message in
  let channelId := msg_cid message in
  scanResult ← scanText env text;
  logger LInfo ("Message scan result: severity=" +:+ severityName (r_severity scanResult) +:+
                ", matches=" +:+ pretty (length (matches scanResult))) ;;
  match r_severity scanResult with
  | HIGH => handleHighSeverity env messageId userId channelId scanResult text
  | MEDIUM => handleMediumSeverity env messageId userId channelId scanResult text
  | LOW => handleLowSeverity env messageId userId channelId scanResult text
  | NONE => ret tt
  end ;;
  updateMetricsAndChatRoom env channelId ;;
  logger LInfo ("Message processing completed: " +:+ messageId).

Definition processMessageCreated (env : Env) (message : StreamMessage) : M unit :=
  let messageId := msg_id message in
  let channelId := msg_cid message in
  logger LInfo ("Processing message: " +:+ messageId +:+ " in channel " +:+ channelId) ;;
  alreadyProcessed ← isProcessed env messageId;
  if (alreadyProcessed : bool)
  then logger LInfo ("Message already processed: " +:+ messageId)
  else
    markProcessed env messageId ;;
    classifyAndDispatch env message.

Record WebhookRequest := {
  x_signature : option string;
  body : StreamWebhookEvent
}.

Record WebhookResponse := {
  res_status : Z;
  res_success : bool;
  res_error : option string
}.

Definition handleStreamWebhook (env : Env) (req : WebhookRequest) : M WebhookResponse :=
  tryCatch
    (signature ←
       match x_signature req with
       | Some s =>
           if String.eqb s ""
           then throw (AppError "Missing webhook signature" 401 "MISSING_SIGNATURE")
           else ret s
       | None => throw (AppError "Missing webhook signature" 401 "MISSING_SIGNATURE")
       end;
     isValid ← verifyWebhookSignature env (body req) signature;
     (if (isValid : bool) then ret tt
      else throw (AppError "Invalid webhook signature" 401 "INVALID_SIGNATURE")) ;;
     let event := body req in
     match ev_message event with
     | Some message =>
         if String.eqb (ev_type event) "message.new"
         then processMessageCreated env message
         else ret tt
     | None => ret tt
     end ;;
     ret {| res_status := 200; res_success := true; res_error := None |})
    (fun error =>
       logger LError "Webhook processing error:" ;;
       if decide (e_code error = CodeStr "INVALID_SIGNATURE" \/
                  e_code error = CodeStr "MISSING_SIGNATURE")
       then ret {| res_status := 401; res_success := false;
                   res_error := Some (e_message error) |}
       else ret {| res_status := 200; res_success := false; res_error := None |}).

End Controllers.

(** ** The moderation controller *)

(** The body of a resolution request.  [req_action] is [None] for a
    value that is none of the four actions. *)
Record ResolveRequest := {
  req_moderatorId : string;
  reportId : nat;
  req_action : option ModerationAction;
  comment : option string;
  banDurationHours : option Z
}.

Record ResolveResponse := {
  rr_reportId : nat;
  rr_action : option ModerationAction;
  rr_status : ReportStatus;
  rr_details : ActionDetails
}.

(** A number in a condition: absent and 0 are falsy. *)
Definition truthy (n : option Z) : bool :=
  match n with
  | Some v => negb (v =? 0)
  | None => false
  end.

Definition setMessageDeleted (b : bool) (d : ActionDetails) : ActionDetails :=
  {| d_action := d_action d; d_comment := d_comment d; messageDeleted := Some b;
     streamBanned := streamBanned d; d_bannedUntil := d_bannedUntil d;
     channelSuspended := channelSuspended d |}.

Definition setStreamBanned (b : bool) (d : ActionDetails) : ActionDetails :=
  {| d_action := d_action d; d_comment := d_comment d; messageDeleted := messageDeleted d;
     streamBanned := Some b; d_bannedUntil := d_bannedUntil d;
     channelSuspended := channelSuspended d |}.

Definition setBannedUntil (t : Z) (d : ActionDetails) : ActionDetails :=
  {| d_action := d_action d; d_comment := d_comment d; messageDeleted := messageDeleted d;
     streamBanned := streamBanned d; d_bannedUntil := Some t;
     channelSuspended := channelSuspended d |}.

Definition setChannelSuspended (b : bool) (d : ActionDetails) : ActionDetails :=
  {| d_action := d_action d; d_comment := d_comment d; messageDeleted := messageDeleted d;
     streamBanned := streamBanned d; d_bannedUntil := d_bannedUntil d;
     channelSuspended := Some b |}.

Definition banUntil (t : Z) (u : IUser) : IUser :=
  {| displayName := displayName u; bannedUntil := Some t |}.

Definition resolved (moderator : string) (c : option string) (t : Z) (r : IReport) : IReport :=
  {| targetType := targetType r; targetId := targetId r; reason := reason r;
     status := RESOLVED;
     moderatorId := Some moderator;
     moderatorComment := c;
     resolvedAt := Some t |}.

Definition markItemProcessed (t : Z) (q : IModerationQueue) : IModerationQueue :=
  {| payload := payload q; reasonTags := reasonTags q; q_severity := q_severity q;
     processed := true; processedAt := Some t |}.

(** The error of Mongoose when a value cannot be cast to the type of its
    path: it has neither a status nor a code. *)
Definition castError (value : string) : JsError :=
  {| e_message := "Cast to ObjectId failed for value " +:+ dquote +:+ value +:+ dquote +:+
                  " (type string) at path " +:+ dquote +:+ "_id" +:+ dquote +:+
                  " for model " +:+ dquote +:+ "User" +:+ dquote;
     e_status := None; e_code := CodeNone |}.

(** [User.findById(id)].  The [_id] of a user is an ObjectId: the driver
    casts [id] before it queries and throws a CastError when it cannot.
    The users of the collection are stored under ObjectIds, so the cast
    of an id under which a user is stored has succeeded; for an id that
    finds no user the driver decides between [null] and the error. *)
Definition findUserById (env : Env) (id : string) : M (option IUser) :=
  call env UserFindById id ;;
  w ← get;
  match usersDb w !! id with
  | Some user => ret (Some user)
  | None => if castsToObjectId env id then ret None else throw (castError id)
  end.

(** The [switch] of [resolveModerationAction]: it carries out the action
    on the target of [report] and completes the details. *)
Definition executeAction (env : Env) (req : ResolveRequest) (report : IReport)
    (actionDetails : ActionDetails) : M ActionDetails :=
  match req_action req with
  | Some DISMISS => ret actionDetails
  | Some REMOVE =>
      if decide (targetType report = TMessage)
      then
        tryCatch
          (deleteMessage env (targetId report) true ;;
           ret (setMessageDeleted true actionDetails))
          (fun error =>
             logger LError "Failed to delete message:" ;;
             ret (setMessageDeleted false actionDetails))
      else ret actionDetails
  | Some BAN_USER =>
      if decide (targetType report = TMessage \/ targetType report = TUser)
      then
        let targetUserId := targetId report in
        (if decide (targetType report = TMessage)
         then logger LWarn "Message author lookup needed for ban action"
         else ret tt) ;;
        found ← findUserById env targetUserId;
        w ← get;
        match found with
        | Some user =>
            let until :=
              if truthy (banDurationHours req)
              then addHours env (now env) (default 0 (banDurationHours req))
              else addYears env (now env) 10 in
            call env UserSave targetUserId ;;
            modify (setUsersDb (<[targetUserId := banUntil until user]> (usersDb w))) ;;
            details ←
              tryCatch
                (banUser env targetUserId
                   {| timeout := if truthy (banDurationHours req)
                                 then Some (default 0 (banDurationHours req) * 60)
                                 else None;
                      ban_reason := match comment req with
                                    | Some c => if String.eqb c "" then "Moderation action" else c
                                    | None => "Moderation action"
                                    end;
                      bannedBy := req_moderatorId req |} ;;
                 ret (setStreamBanned true actionDetails))
                (fun error =>
                   logger LError "Failed to ban user in Stream:" ;;
                   ret (setStreamBanned false actionDetails));
            ret (setBannedUntil until details)
        | None => ret actionDetails
        end
      else ret actionDetails
  | Some SUSPEND_CHANNEL =>
      if decide (targetType report = TChannel)
      then
        call env ChatRoomFindOne (targetId report) ;;
        w ← get;
        match chatRoomsDb w !! targetId report with
        | Some chatRoom =>
            call env ChatRoomSave (targetId report) ;;
            modify (setChatRoomsDb (<[targetId report := incFlagged 100 chatRoom]> (chatRoomsDb w))) ;;
            ret (setChannelSuspended true actionDetails)
        | None => ret actionDetails
        end
      else ret actionDetails
  | None => throw (AppError "Invalid moderation action" 400 "INVALID_ACTION")
  end.

Definition resolveModerationAction (env : Env) (req : ResolveRequest) : M ResolveResponse :=
  let moderator := req_moderatorId req in
  call env ReportFindById (pretty (reportId req)) ;;
  w ← get;
  match reportsDb w !! reportId req with
  | None => throw (AppError "Report not found" 404 "REPORT_NOT_FOUND")
  | Some report =>
      if decide (status report = RESOLVED)
      then throw (AppError "Report already resolved" 400 "ALREADY_RESOLVED")
      else
        actionDetails ←
          executeAction env req report
            {| d_action := req_action req; d_comment := comment req;
               messageDeleted := None; streamBanned := None;
               d_bannedUntil := None; channelSuspended := None |};
        let saved := resolved moderator (comment req) (now env) report in
        call env ReportSave (pretty (reportId req)) ;;
        w1 ← get;
        modify (setReportsDb (<[reportId req := saved]> (reportsDb w1))) ;;
        createAuditLog env
          {| a_action := "moderation_resolved";
             actorUserId := Some moderator;
             target := targetTypeName (targetType report) +:+ ":" +:+ targetId report;
             timestamp := now env;
             meta := MetaResolved (reportId req) (req_action req) actionDetails |} ;;
        logger LInfo ("Moderation action resolved: " +:+ pretty (reportId req) +:+
                      " by moderator " +:+ moderator) ;;
        ret {| rr_reportId := reportId req; rr_action := req_action req;
               rr_status := status saved; rr_details := actionDetails |}
  end.

Record ProcessResponse := {
  pr_queueItemId : nat;
  pr_processed : bool
}.

Definition processQueueItem (env : Env) (id : nat) (moderator : string) : M ProcessResponse :=
  call env QueueFindById (pretty id) ;;
  w ← get;
  match queueDb w !! id with
  | None => throw (AppError "Queue item not found" 404 "QUEUE_ITEM_NOT_FOUND")
  | Some queueItem =>
      if processed queueItem
      then throw (AppError "Queue item already processed" 400 "ALREADY_PROCESSED")
      else
        let saved := markItemProcessed (now env) queueItem in
        call env QueueSave (pretty id) ;;
        w1 ← get;
        modify (setQueueDb (<[id := saved]> (queueDb w1))) ;;
        createAuditLog env
          {| a_action := "queue_item_processed";
             actorUserId := Some moderator;
             target := pretty id;
             timestamp := now env;
             meta := MetaQueueItem (q_severity saved) (reasonTags saved) |} ;;
        logger LInfo ("Queue item processed: " +:+ pretty id +:+ " by moderator " +:+ moderator) ;;
        ret {| pr_queueItemId := id; pr_processed := true |}
  end.

(** ** Sample data: the keywords of the tests and of the seed script *)

Definition keyword (w : string) (s : KeywordSeverity) (a : KeywordAction) : IModerationKeyword :=
  {| word := w; severity := s; action := a; isRegex := false; enabled := true |}.

Definition testKeywords : list IModerationKeyword :=
  [ keyword "suicide" HIGH ESCALATE;
    keyword "kill myself" HIGH ESCALATE;
    keyword "depressed" MEDIUM FLAG;
    keyword "stressed" LOW FLAG ].

Definition emptyWorld : World :=
  {| cache := []; lastCacheUpdate := None; keywordsDb := [];
     processedDb := ∅; queueDb := []; reportsDb := []; usersDb := ∅;
     chatRoomsDb := ∅; metricsDb := ∅; auditDb := []; trace := [] |}.

Definition withKeywords (ks : list IModerationKeyword) (w : World) : World :=
  {| cache := cache w; lastCacheUpdate := lastCacheUpdate w;
     keywordsDb := ks; processedDb := processedDb w;
     queueDb := queueDb w; reportsDb := reportsDb w; usersDb := usersDb w;
     chatRoomsDb := chatRoomsDb w; metricsDb := metricsDb w; auditDb := auditDb w;
     trace := trace w |}.

Definition testWorld : World := withKeywords testKeywords emptyWorld.

(** ** Vocabulary of the properties *)

(** The collections of a world: everything but the cache of the scanner
    and the trace. *)
Definition stores (w : World) :=
  (keywordsDb w, processedDb w, queueDb w, reportsDb w,
   usersDb w, chatRoomsDb w, metricsDb w, auditDb w).

(** An event of the trace is a call to the chat provider; it is the
    entry of the classifier. *)
Definition callsProvider (ev : IOEvent) : bool :=
  match ev with
  | EvCall s _ => isProviderSite s
  | _ => false
  end.

Definition entersClassifier (ev : IOEvent) : bool :=
  match ev with
  | EvScan _ => true
  | _ => false
  end.

(** The audit records of the automated decisions on message [messageId]. *)
Definition isDecisionRecord (messageId : string) (a : IAuditLog) : bool :=
  String.eqb (target a) messageId &&
  (String.eqb (a_action a) "message_moderated_high" ||
   String.eqb (a_action a) "message_flagged_medium").

Definition decisionRecords (messageId : string) (w : World) : list IAuditLog :=
  List.filter (isDecisionRecord messageId) (auditDb w).

(** The requests the service answers, and a sequence of them served one
    after the other, each in the environment it meets. *)
Inductive Request :=
| RWebhook (req : WebhookRequest)
| RResolve (req : ResolveRequest)
| RProcessItem (id : nat) (moderator : string).

Section Serving.
Context {engine : RegExpEngine}.

Definition handle (env : Env) (r : Request) (w : World) : World :=
  match r with
  | RWebhook req => snd (handleStreamWebhook env req w)
  | RResolve req => snd (resolveModerationAction env req w)
  | RProcessItem id moderator => snd (processQueueItem env id moderator w)
  end.

Definition serve (rs : list (Env * Request)) (w : World) : World :=
  foldl (fun w er => handle (fst er) (snd er) w) w rs.

End Serving.

(** The idempotency store answers: neither the lookup nor the insert is
    made to fail by the environment. *)
Definition idempotencyStoreAnswers (env : Env) : Prop :=
  fault env ProcessedFindOne = None /\ fault env ProcessedCreate = None.

(** From [w] to [w'] the processed ids are kept, and the audit log has
    grown by [extra]. *)
Definition auditGrowsBy (extra : list IAuditLog) (w w' : World) : Prop :=
  (forall k, is_Some (processedDb w !! k) -> is_Some (processedDb w' !! k)) /\
  auditDb w' = auditDb w ++ extra.

(** The invariant of the loop of [scanText]. *)
Definition aggregated (st : ScanState) : Prop :=
  highestScore st = maxScore (s_matches st) /\
  highestSeverity st = firstAttaining (s_matches st).

(** At most one record, and it is about [messageId]. *)
Definition atMostOneAbout (messageId : string) (extra : list IAuditLog) : Prop :=
  (length extra <= 1)%nat /\ Forall (fun a => target a = messageId) extra.

(** Records of the moderators' actions, which are not decisions on a
    message. *)
Definition manualRecords (extra : list IAuditLog) : Prop :=
  Forall (fun a => a_action a = "moderation_resolved" \/
                   a_action a = "queue_item_processed") extra.

(** For message [messageId] there is at most one decision record, and if
    there is one the id is recorded as processed. *)
Definition decidedOnce (messageId : string) (w : World) : Prop :=
  (length (decisionRecords messageId w) <= 1)%nat /\
  (decisionRecords messageId w <> [] -> is_Some (processedDb w !! messageId)).

(** Sample requests, after the tests of the webhook handler. *)
Definition cleanMessage : StreamMessage :=
  {| msg_id := "msg-clean"; msg_text := "Hello, how are you?";
     msg_user_id := "user-clean"; msg_cid := "messaging:channel-clean" |}.

Definition highMessage : StreamMessage :=
  {| msg_id := "msg-123"; msg_text := "I am thinking about suicide";
     msg_user_id := "user-123"; msg_cid := "messaging:channel-123" |}.

Definition webhookOf (m : StreamMessage) : WebhookRequest :=
  {| x_signature := Some "valid-signature";
     body := {| ev_type := "message.new"; ev_message := Some m |} |}.

(** A failure of storage that is not a duplicate-key conflict. *)
Definition storageError : JsError :=
  {| e_message := "connection lost"; e_status := None; e_code := CodeNone |}.

(** A world in which the high-severity message of the tests has been
    reported and queued, and two requests of a moderator. *)
Definition sampleReport : IReport :=
  {| targetType := TMessage; targetId := "msg-123";
     reason := "Automatic: High severity keywords detected - suicide";
     status := UNDER_REVIEW;
     moderatorId := None; moderatorComment := None; resolvedAt := None |}.

Definition sampleItem : IModerationQueue :=
  {| payload := {| p_messageId := "msg-123"; p_userId := "user-123";
                   p_channelId := "messaging:channel-123";
                   p_text := "I am thinking about suicide"; p_matches := [] |};
     reasonTags := ["suicide"]; q_severity := 3;
     processed := false; processedAt := None |}.

Definition moderationWorld : World :=
  setReportsDb [sampleReport] (setQueueDb [sampleItem] testWorld).

Definition dismissRequest : ResolveRequest :=
  {| req_moderatorId := "mod-1"; reportId := 0; req_action := Some DISMISS;
     comment := Some "seen"; banDurationHours := None |}.

Definition banRequest : ResolveRequest :=
  {| req_moderatorId := "mod-1"; reportId := 0; req_action := Some BAN_USER;
     comment := Some "ban the author"; banDurationHours := Some 24 |}.

(** A report about a message whose id happens to be one the driver casts
    to an ObjectId, in a world without users. *)
Definition castableReport : IReport :=
  {| targetType := TMessage; targetId := "0123456789abcdef01234567";
     reason := "Automatic: High severity keywords detected - suicide";
     status := UNDER_REVIEW;
     moderatorId := None; moderatorComment := None; resolvedAt := None |}.

Definition castableWorld : World := setReportsDb [castableReport] testWorld.

(** ** Vocabulary of the properties of the classifier *)

(** The characters that [normalizeText] replaces by a space: neither a
    word character nor white space.  The underscore is a word character
    and is not among them. *)
Definition isReplaced (c : ascii) : bool :=
  negb (JsString.isWordChar c) && negb (JsString.isSpace c).

(** Basic Latin text. *)
Definition basicLatin (text : string) : Prop :=
  Forall (fun c => (JsString.code c < 128)%nat) (JsString.chars text).

(** A term made of word characters and spaces only: for the engine it
    has no character with a special meaning. *)
Definition isPlainChar (c : ascii) : bool :=
  JsString.isWordChar c || Ascii.eqb c " ".

Definition plainTerm (term : string) : Prop :=
  Forall (fun c => isPlainChar c = true) (JsString.chars term).

(** The characters of [term] stand in [text] from position [i] on, case
    being ignored. *)
Fixpoint standsAt (term text : list ascii) (i : nat) : bool :=
  match term with
  | [] => true
  | c :: term' =>
      match text !! i with
      | Some d => Ascii.eqb (Regex.canon c) (Regex.canon d) && standsAt term' text (S i)
      | None => false
      end
  end.

(** [term] stands at [i] as a whole word or phrase: there is a word
    boundary where it starts and another where it ends. *)
Definition wholeWordAt (term text : list ascii) (i : nat) : bool :=
  Regex.isBoundary text i && standsAt term text i &&
  Regex.isBoundary text (i + length term).

(** The first of the positions [i, ..., i + n] that satisfies [p]. *)
Fixpoint firstPosition (p : nat -> bool) (n i : nat) : ExecResult :=
  if p i then RxMatch i
  else match n with
       | O => RxNull
       | S n' => firstPosition p n' (S i)
       end.

(** The expression the literal branch builds for a plain term. *)
Definition literalRegex (term : list ascii) : Regex.regex :=
  Regex.Seq Regex.WordB
    (foldr (fun c r => Regex.Seq (Regex.Chr c) r) (Regex.Seq Regex.WordB Regex.Empty) term).

(** A literal rule whose term has a character that the engine reads as
    an operator, and a world whose cache holds it. *)
Definition alternationRule : IModerationKeyword := keyword "stress|anxiety" MEDIUM FLAG.

Definition cachedWorld (ks : list IModerationKeyword) : World :=
  setCache ks (Some 0) (withKeywords ks emptyWorld).

(** The pattern and the flags [scanText] hands to the engine for a
    keyword, and the rule sets whose expressions are all within the
    modelled fragment for a text. *)
Definition patternOf (k : IModerationKeyword) : string :=
  if isRegex k then word k else "\b" +:+ word k +:+ "\b".

Definition flagsOf (k : IModerationKeyword) : string :=
  if isRegex k then "gi" else "i".

Definition modelled (ks : list IModerationKeyword) (normalizedText : string) : bool :=
  forallb (fun k => match Regex.exec (patternOf k) (flagsOf k) normalizedText with
                    | Some _ => true
                    | None => false
                    end) ks.

(** What [scanText] returns for a text that is not blank, given the
    rules it loaded. *)
Definition scanResultWith `{engine : RegExpEngine} (ks : list IModerationKeyword)
    (text : string) : ScanResult :=
  let st := scanKeywords (normalizeText text) ks in
  {| r_severity := highestSeverity st;
     matches := sortMatches (s_matches st);
     severityScore := highestScore st |}.

Definition blankResult : ScanResult :=
  {| r_severity := NONE; matches := []; severityScore := 0 |}.

(** What follows an atom is no quantifier. *)
Definition noQuantifierAhead (s : list ascii) : Prop :=
  match s with
  | [] => True
  | h :: _ => Regex.isChar h "*" = false /\ Regex.isChar h "+" = false /\
              Regex.isChar h "?" = false /\ Regex.isChar h "{" = false
  end.


(** ** Vocabulary of the further properties *)

(** The signature header is present, not empty, and the SDK accepts it. *)
Definition signatureAccepted (env : Env) (req : WebhookRequest) : bool :=
  match x_signature req with
  | Some s => negb (String.eqb s "") &&
              bool_decide (verifyWebhook env (body req) s = Some true)
  | None => false
  end.

Definition isLog (ev : IOEvent) : bool :=
  match ev with
  | EvLog _ _ => true
  | _ => false
  end.

(** No failure of the environment carries one of the two codes by which
    the webhook handler recognises a rejected signature. *)
Definition faultsAreNotAuthErrors (env : Env) : Prop :=
  forall s e, fault env s = Some e ->
    e_code e <> CodeStr "INVALID_SIGNATURE" /\ e_code e <> CodeStr "MISSING_SIGNATURE".

(** An abrupt completion carries an error that the environment raised at
    one of the call sites. *)
Definition raisedByEnv {A} (env : Env) (c : Completion A) : Prop :=
  match c with
  | Normal _ => True
  | Abrupt e => exists s, fault env s = Some e
  end.

(** [ev] is a call at site [s]. *)
Definition callsSite (s : Site) (ev : IOEvent) : bool :=
  match ev with
  | EvCall s' _ => bool_decide (s' = s)
  | _ => false
  end.

(** Nothing fails in this environment. *)
Definition noFault (env : Env) : Prop := forall s, fault env s = None.

(** The report and the audit records the webhook controller writes. *)
Definition automaticReport (messageId : string) (scanResult : ScanResult) : IReport :=
  {| targetType := TMessage; targetId := messageId;
     reason := "Automatic: High severity keywords detected - " +:+
               join ", " (map m_word (matches scanResult));
     status := UNDER_REVIEW;
     moderatorId := None; moderatorComment := None; resolvedAt := None |}.

Definition automaticAudit (act sev : string) (env : Env) (message : StreamMessage)
    (scanResult : ScanResult) : IAuditLog :=
  {| a_action := act; actorUserId := None; target := msg_id message;
     timestamp := now env;
     meta := MetaAutomated (msg_user_id message) (msg_cid message) sev (matches scanResult) |}.

(** Sample requests for the webhook. *)
Definition unsignedRequest : WebhookRequest :=
  {| x_signature := None;
     body := {| ev_type := "message.new"; ev_message := Some highMessage |} |}.

Definition otherEventRequest : WebhookRequest :=
  {| x_signature := Some "valid-signature";
     body := {| ev_type := "user.updated"; ev_message := None |} |}.

Definition mediumMessage : StreamMessage :=
  {| msg_id := "msg-456"; msg_text := "I feel really depressed";
     msg_user_id := "user-456"; msg_cid := "messaging:channel-456" |}.

(** The shape of a normalized text: white space is the single space
    only, and it never follows white space.  [afterSpace] tells that the
    previous character was white space. *)
Fixpoint singleSpaced (afterSpace : bool) (l : list ascii) : bool :=
  match l with
  | [] => true
  | c :: l' =>
      if JsString.isSpace c
      then Ascii.eqb c " " && negb afterSpace && singleSpaced true l'
      else singleSpaced false l'
  end.

(** A character that the first two steps of [normalizeText] leave as it
    is: a lower-case letter, a digit, the underscore or white space. *)
Definition isKept (c : ascii) : bool :=
  (JsString.isWordChar c && negb (JsString.isUpper c)) || JsString.isSpace c.

(** [cleanup] of the idempotency service.  The calendar step
    [cutoffDate.setDate(cutoffDate.getDate() - olderThanDays)] is the
    parameter [daysBefore], and the outcome of [deleteMany], which has
    no call site of its own in [Site], is the parameter [deleteFails].
    The result is [result.deletedCount || 0]. *)
Definition cleanup (daysBefore : Z -> Z -> Z) (deleteFails : option JsError)
    (env : Env) (olderThanDays : Z) : M Z :=
  tryCatch
    (let cutoffDate := daysBefore (now env) olderThanDays in
     match deleteFails with Some e => throw e | None => ret tt end ;;
     w ← get;
     let kept := filter (fun record : string * Z => ¬ (record.2 < cutoffDate)) (processedDb w) in
     let deletedCount := Z.of_nat (size (processedDb w)) - Z.of_nat (size kept) in
     modify (setProcessedDb kept) ;;
     logger LInfo ("Cleaned up " +:+ pretty deletedCount +:+ " old processed messages") ;;
     ret (if deletedCount =? 0 then 0 else deletedCount))
    (fun error =>
       logger LError "Error cleaning up processed messages:" ;;
       ret 0).

(** Days as milliseconds, for the samples. *)
Definition daysBeforeUTC (t days : Z) : Z := t - days * 86400000.

(** [User.isBanned] ([src/models/User.ts]), at the time of the clock. *)
Definition isBanned (env : Env) (user : IUser) : bool :=
  match bannedUntil user with
  | None => false
  | Some t => now env <? t
  end.

(** The details with which [resolveModerationAction] starts, the record
    it writes to the audit log and the answer it gives. *)
Definition initialDetails (req : ResolveRequest) : ActionDetails :=
  {| d_action := req_action req; d_comment := comment req;
     messageDeleted := None; streamBanned := None;
     d_bannedUntil := None; channelSuspended := None |}.

Definition resolutionRecord (env : Env) (req : ResolveRequest) (report : IReport)
    (details : ActionDetails) : IAuditLog :=
  {| a_action := "moderation_resolved";
     actorUserId := Some (req_moderatorId req);
     target := targetTypeName (targetType report) +:+ ":" +:+ targetId report;
     timestamp := now env;
     meta := MetaResolved (reportId req) (req_action req) details |}.

Definition resolutionAnswer (req : ResolveRequest) (details : ActionDetails) : ResolveResponse :=
  {| rr_reportId := reportId req; rr_action := req_action req;
     rr_status := RESOLVED; rr_details := details |}.

(** The call at site [s] is not made to fail. *)
Definition goesThrough (env : Env) (s : Site) : bool :=
  match fault env s with
  | None => true
  | Some _ => false
  end.

(** The action has something to act on: the [if] inside its [case]. *)
Definition actionApplies (a : ModerationAction) (t : ReportTargetType) : bool :=
  match a, t with
  | REMOVE, TMessage => true
  | BAN_USER, (TMessage | TUser) => true
  | SUSPEND_CHANNEL, TChannel => true
  | _, _ => false
  end.

(** The expiry that a BAN_USER resolution computes. *)
Definition banExpiry (env : Env) (req : ResolveRequest) : Z :=
  if truthy (banDurationHours req)
  then addHours env (now env) (default 0 (banDurationHours req))
  else addYears env (now env) 10.

(** Sample data for the moderation actions.  The id of the user is an
    ObjectId, as the ids of the collection are. *)
Definition samId : string := "64b7f0c2a1d3e4f5a6b7c8d9".

Definition userReport : IReport :=
  {| targetType := TUser; targetId := samId; reason := "harassment";
     status := OPEN; moderatorId := None; moderatorComment := None; resolvedAt := None |}.

Definition channelReport : IReport :=
  {| targetType := TChannel; targetId := "messaging:channel-123"; reason := "spam";
     status := OPEN; moderatorId := None; moderatorComment := None; resolvedAt := None |}.

Definition actionsWorld : World :=
  setChatRoomsDb {[ "messaging:channel-123" := {| lastMessageAt := Some 7; flaggedCount := 2 |} ]}
    (setUsersDb {[ samId := {| displayName := "Sam"; bannedUntil := None |} ]}
       (setReportsDb [sampleReport; userReport; channelReport] testWorld)).

Definition requestOf (id : nat) (a : option ModerationAction) (hours : option Z) : ResolveRequest :=
  {| req_moderatorId := "mod-1"; reportId := id; req_action := a;
     comment := None; banDurationHours := hours |}.

(** ** What the handlers keep *)

(** No room appears or disappears, and no flagged counter goes down. *)
Definition roomsKept (m m' : gmap string IChatRoom) : Prop :=
  forall c, match m !! c, m' !! c with
            | Some room, Some room' => flaggedCount room <= flaggedCount room'
            | None, None => True
            | _, _ => False
            end.

(** From [w] to [w'] the collections have only been appended to: the
    rules and the users are the same, and the processed ids, the queue,
    the reports and the audit log of [w] are still there, in place. *)
Definition appendsOnly (w w' : World) : Prop :=
  keywordsDb w' = keywordsDb w /\ usersDb w' = usersDb w /\
  processedDb w ⊆ processedDb w' /\
  queueDb w `prefix_of` queueDb w' /\
  reportsDb w `prefix_of` reportsDb w' /\
  auditDb w `prefix_of` auditDb w' /\
  roomsKept (chatRoomsDb w) (chatRoomsDb w').

(** A report, and a queue item, as it may have become: what it is about
    is the same, and it is the same altogether once it is closed. *)
Definition sameReport (r r' : IReport) : Prop :=
  targetType r' = targetType r /\ targetId r' = targetId r /\ reason r' = reason r /\
  (status r = RESOLVED -> r' = r).

Definition sameItem (q q' : IModerationQueue) : Prop :=
  payload q' = payload q /\ reasonTags q' = reasonTags q /\ q_severity q' = q_severity q /\
  (processed q = true -> q' = q).

Definition recordsKept (w w' : World) : Prop :=
  keywordsDb w' = keywordsDb w /\
  processedDb w ⊆ processedDb w' /\
  auditDb w `prefix_of` auditDb w' /\
  (forall i r, reportsDb w !! i = Some r ->
     exists r', reportsDb w' !! i = Some r' /\ sameReport r r') /\
  (forall i q, queueDb w !! i = Some q ->
     exists q', queueDb w' !! i = Some q' /\ sameItem q q') /\
  roomsKept (chatRoomsDb w) (chatRoomsDb w') /\
  (forall u, is_Some (usersDb w !! u) <-> is_Some (usersDb w' !! u)).

(** Whatever the world, running [m] takes it to a world related by [R]. *)
Definition always {A} (R : World -> World -> Prop) (m : M A) : Prop :=
  forall w, R w (snd (m w)).

(** An update of a room that does not lower its flagged counter. *)
Definition neverLowers (f : IChatRoom -> IChatRoom) : Prop :=
  forall room, flaggedCount room <= flaggedCount (f room).

(** [refresh] of the auth controller.  The two functions of the auth
    service it calls are parameters: [verifyRefreshToken] answers the
    user id of the payload or the error it throws, and
    [generateAccessToken] the token for a user.  The details that the
    USER_BANNED error carries are not kept in [JsError]. *)
Definition refresh (verifyRefreshToken : string -> JsError + string)
    (generateAccessToken : string -> IUser -> string)
    (env : Env) (refreshToken : string) : M string :=
  match verifyRefreshToken refreshToken with
  | inl e => throw e
  | inr userId =>
      found ← findUserById env userId;
      match found with
      | None => throw (AppError "User not found" 404 "USER_NOT_FOUND")
      | Some user =>
          if isBanned env user
          then throw (AppError "User is banned" 403 "USER_BANNED")
          else
            let accessToken := generateAccessToken userId user in
            logger LInfo ("Token refreshed for user: " +:+ userId) ;;
            ret accessToken
      end
  end.

(** Sample token service: the token is the id of its user. *)
Definition verifySample (token : string) : JsError + string :=
  if String.eqb token "" then inl (AppError "Invalid token" 401 "INVALID_TOKEN") else inr token.

Definition tokenSample (userId : string) (user : IUser) : string := "access:" +:+ userId.

(** ** Two deliveries at once *)

Section Overlap.
Context {engine : RegExpEngine}.

(** [processMessageCreated] up to the answer of [isProcessed], which it
    awaits, and from that answer on. *)
Definition lookupDelivery (env : Env) (message : StreamMessage) : M bool :=
  logger LInfo ("Processing message: " +:+ msg_id message +:+
                " in channel " +:+ msg_cid message) ;;
  isProcessed env (msg_id message).

Definition completeDelivery (env : Env) (message : StreamMessage) (alreadyProcessed : bool)
  : M unit :=
  if alreadyProcessed
  then logger LInfo ("Message already processed: " +:+ msg_id message)
  else
    markProcessed env (msg_id message) ;;
    classifyAndDispatch env message.

(** Two deliveries of one message, the lookups of both answered before
    either goes on. *)
Definition overlappingDeliveries (env : Env) (message : StreamMessage) : M unit :=
  first ← lookupDelivery env message;
  second ← lookupDelivery env message;
  completeDelivery env message first ;;
  completeDelivery env message second.

End Overlap.
Lemma getSeverityScore_range s : 0 <= getSeverityScore s <= 3.
Proof. destruct s; cbn; lia. Qed.

Lemma getSeverityScore_zero s : getSeverityScore s = 0 -> s = NONE.
Proof. destruct s; cbn; congruence. Qed.

Lemma maxScore_cons m ms : maxScore (m :: ms) = Z.max (scoreOf m) (maxScore ms).
Proof. reflexivity. Qed.

Lemma scoreOf_nonneg m : 0 <= scoreOf m.
Proof. apply getSeverityScore_range. Qed.

Lemma maxScore_nonneg ms : 0 <= maxScore ms.
Proof. induction ms as [|m ms IH]; [done|rewrite maxScore_cons; lia]. Qed.

Lemma maxScore_snoc ms m : maxScore (ms ++ [m]) = Z.max (maxScore ms) (scoreOf m).
Proof.
  induction ms as [|x ms IH].
  - cbn. pose proof (scoreOf_nonneg m). lia.
  - rewrite <- app_comm_cons, !maxScore_cons, IH. lia.
Qed.

Lemma maxScore_upper ms m : m ∈ ms -> scoreOf m <= maxScore ms.
Proof.
  induction 1 as [m ms|m x ms _ IH]; rewrite maxScore_cons; lia.
Qed.

Lemma maxScore_attained ms : ms <> [] -> exists m, m ∈ ms /\ scoreOf m = maxScore ms.
Proof.
  induction ms as [|x ms IH]; [done|intros _].
  rewrite maxScore_cons.
  destruct ms as [|y ms].
  - exists x. split; [left|]. cbn. pose proof (scoreOf_nonneg x). lia.
  - destruct IH as (m & Hin & Hm); [done|].
    destruct (Z.le_gt_cases (scoreOf x) (maxScore (y :: ms))) as [Hle|Hgt].
    + exists m. split; [by right|lia].
    + exists x. split; [left|lia].
Qed.

Lemma maxScore_Permutation ms ms' : ms ≡ₚ ms' -> maxScore ms = maxScore ms'.
Proof. induction 1; rewrite ?maxScore_cons; lia. Qed.

Lemma firstWithScore_app_l n ms ms' m :
  m ∈ ms -> scoreOf m = n -> firstWithScore n (ms ++ ms') = firstWithScore n ms.
Proof.
  unfold firstWithScore. induction 1 as [m ms|m x ms _ IH]; intros Hn; cbn.
  - by rewrite (proj2 (Z.eqb_eq _ _) Hn).
  - destruct (scoreOf x =? n); [done|]. by apply IH.
Qed.

Lemma firstWithScore_app_r n ms ms' :
  (forall m, m ∈ ms -> scoreOf m <> n) ->
  firstWithScore n (ms ++ ms') = firstWithScore n ms'.
Proof.
  unfold firstWithScore. induction ms as [|x ms IH]; intros Hall; cbn; [done|].
  destruct (Z.eqb_spec (scoreOf x) n) as [Heq|_].
  - exfalso. eapply Hall; [left|done].
  - apply IH. intros m Hm. apply Hall. by right.
Qed.

(** *** The sort *)

Lemma insertByPosition_Permutation m l : insertByPosition m l ≡ₚ m :: l.
Proof.
  induction l as [|x l IH]; cbn; [done|].
  destruct (position m <=? position x); [done|].
  rewrite IH. apply perm_swap.
Qed.

Lemma sortMatches_Permutation l : sortMatches l ≡ₚ l.
Proof.
  induction l as [|x l IH]; cbn; [done|].
  rewrite insertByPosition_Permutation. by constructor.
Qed.

Lemma insertByPosition_Sorted m l :
  Sorted byPosition l -> Sorted byPosition (insertByPosition m l).
Proof.
  induction 1 as [|x l Hs IH Hhd]; cbn.
  - repeat constructor.
  - destruct (Z.leb_spec (position m) (position x)) as [Hle|Hgt].
    + constructor; [by constructor|by constructor].
    + constructor; [done|].
      destruct l as [|y l]; cbn.
      * constructor. unfold byPosition. lia.
      * destruct (position m <=? position y); constructor.
        -- unfold byPosition. lia.
        -- by inversion Hhd.
Qed.

Lemma sortMatches_Sorted l : Sorted byPosition (sortMatches l).
Proof.
  induction l as [|x l IH]; cbn; [constructor|by apply insertByPosition_Sorted].
Qed.

(** The sort is stable: the matches at one position keep the order in
    which they were pushed. *)
Lemma insertByPosition_stable p m l :
  Sorted byPosition l ->
  List.filter (fun x => position x =? p) (insertByPosition m l) =
  List.filter (fun x => position x =? p) (m :: l).
Proof.
  induction 1 as [|x l Hs IH Hhd]; [done|].
  cbn [insertByPosition].
  destruct (Z.leb_spec (position m) (position x)) as [Hle|Hgt]; [done|].
  cbn [List.filter] in *. rewrite IH.
  destruct (Z.eqb_spec (position m) p) as [Hm|Hm], (Z.eqb_spec (position x) p) as [Hx|Hx];
    try done. lia.
Qed.

Lemma sortMatches_stable p l :
  List.filter (fun x => position x =? p) (sortMatches l) =
  List.filter (fun x => position x =? p) l.
Proof.
  induction l as [|x l IH]; [done|].
  cbn [sortMatches foldr]. rewrite insertByPosition_stable by apply sortMatches_Sorted.
  cbn [List.filter]. fold (sortMatches l). by rewrite IH.
Qed.

(** *** Running computations *)

Ltac run :=
  cbv beta iota delta [mbind M_bind mret M_ret bind ret throw tryCatch get modify logger call].

Lemma loadKeywords_total env force w :
  exists ks w', loadKeywords env force w = (Normal ks, w').
Proof.
  unfold loadKeywords. run.
  destruct (cacheValid env force w); [by eauto|].
  destruct (fault env KeywordFind); eauto.
Qed.

Section LoopFacts.
Context {engine : RegExpEngine}.
Variable normalizedText : string.

Lemma scanKeyword_matches st keyword :
  s_matches (scanKeyword normalizedText st keyword) =
  s_matches st ++ option_list (matchOf normalizedText keyword).
Proof.
  unfold scanKeyword, matchOf.
  destruct (execKeyword keyword normalizedText); cbn; rewrite ?app_nil_r; try done.
  by destruct (_ <? _).
Qed.

Lemma scanKeywords_matches keywords st :
  s_matches (fold_left (scanKeyword normalizedText) keywords st) =
  s_matches st ++ encountered normalizedText keywords.
Proof.
  revert st. induction keywords as [|k ks IH]; intros st; cbn.
  - by rewrite app_nil_r.
  - rewrite IH, scanKeyword_matches. unfold encountered. cbn.
    destruct (matchOf normalizedText k); cbn; by rewrite <- ?app_assoc, ?app_nil_r.
Qed.

(** The loop keeps its two running variables equal to the maximum
    score of the matches pushed so far and to the severity of the
    first of them that has it. *)
Lemma aggregated_start : aggregated scanStart.
Proof. by split. Qed.

Lemma aggregated_push ms m hs :
  hs = firstAttaining ms ->
  firstAttaining (ms ++ [m]) =
    if maxScore ms <? scoreOf m then m_severity m else hs.
Proof.
  intros ->. unfold firstAttaining. rewrite maxScore_snoc.
  destruct (Z.ltb_spec (maxScore ms) (scoreOf m)) as [Hlt|Hge].
  - rewrite Z.max_r by lia. rewrite firstWithScore_app_r.
    + unfold firstWithScore. cbn. by rewrite Z.eqb_refl.
    + intros x Hx. apply maxScore_upper in Hx. lia.
  - rewrite Z.max_l by lia.
    destruct ms as [|y ms].
    + cbn in Hge. pose proof (scoreOf_nonneg m).
      assert (scoreOf m = 0) as H0 by lia.
      unfold firstWithScore. cbn. rewrite H0. cbn.
      by apply getSeverityScore_zero.
    + destruct (maxScore_attained (y :: ms)) as (x & Hin & Hx); [done|].
      by apply firstWithScore_app_l with x.
Qed.

Lemma aggregated_step st keyword :
  aggregated st -> aggregated (scanKeyword normalizedText st keyword).
Proof.
  intros [Hscore Hsev]. unfold aggregated.
  pose proof (scanKeyword_matches st keyword) as Hm. rewrite Hm. clear Hm.
  unfold scanKeyword, matchOf.
  destruct (execKeyword keyword normalizedText) as [| |index]; cbn [option_list];
    rewrite ?app_nil_r; try done.
  set (m := {| m_word := word keyword; m_severity := severity keyword;
               m_action := action keyword; position := Z.of_nat index |}).
  change (option_list (Some m)) with [m].
  rewrite maxScore_snoc, (aggregated_push _ m _ Hsev).
  change (getSeverityScore (severity keyword)) with (scoreOf m).
  rewrite Hscore.
  destruct (Z.ltb_spec (maxScore (s_matches st)) (scoreOf m)); cbn; split; try done; lia.
Qed.

Lemma scanKeywords_aggregated keywords st :
  aggregated st -> aggregated (fold_left (scanKeyword normalizedText) keywords st).
Proof.
  revert st. induction keywords as [|k ks IH]; intros st Hst; cbn; [done|].
  by apply IH, aggregated_step.
Qed.

End LoopFacts.

(** C4. For every text and every rule set, [scanText] returns a result
    whose [severityScore] is the maximum of the scores of its matches
    (NONE=0, LOW=1, MEDIUM=2, HIGH=3; 0 without a match), whose
    [severity] is that of the first rule encountered that attains this
    maximum (NONE without a match), and whose [matches] are the matches
    found, ordered by ascending position. *)
Theorem scanText_aggregate `{engine : RegExpEngine} (env : Env) (text : string) (w : World) :
  exists r w',
    scanText env text w = (Normal r, w') /\
    let found :=
      if isBlank text then []
      else encountered (normalizeText text) (loadedKeywords env (emit (EvScan text) w)) in
    severityScore r = maxScore (matches r) /\
    r_severity r = firstAttaining found /\
    matches r ≡ₚ found /\
    Sorted byPosition (matches r).
Proof.
  unfold scanText, loadedKeywords. run.
  destruct (isBlank text).
  - eexists _, _. split; [done|]. cbn. repeat split; constructor.
  - destruct (loadKeywords_total env false (emit (EvScan text) w)) as (ks & w1 & ->).
    eexists _, _. split; [done|]. cbn.
    pose proof (scanKeywords_aggregated (normalizeText text) ks scanStart
                  aggregated_start) as [Hscore Hsev].
    pose proof (scanKeywords_matches (normalizeText text) ks scanStart) as Hm.
    cbn in Hm. fold (scanKeywords (normalizeText text) ks) in *.
    repeat split.
    + rewrite Hscore. symmetry. apply maxScore_Permutation, sortMatches_Permutation.
    + by rewrite Hsev, Hm.
    + by rewrite sortMatches_Permutation, Hm.
    + apply sortMatches_Sorted.
Qed.

(** ** The idempotency service *)

Lemma isProcessed_eq env messageId w :
  isProcessed env messageId w =
  match fault env ProcessedFindOne with
  | Some _ =>
      (Normal false,
       emit (EvLog LError "Error checking message processed status:")
         (emit (EvCall ProcessedFindOne messageId) w))
  | None =>
      (Normal (bool_decide (is_Some (processedDb w !! messageId))),
       emit (EvCall ProcessedFindOne messageId) w)
  end.
Proof. unfold isProcessed. run. by destruct (fault env ProcessedFindOne). Qed.

Lemma createProcessedMessage_eq env messageId w :
  createProcessedMessage env messageId w =
  let w1 := emit (EvCall ProcessedCreate messageId) w in
  match fault env ProcessedCreate with
  | Some e => (Abrupt e, w1)
  | None =>
      match processedDb w !! messageId with
      | Some _ => (Abrupt duplicateKeyError, w1)
      | None => (Normal tt, setProcessedDb (<[messageId := now env]> (processedDb w)) w1)
      end
  end.
Proof.
  unfold createProcessedMessage. run. cbn.
  destruct (fault env ProcessedCreate); cbn; [done|].
  by destruct (processedDb w !! messageId).
Qed.

Lemma markProcessed_eq env messageId w :
  markProcessed env messageId w =
  match createProcessedMessage env messageId w with
  | (Normal _, w1) =>
      (Normal tt, emit (EvLog LDebug ("Message marked as processed: " +:+ messageId)) w1)
  | (Abrupt e, w1) =>
      (Normal tt,
       if decide (e_code e <> CodeNum 11000)
       then emit (EvLog LError "Error marking message as processed:") w1
       else w1)
  end.
Proof.
  unfold markProcessed. run.
  destruct (createProcessedMessage env messageId w) as [[[]|e] w1]; [done|].
  by destruct (decide _).
Qed.

(** [markProcessed] never raises. *)
Lemma markProcessed_total env messageId w :
  exists w', markProcessed env messageId w = (Normal tt, w').
Proof.
  rewrite markProcessed_eq.
  destruct (createProcessedMessage env messageId w) as [[[]|e] w1]; eauto.
Qed.

(** C7. When the lookup fails, [isProcessed] answers [false]; and when
    the insert of [markProcessed] is refused with the duplicate-key error
    (code 11000), [markProcessed] completes normally, stores nothing and
    logs no error. *)
Theorem idempotency_fail_open_and_conflict (env : Env) (messageId : string) (w : World) :
  (forall e, fault env ProcessedFindOne = Some e ->
             exists w', isProcessed env messageId w = (Normal false, w')) /\
  (forall e w1, createProcessedMessage env messageId w = (Abrupt e, w1) ->
                e_code e = CodeNum 11000 ->
                markProcessed env messageId w = (Normal tt, w1) /\
                processedDb w1 = processedDb w /\
                trace w1 = trace w ++ [EvCall ProcessedCreate messageId]).
Proof.
  split.
  - intros e He. rewrite isProcessed_eq, He. eauto.
  - intros e w1 Hc Hcode. rewrite markProcessed_eq, Hc.
    destruct (decide _) as [Hne|_]; [by destruct Hne|].
    split; [done|].
    rewrite createProcessedMessage_eq in Hc. cbn in Hc.
    destruct (fault env ProcessedCreate); [by inversion Hc|].
    destruct (processedDb w !! messageId); by inversion Hc.
Qed.

(** The lookup fails for a message never seen; and the insert of a
    message already recorded is refused as a duplicate. *)
Lemma idempotency_fail_open_and_conflict_witness :
  (exists w',
     isProcessed (setFault ProcessedFindOne (Some storageError) (noFaults 5)) "msg-123"
       (setProcessedDb {[ "msg-123" := 1 ]} testWorld) = (Normal false, w')) /\
  (let w := setProcessedDb {[ "msg-123" := 1 ]} testWorld in
   let w1 := emit (EvCall ProcessedCreate "msg-123") w in
   markProcessed (noFaults 5) "msg-123" w = (Normal tt, w1) /\
   processedDb w1 = processedDb w /\
   trace w1 = trace w ++ [EvCall ProcessedCreate "msg-123"]).
Proof.
  split.
  - apply (proj1 (idempotency_fail_open_and_conflict
                    (setFault ProcessedFindOne (Some storageError) (noFaults 5)) "msg-123"
                    (setProcessedDb {[ "msg-123" := 1 ]} testWorld)) storageError).
    reflexivity.
  - apply (proj2 (idempotency_fail_open_and_conflict (noFaults 5) "msg-123"
                    (setProcessedDb {[ "msg-123" := 1 ]} testWorld)) duplicateKeyError).
    + vm_compute. reflexivity.
    + reflexivity.
Defined.

(** ** The keyword registry *)

Lemma cacheValid_spec env force w :
  cacheValid env force w = true <->
  force = false /\ cache w <> [] /\
  exists t, lastCacheUpdate w = Some t /\ now env - t < cacheTTL.
Proof.
  unfold cacheValid. rewrite !andb_true_iff, negb_true_iff, Nat.ltb_lt.
  split.
  - intros [[Hf Hlen] Ht]. split; [done|]. split.
    + intros Hnil. rewrite Hnil in Hlen. cbn in Hlen. lia.
    + destruct (lastCacheUpdate w) as [t|]; [|done]. exists t. split; [done|].
      by apply Z.ltb_lt.
  - intros (Hf & Hne & t & Ht & Hlt). repeat split; [done| |].
    + destruct (cache w); [done|cbn; lia].
    + rewrite Ht. by apply Z.ltb_lt.
Qed.

Lemma loadKeywords_eq env force w :
  loadKeywords env force w =
  if cacheValid env force w then (Normal (cache w), w)
  else
    let w1 := emit (EvCall KeywordFind "enabled") w in
    match fault env KeywordFind with
    | Some _ =>
        (Normal (cache w), emit (EvLog LError "Error loading moderation keywords:") w1)
    | None =>
        let fresh := List.filter enabled (keywordsDb w) in
        (Normal fresh,
         emit (EvLog LInfo ("Loaded " +:+ pretty (length fresh) +:+
                            " moderation keywords into cache"))
           (setCache fresh (Some (now env)) w1))
    end.
Proof.
  unfold loadKeywords. run.
  destruct (cacheValid env force w); [done|].
  cbn. by destruct (fault env KeywordFind).
Qed.

(** C8, as the code has it.  The cache is served, without a read of
    storage, when no reload is forced, the cache is not empty and it is
    younger than five minutes.  In every other case storage is read: the
    enabled rules replace the cache in one step and are returned; and if
    the read fails the cached set is returned, stale or not, and the
    failure stays inside. *)
Theorem loadKeywords_cache_policy (env : Env) (force : bool) (w : World) :
  (force = false -> cache w <> [] ->
   (exists t, lastCacheUpdate w = Some t /\ now env - t < 5 * 60 * 1000) ->
   loadKeywords env force w = (Normal (cache w), w)) /\
  (cacheValid env force w = false -> fault env KeywordFind = None ->
   exists w', loadKeywords env force w =
                (Normal (List.filter enabled (keywordsDb w)), w') /\
              cache w' = List.filter enabled (keywordsDb w) /\
              lastCacheUpdate w' = Some (now env) /\
              EvCall KeywordFind "enabled" ∈ trace w') /\
  (forall e, cacheValid env force w = false -> fault env KeywordFind = Some e ->
   exists w', loadKeywords env force w = (Normal (cache w), w') /\
              cache w' = cache w /\ lastCacheUpdate w' = lastCacheUpdate w).
Proof.
  rewrite loadKeywords_eq. repeat split.
  - intros Hf Hne Ht.
    assert (cacheValid env force w = true) as -> by (by apply cacheValid_spec).
    done.
  - intros -> ->. eexists. split; [done|]. cbn. repeat split.
    set_solver.
  - intros e -> ->. eexists. by split.
Qed.

(** C8, as stated, fails: with an empty cache filled a second ago and no
    forced reload, storage is read all the same (and here the answer is
    not the cached set). *)
Lemma loadKeywords_rereads_when_cache_empty :
  ~ (forall (env : Env) (w : World) (t : Z),
       lastCacheUpdate w = Some t -> now env - t < 5 * 60 * 1000 ->
       loadKeywords env false w = (Normal (cache w), w)).
Proof.
  intros H.
  specialize (H (noFaults 1000) (setCache [] (Some 0) testWorld) 0 eq_refl eq_refl).
  rewrite loadKeywords_eq in H. cbn in H. discriminate H.
Qed.

Example loadKeywords_rereads_trace :
  let r := loadKeywords (noFaults 1000) false (setCache [] (Some 0) testWorld) in
  fst r = Normal testKeywords /\
  trace (snd r) = [EvCall KeywordFind "enabled";
                   EvLog LInfo "Loaded 4 moderation keywords into cache"].
Proof. split; vm_compute; reflexivity. Qed.

(** The three cases of the cache policy: a filled, fresh cache is
    served; a stale one is replaced from storage; and when storage fails
    the stale one is served. *)
Lemma loadKeywords_cache_policy_witness :
  loadKeywords (noFaults 1000) false (setCache testKeywords (Some 0) testWorld) =
    (Normal testKeywords, setCache testKeywords (Some 0) testWorld) /\
  (exists w', loadKeywords (noFaults 400000) false (setCache [] (Some 0) testWorld) =
                (Normal (List.filter enabled (keywordsDb (setCache [] (Some 0) testWorld))), w') /\
              cache w' = testKeywords) /\
  (exists w', loadKeywords (setFault KeywordFind (Some storageError) (noFaults 400000)) false
                (setCache testKeywords (Some 0) emptyWorld) =
                (Normal testKeywords, w') /\
              cache w' = testKeywords).
Proof.
  split; [|split].
  - apply (loadKeywords_cache_policy (noFaults 1000) false
             (setCache testKeywords (Some 0) testWorld)).
    + reflexivity.
    + discriminate.
    + exists 0. split; [reflexivity|]. cbn. lia.
  - destruct (loadKeywords_cache_policy (noFaults 400000) false
                (setCache [] (Some 0) testWorld)) as (_ & H & _).
    destruct H as (w' & Hl & Hc & _); [reflexivity|reflexivity|].
    exists w'. by split.
  - destruct (loadKeywords_cache_policy (setFault KeywordFind (Some storageError) (noFaults 400000))
                false (setCache testKeywords (Some 0) emptyWorld)) as (_ & _ & H).
    destruct (H storageError) as (w' & Hl & Hc & _); [reflexivity|reflexivity|].
    exists w'. by split.
Defined.


(** ** What the handlers do to the collections *)

Ltac unfold_handlers :=
  cbv beta iota delta
    [mbind M_bind mret M_ret bind ret throw tryCatch get modify logger call
     handleHighSeverity handleMediumSeverity handleLowSeverity
     createQueueItem createReport createAuditLog
     deleteMessage flagMessage banUser notifyModerators sendCrisisResources
     incFlaggedCount updateMetricsAndChatRoom verifyWebhookSignature].

(** Follow every path through the faults of the environment. *)
Ltac explore :=
  repeat (cbn -[String.append pretty];
          match goal with
          | |- context [@decide (?a = ?b) _] =>
              destruct (@decide (a = b) _); [try discriminate|try congruence]
          | |- context [match fault ?e ?s with _ => _ end] => destruct (fault e s) eqn:?
          | |- context [if negb (pushConfigured ?e) then _ else _] => destruct (pushConfigured e)
          end);
  cbn -[String.append pretty].

Lemma auditGrowsBy_refl w : auditGrowsBy [] w w.
Proof. split; [done|by rewrite app_nil_r]. Qed.

Lemma auditGrowsBy_trans e1 e2 w w1 w2 :
  auditGrowsBy e1 w w1 -> auditGrowsBy e2 w1 w2 -> auditGrowsBy (e1 ++ e2) w w2.
Proof.
  intros [Hp1 Ha1] [Hp2 Ha2]. split; [by auto|].
  by rewrite Ha2, Ha1, app_assoc.
Qed.

Lemma auditGrowsBy_stores w w' : stores w' = stores w -> auditGrowsBy [] w w'.
Proof.
  unfold stores. intros H. injection H as _ Hp _ _ _ _ _ Ha.
  split; [by rewrite Hp|by rewrite Ha, app_nil_r].
Qed.

Lemma atMostOneAbout_nil messageId : atMostOneAbout messageId [].
Proof. split; [cbn; lia|constructor]. Qed.

Lemma atMostOneAbout_one messageId a : target a = messageId -> atMostOneAbout messageId [a].
Proof. intros H. split; [cbn; lia|by repeat constructor]. Qed.

Create HintDb effects.
#[local] Hint Resolve auditGrowsBy_refl atMostOneAbout_nil atMostOneAbout_one : effects.

Lemma stores_emits evs w : stores (foldl (fun w ev => emit ev w) w evs) = stores w.
Proof. revert w. induction evs as [|ev evs IH]; intros w; cbn; [done|]. by rewrite IH. Qed.

Lemma cache_emits evs w :
  cache (foldl (fun w ev => emit ev w) w evs) = cache w /\
  lastCacheUpdate (foldl (fun w ev => emit ev w) w evs) = lastCacheUpdate w.
Proof. revert w. induction evs as [|ev evs IH]; intros w; cbn; [done|]. by rewrite !(proj1 (IH _)), !(proj2 (IH _)). Qed.

Lemma trace_emits evs w : trace (foldl (fun w ev => emit ev w) w evs) = trace w ++ evs.
Proof.
  revert w. induction evs as [|ev evs IH]; intros w; cbn; [by rewrite app_nil_r|].
  rewrite IH. cbn. by rewrite <- app_assoc.
Qed.

Lemma loadKeywords_stores env force w :
  stores (snd (loadKeywords env force w)) = stores w.
Proof.
  rewrite loadKeywords_eq. destruct (cacheValid env force w); [done|].
  cbn. by destruct (fault env KeywordFind).
Qed.

(** [scanText] always answers, and leaves the collections as they are. *)
Lemma scanText_effect `{engine : RegExpEngine} env text w :
  exists r w', scanText env text w = (Normal r, w') /\ stores w' = stores w.
Proof.
  unfold scanText. run. destruct (isBlank text); [by eauto|].
  pose proof (loadKeywords_stores env false (emit (EvScan text) w)) as Hs.
  destruct (loadKeywords_total env false (emit (EvScan text) w)) as (ks & w1 & Hl).
  rewrite Hl in *. eexists _, _. split; [done|].
  change (stores w1 = stores w) in Hs. rewrite <- Hs.
  cbn [snd]. change (stores (emit ?e ?x)) with (stores x).
  apply stores_emits.
Qed.

Ltac grows :=
  unfold auditGrowsBy; cbn -[String.append pretty]; rewrite ?app_nil_r;
  split; [intros; assumption|reflexivity].

Ltac grows_by_at_most_one :=
  first [ exists []; split; [grows|apply atMostOneAbout_nil]
        | eexists [_]; split; [grows|by apply atMostOneAbout_one] ].

Lemma handleHighSeverity_audit env messageId userId channelId scanResult text w :
  exists extra,
    auditGrowsBy extra w (snd (handleHighSeverity env messageId userId channelId scanResult text w)) /\
    atMostOneAbout messageId extra.
Proof. unfold_handlers. explore; grows_by_at_most_one. Qed.

Lemma handleMediumSeverity_audit env messageId userId channelId scanResult text w :
  exists extra,
    auditGrowsBy extra w (snd (handleMediumSeverity env messageId userId channelId scanResult text w)) /\
    atMostOneAbout messageId extra.
Proof. unfold_handlers. explore; grows_by_at_most_one. Qed.

Lemma handleLowSeverity_audit env messageId userId channelId scanResult text w :
  auditGrowsBy [] w (snd (handleLowSeverity env messageId userId channelId scanResult text w)).
Proof. unfold_handlers. explore; grows. Qed.

Lemma updateMetricsAndChatRoom_audit env channelId w :
  auditGrowsBy [] w (snd (updateMetricsAndChatRoom env channelId w)).
Proof. unfold_handlers. explore; grows. Qed.

Lemma emit_audit ev w : auditGrowsBy [] w (emit ev w).
Proof. by apply auditGrowsBy_stores. Qed.

Section PipelineEffects.
Context {engine : RegExpEngine}.

Lemma afterDispatch_audit env message extra w w3 (c : Completion unit) :
  auditGrowsBy extra w w3 ->
  auditGrowsBy extra w
    (snd (match c with
          | Normal _ =>
              match updateMetricsAndChatRoom env (msg_cid message) w3 with
              | (Normal _, w4) =>
                  (Normal tt,
                   emit (EvLog LInfo ("Message processing completed: " +:+ msg_id message)) w4)
              | (Abrupt e, w4) => (Abrupt e, w4)
              end
          | Abrupt e => (Abrupt e, w3)
          end)).
Proof.
  intros H3. destruct c as [[]|e]; [|done].
  pose proof (updateMetricsAndChatRoom_audit env (msg_cid message) w3) as H4.
  destruct (updateMetricsAndChatRoom env (msg_cid message) w3) as [[[]|e] w4]; cbn [snd] in *.
  - pose proof (auditGrowsBy_trans _ _ _ _ _ H3 H4) as H. rewrite app_nil_r in H.
    match goal with
    | |- auditGrowsBy _ _ (emit ?ev _) =>
        pose proof (auditGrowsBy_trans _ _ _ _ _ H (emit_audit ev w4)) as H'
    end.
    by rewrite app_nil_r in H'.
  - pose proof (auditGrowsBy_trans _ _ _ _ _ H3 H4) as H. by rewrite app_nil_r in H.
Qed.

Lemma classifyAndDispatch_audit env message w :
  exists extra,
    auditGrowsBy extra w (snd (classifyAndDispatch env message w)) /\
    atMostOneAbout (msg_id message) extra.
Proof.
  unfold classifyAndDispatch. run.
  destruct (scanText_effect env (msg_text message) w) as (r & w1 & -> & Hs).
  apply auditGrowsBy_stores in Hs.
  set (w2 := emit _ w1).
  assert (auditGrowsBy [] w w2) as H2.
  { change [] with (@nil IAuditLog ++ []).
    eapply auditGrowsBy_trans; [exact Hs|apply emit_audit]. }
  clearbody w2. clear Hs w1.
  destruct (r_severity r).
  - exists []. split; [|auto with effects].
    by apply (afterDispatch_audit env message [] w w2 (Normal tt)).
  - pose proof (handleLowSeverity_audit env (msg_id message) (msg_user_id message)
                  (msg_cid message) r (msg_text message) w2) as H.
    destruct (handleLowSeverity _ _ _ _ _ _ _) as [c w3].
    exists []. split; [|auto with effects].
    apply (afterDispatch_audit env message [] w w3 c).
    apply (auditGrowsBy_trans [] [] _ _ _ H2 H).
  - destruct (handleMediumSeverity_audit env (msg_id message) (msg_user_id message)
                (msg_cid message) r (msg_text message) w2) as (extra & H & Hone).
    destruct (handleMediumSeverity _ _ _ _ _ _ _) as [c w3].
    exists extra. split; [|done].
    apply (afterDispatch_audit env message extra w w3 c).
    apply (auditGrowsBy_trans [] extra _ _ _ H2 H).
  - destruct (handleHighSeverity_audit env (msg_id message) (msg_user_id message)
                (msg_cid message) r (msg_text message) w2) as (extra & H & Hone).
    destruct (handleHighSeverity _ _ _ _ _ _ _) as [c w3].
    exists extra. split; [|done].
    apply (afterDispatch_audit env message extra w w3 c).
    apply (auditGrowsBy_trans [] extra _ _ _ H2 H).
Qed.

Lemma processMessageCreated_eq env message w :
  processMessageCreated env message w =
  let w0 := emit (EvLog LInfo ("Processing message: " +:+ msg_id message +:+
                               " in channel " +:+ msg_cid message)) w in
  match isProcessed env (msg_id message) w0 with
  | (Normal true, w1) =>
      (Normal tt, emit (EvLog LInfo ("Message already processed: " +:+ msg_id message)) w1)
  | (Normal false, w1) =>
      classifyAndDispatch env message (snd (markProcessed env (msg_id message) w1))
  | (Abrupt e, w1) => (Abrupt e, w1)
  end.
Proof.
  unfold processMessageCreated. run. cbn.
  destruct (isProcessed env (msg_id message) _) as [[[]|e] w1]; try done.
  by destruct (markProcessed_total env (msg_id message) w1) as [w2 ->].
Qed.

End PipelineEffects.

Ltac unfold_moderation :=
  cbv beta iota delta
    [mbind M_bind mret M_ret bind ret throw tryCatch get modify logger call
     resolveModerationAction processQueueItem executeAction findUserById
     createAuditLog deleteMessage banUser].

(** Follow every path through a handler of the moderation controller. *)
Ltac explore_all :=
  repeat (cbn -[String.append pretty]; case_match; simplify_eq);
  cbn -[String.append pretty].

Ltac grows_by_manual :=
  unfold manualRecords;
  first [ exists []; split; [grows|constructor]
        | eexists [_]; split;
          [grows|constructor; [cbn; auto|constructor]] ].

Lemma resolveModerationAction_audit env req w :
  exists extra,
    auditGrowsBy extra w (snd (resolveModerationAction env req w)) /\ manualRecords extra.
Proof. unfold_moderation. explore_all; grows_by_manual. Qed.

Lemma processQueueItem_audit env id moderator w :
  exists extra,
    auditGrowsBy extra w (snd (processQueueItem env id moderator w)) /\ manualRecords extra.
Proof. unfold_moderation. explore_all; grows_by_manual. Qed.

(** ** Replays *)

Lemma decisionRecords_grows messageId extra w w' :
  auditGrowsBy extra w w' ->
  decisionRecords messageId w' =
  decisionRecords messageId w ++ List.filter (isDecisionRecord messageId) extra.
Proof. intros [_ Ha]. unfold decisionRecords. by rewrite Ha, List.filter_app. Qed.

Lemma manualRecords_no_decision messageId extra :
  manualRecords extra -> List.filter (isDecisionRecord messageId) extra = [].
Proof.
  induction 1 as [|a extra Ha _ IH]; [done|]. cbn. rewrite IH.
  unfold isDecisionRecord. destruct Ha as [-> | ->]; cbn; by rewrite andb_false_r.
Qed.

Lemma other_message_no_decision messageId other extra :
  other <> messageId -> Forall (fun a => target a = other) extra ->
  List.filter (isDecisionRecord messageId) extra = [].
Proof.
  intros Hne. induction 1 as [|a extra Ha _ IH]; [done|]. cbn. rewrite IH.
  unfold isDecisionRecord. rewrite Ha.
  by rewrite (proj2 (String.eqb_neq other messageId) Hne).
Qed.

Lemma filter_length_le {A} (f : A -> bool) l : (length (List.filter f l) <= length l)%nat.
Proof. induction l as [|x l IH]; cbn; [lia|]. destruct (f x); cbn; lia. Qed.

(** The step of the invariant: either no decision on [messageId] is
    added, or there was none, at most one is added and the id is
    recorded afterwards. *)
Lemma decidedOnce_step messageId extra w w' :
  decidedOnce messageId w ->
  auditGrowsBy extra w w' ->
  List.filter (isDecisionRecord messageId) extra = [] \/
  (decisionRecords messageId w = [] /\ (length extra <= 1)%nat /\
   is_Some (processedDb w' !! messageId)) ->
  decidedOnce messageId w'.
Proof.
  intros [Hlen Hrec] Hg Hcase.
  unfold decidedOnce. rewrite (decisionRecords_grows _ _ _ _ Hg).
  destruct Hcase as [-> | (Hnil & Hone & Hp)].
  - rewrite app_nil_r. split; [done|]. intros Hne. apply Hg. auto.
  - rewrite Hnil. cbn. split; [|done].
    pose proof (filter_length_le (isDecisionRecord messageId) extra). lia.
Qed.

Section Replays.
Context {engine : RegExpEngine}.

Lemma processMessageCreated_audit env message w :
  exists extra,
    auditGrowsBy extra w (snd (processMessageCreated env message w)) /\
    atMostOneAbout (msg_id message) extra /\
    (idempotencyStoreAnswers env ->
     is_Some (processedDb (snd (processMessageCreated env message w)) !! msg_id message) /\
     (is_Some (processedDb w !! msg_id message) -> extra = [])).
Proof.
  rewrite processMessageCreated_eq. cbn zeta.
  set (w0 := emit _ w).
  rewrite isProcessed_eq.
  destruct (fault env ProcessedFindOne) as [e|] eqn:Hfind.
  - (* the lookup failed: the message is let in *)
    set (w1 := emit _ (emit _ w0)).
    assert (auditGrowsBy [] w w1) as H1 by grows.
    clearbody w1.
    destruct (markProcessed_total env (msg_id message) w1) as [w2 Hm].
    pose proof Hm as Hm'. rewrite markProcessed_eq, createProcessedMessage_eq in Hm'.
    assert (auditGrowsBy [] w1 w2) as H2.
    { cbn zeta in Hm'. destruct (fault env ProcessedCreate).
      - injection Hm' as <-. destruct (decide _); grows.
      - destruct (processedDb w1 !! msg_id message) eqn:Hl.
        + injection Hm' as <-. grows.
        + injection Hm' as <-. split; [|by rewrite app_nil_r].
          intros k Hk. cbn. destruct (decide (k = msg_id message)) as [->|Hne].
          * by rewrite lookup_insert_eq.
          * by rewrite lookup_insert_ne. }
    rewrite Hm. cbn [snd].
    destruct (classifyAndDispatch_audit env message w2) as (extra & H3 & Hone).
    exists extra. split; [|split; [done|]].
    + apply (auditGrowsBy_trans [] extra w w2 _); [|done].
      apply (auditGrowsBy_trans [] [] w w1 _ H1 H2).
    + intros [Hf _]. congruence.
  - destruct (bool_decide (is_Some (processedDb w0 !! msg_id message))) eqn:Hp.
    + (* already processed *)
      exists []. split; [grows|]. split; [auto with effects|].
      intros _. apply bool_decide_eq_true in Hp. by split.
    + set (w1 := emit _ w0).
      assert (auditGrowsBy [] w w1) as H1 by grows.
      assert (processedDb w1 = processedDb w) as Hpw by done.
      clearbody w1.
      destruct (markProcessed_total env (msg_id message) w1) as [w2 Hm].
      pose proof Hm as Hm'. rewrite markProcessed_eq, createProcessedMessage_eq in Hm'.
      apply bool_decide_eq_false in Hp. change (processedDb w0) with (processedDb w) in Hp.
      assert (processedDb w1 !! msg_id message = None) as Hnone.
      { rewrite Hpw. by apply eq_None_not_Some. }
      assert (auditGrowsBy [] w1 w2 /\
              (fault env ProcessedCreate = None -> is_Some (processedDb w2 !! msg_id message)))
        as [H2 Hin].
      { cbn zeta in Hm'. destruct (fault env ProcessedCreate).
        - injection Hm' as <-. split; [destruct (decide _); grows|done].
        - rewrite Hnone in Hm'. injection Hm' as <-. split.
          + split; [|by rewrite app_nil_r].
            intros k Hk. cbn. destruct (decide (k = msg_id message)) as [->|Hne].
            * by rewrite lookup_insert_eq.
            * by rewrite lookup_insert_ne.
          + intros _. cbn. by rewrite lookup_insert_eq. }
      rewrite Hm. cbn [snd].
      destruct (classifyAndDispatch_audit env message w2) as (extra & H3 & Hone).
      exists extra. split; [|split; [done|]].
      * apply (auditGrowsBy_trans [] extra w w2 _); [|done].
        apply (auditGrowsBy_trans [] [] w w1 _ H1 H2).
      * intros [_ Hc]. split; [|done]. apply H3. auto.
Qed.

(** The world after a webhook request is, up to the trace, the world
    before it or the world after the pipeline ran on its message. *)
Lemma handleStreamWebhook_world env req w :
  auditGrowsBy [] w (snd (handleStreamWebhook env req w)) \/
  exists message w',
    ev_message (body req) = Some message /\
    w' = snd (processMessageCreated env message w) /\
    auditGrowsBy [] w' (snd (handleStreamWebhook env req w)).
Proof.
  unfold handleStreamWebhook. unfold_handlers.
  destruct (x_signature req) as [s|]; [|left; explore_all; grows].
  destruct (String.eqb s ""); [left; explore_all; grows|].
  cbn. destruct (verifyWebhook env (body req) s) as [[]|]; cbn;
    [|left; case_match; grows|left; case_match; grows].
  destruct (ev_message (body req)) as [message|]; [|left; grows].
  destruct (String.eqb (ev_type (body req)) "message.new"); [|left; grows].
  right. exists message, (snd (processMessageCreated env message w)).
  split; [done|]. split; [done|].
  destruct (processMessageCreated env message w) as [[[]|e] w']; cbn; [grows|].
  case_match; grows.
Qed.

Lemma handle_decidedOnce messageId env r w :
  idempotencyStoreAnswers env ->
  decidedOnce messageId w -> decidedOnce messageId (handle env r w).
Proof.
  intros Hrel Hinv. destruct r as [req|req|id moderator]; cbn [handle].
  - destruct (handleStreamWebhook_world env req w) as [Hg|(message & w' & _ & -> & Hg)].
    + eapply decidedOnce_step; [done|exact Hg|by left].
    + eapply (decidedOnce_step _ []); [|exact Hg|by left].
      destruct (processMessageCreated_audit env message w) as (extra & Hgp & [Hlen Hall] & Hr).
      destruct (Hr Hrel) as [Hafter Hnone].
      eapply decidedOnce_step; [done|exact Hgp|].
      destruct (decide (msg_id message = messageId)) as [<-|Hne].
      * destruct (decide (is_Some (processedDb w !! msg_id message))) as [Hs|Hn].
        -- left. by rewrite Hnone.
        -- right. repeat split; [|done|done].
           destruct (decisionRecords (msg_id message) w) eqn:Hd; [done|].
           destruct Hn. apply Hinv. by rewrite Hd.
      * left. by eapply other_message_no_decision.
  - destruct (resolveModerationAction_audit env req w) as (extra & Hg & Hm).
    eapply decidedOnce_step; [done|exact Hg|left]. by apply manualRecords_no_decision.
  - destruct (processQueueItem_audit env id moderator w) as (extra & Hg & Hm).
    eapply decidedOnce_step; [done|exact Hg|left]. by apply manualRecords_no_decision.
Qed.

Lemma serve_decidedOnce messageId rs w :
  Forall (fun er => idempotencyStoreAnswers (fst er)) rs ->
  decidedOnce messageId w -> decidedOnce messageId (serve rs w).
Proof.
  intros Hrel. revert w. induction Hrel as [|[env r] rs Hr _ IH]; intros w Hinv; [done|].
  cbn. apply IH. by apply handle_decidedOnce.
Qed.

End Replays.


(** [processMessageCreated] is its lookup followed by the rest. *)
Lemma processMessageCreated_steps `{engine : RegExpEngine} env message w :
  processMessageCreated env message w =
  (lookupDelivery env message ≫= completeDelivery env message) w.
Proof.
  unfold processMessageCreated, lookupDelivery, completeDelivery. run.
  cbn -[String.append pretty isProcessed markProcessed classifyAndDispatch].
  by destruct (isProcessed env (msg_id message) _) as [[[]|e] w1].
Qed.

(** Nor does it hold of two deliveries that overlap, even when nothing
    fails: both lookups are answered before either delivery has recorded
    the id, the second insert is refused as a duplicate and ignored, and
    the message is decided twice. *)
Example overlapping_deliveries_are_decided_twice :
  let run := overlappingDeliveries (engine := Regex.modelEngine) (noFaults 5) highMessage
               testWorld in
  fst run = Normal tt /\
  map a_action (decisionRecords "msg-123" (snd run)) =
    ["message_moderated_high"; "message_moderated_high"].
Proof. vm_compute. repeat split. Qed.



Example two_deliveries_one_record :
  map a_action
    (auditDb (serve (engine := Regex.modelEngine)
                [(noFaults 5, RWebhook (webhookOf highMessage));
                 (noFaults 6, RWebhook (webhookOf highMessage))] testWorld)) =
  ["message_moderated_high"].
Proof. vm_compute. reflexivity. Qed.

(** ** A failing insert of the idempotency record *)

(** C2, as stated, fails.  The first message of the tests arrives, the
    insert of its idempotency record fails with an error that is not a
    duplicate-key conflict, and yet the pipeline completes normally and
    the webhook is answered 200 with success. *)
Lemma failed_insert_is_acknowledged :
  let env := setFault ProcessedCreate (Some storageError) (noFaults 5) in
  fst (isProcessed env (msg_id highMessage) testWorld) = Normal false /\
  e_code storageError <> CodeNum 11000 /\
  fst (createProcessedMessage env (msg_id highMessage) testWorld) = Abrupt storageError /\
  fst (processMessageCreated (engine := Regex.modelEngine) env highMessage testWorld) = Normal tt /\
  fst (handleStreamWebhook (engine := Regex.modelEngine) env (webhookOf highMessage) testWorld) =
    Normal {| res_status := 200; res_success := true; res_error := None |}.
Proof. repeat split; try (vm_compute; reflexivity). discriminate. Qed.

(** C2, as the code has it.  When the insert of the idempotency record
    of an event that was let in fails with an error that is not a
    duplicate-key conflict, [markProcessed] logs the error and completes
    normally: nothing is recorded for the id, nothing is raised, and the
    pipeline goes on with classification and dispatch, whose outcome is
    the outcome of the event. *)
Theorem failed_insert_is_logged_not_raised `{engine : RegExpEngine}
    (env : Env) (message : StreamMessage) (w : World) (e : JsError) :
  fst (isProcessed env (msg_id message) w) = Normal false ->
  fault env ProcessedCreate = Some e ->
  e_code e <> CodeNum 11000 ->
  exists w1 w2,
    markProcessed env (msg_id message) w1 = (Normal tt, w2) /\
    processMessageCreated env message w = classifyAndDispatch env message w2 /\
    stores w2 = stores w /\
    trace w2 = trace w1 ++ [EvCall ProcessedCreate (msg_id message);
                            EvLog LError "Error marking message as processed:"].
Proof.
  intros Hp He Hcode.
  rewrite processMessageCreated_eq. cbn zeta.
  set (w0 := emit _ w).
  assert (fst (isProcessed env (msg_id message) w0) = Normal false) as Hp0.
  { rewrite isProcessed_eq in *. by destruct (fault env ProcessedFindOne). }
  destruct (isProcessed env (msg_id message) w0) as [c w1] eqn:Hi.
  cbn [fst] in Hp0. subst c.
  assert (stores w1 = stores w) as Hs1.
  { rewrite isProcessed_eq in Hi. destruct (fault env ProcessedFindOne); by inversion Hi. }
  assert (markProcessed env (msg_id message) w1 =
          (Normal tt, emit (EvLog LError "Error marking message as processed:")
                        (emit (EvCall ProcessedCreate (msg_id message)) w1))) as Hm.
  { rewrite markProcessed_eq, createProcessedMessage_eq, He. cbn.
    destruct (decide _) as [_|Hn]; [reflexivity|by destruct Hn]. }
  exists w1. eexists. split; [exact Hm|]. rewrite Hm. cbn [snd].
  split; [reflexivity|]. split; [exact Hs1|].
  cbn. by rewrite <- app_assoc.
Qed.

Lemma failed_insert_is_logged_not_raised_witness :
  exists w1 w2,
    markProcessed (setFault ProcessedCreate (Some storageError) (noFaults 5))
      (msg_id highMessage) w1 = (Normal tt, w2) /\
    processMessageCreated (engine := Regex.modelEngine)
      (setFault ProcessedCreate (Some storageError) (noFaults 5)) highMessage testWorld =
    classifyAndDispatch (engine := Regex.modelEngine)
      (setFault ProcessedCreate (Some storageError) (noFaults 5)) highMessage w2 /\
    stores w2 = stores testWorld /\
    trace w2 = trace w1 ++ [EvCall ProcessedCreate (msg_id highMessage);
                            EvLog LError "Error marking message as processed:"].
Proof.
  apply (failed_insert_is_logged_not_raised
           (setFault ProcessedCreate (Some storageError) (noFaults 5))
           highMessage testWorld storageError).
  - vm_compute. reflexivity.
  - reflexivity.
  - discriminate.
Defined.

(** What the swallowed failure leads to: the message is delivered again
    and is moderated a second time. *)
Example swallowed_failure_then_redelivery :
  map a_action
    (auditDb (serve (engine := Regex.modelEngine)
                [(setFault ProcessedCreate (Some storageError) (noFaults 5),
                  RWebhook (webhookOf highMessage));
                 (noFaults 6, RWebhook (webhookOf highMessage))] testWorld)) =
  ["message_moderated_high"; "message_moderated_high"].
Proof. vm_compute. reflexivity. Qed.

(** ** The high-severity branch *)



(** The increment of the flagged counter, spelled out: the room of the
    channel has its counter raised by one and keeps the time of its last
    message; the other rooms are as they were, and no room is created
    for a channel that has none. *)
Lemma flagged_counter_is_raised_by_one (channelId : string) (rooms : gmap string IChatRoom) :
  (forall room, rooms !! channelId = Some room ->
     alter (incFlagged 1) channelId rooms !! channelId =
       Some {| lastMessageAt := lastMessageAt room;
               flaggedCount := flaggedCount room + 1 |}) /\
  (rooms !! channelId = None -> alter (incFlagged 1) channelId rooms = rooms) /\
  (forall other, other <> channelId ->
     alter (incFlagged 1) channelId rooms !! other = rooms !! other).
Proof.
  split; [|split].
  - intros room Hr. by rewrite lookup_alter_eq, Hr.
  - intros Hn. apply map_eq. intros k. destruct (decide (k = channelId)) as [->|Hne].
    + by rewrite lookup_alter_eq, Hn.
    + by rewrite lookup_alter_ne.
  - intros other Hne. by rewrite lookup_alter_ne.
Qed.

(** ** Resolution and the processing of queue items *)

Lemma resolve_already_resolved env req report w :
  fault env ReportFindById = None ->
  reportsDb w !! reportId req = Some report ->
  status report = RESOLVED ->
  resolveModerationAction env req w =
  (Abrupt (AppError "Report already resolved" 400 "ALREADY_RESOLVED"),
   emit (EvCall ReportFindById (pretty (reportId req))) w).
Proof.
  intros Hf Hl Hs. unfold resolveModerationAction. run. cbn -[String.append pretty].
  rewrite Hf. cbn -[String.append pretty]. rewrite Hl.
  by destruct (decide (status report = RESOLVED)).
Qed.

Lemma process_already_processed env id moderator item w :
  fault env QueueFindById = None ->
  queueDb w !! id = Some item ->
  processed item = true ->
  processQueueItem env id moderator w =
  (Abrupt (AppError "Queue item already processed" 400 "ALREADY_PROCESSED"),
   emit (EvCall QueueFindById (pretty id)) w).
Proof.
  intros Hf Hl Hp. unfold processQueueItem. run. cbn -[String.append pretty].
  rewrite Hf. cbn -[String.append pretty]. by rewrite Hl, Hp.
Qed.

(** A resolution that completes has found an unresolved report, has
    replaced it by its resolved version and has added one audit record;
    the queue and the processed ids are as before. *)
Lemma resolve_first_call env req w resp w' :
  resolveModerationAction env req w = (Normal resp, w') ->
  exists report a,
    reportsDb w !! reportId req = Some report /\
    status report <> RESOLVED /\
    reportsDb w' =
      <[reportId req := resolved (req_moderatorId req) (comment req) (now env) report]>
        (reportsDb w) /\
    auditDb w' = auditDb w ++ [a] /\ a_action a = "moderation_resolved" /\
    rr_status resp = RESOLVED.
Proof.
  revert resp w'. unfold_moderation. explore_all; intros resp w' [= <- <-];
    eexists _, _; cbn -[String.append pretty]; by repeat split.
Qed.

Lemma process_first_call env id moderator w resp w' :
  processQueueItem env id moderator w = (Normal resp, w') ->
  exists item a,
    queueDb w !! id = Some item /\
    processed item = false /\
    queueDb w' = <[id := markItemProcessed (now env) item]> (queueDb w) /\
    auditDb w' = auditDb w ++ [a] /\ a_action a = "queue_item_processed" /\
    pr_processed resp = true.
Proof.
  revert resp w'. unfold_moderation. explore_all; intros resp w' [= <- <-];
    eexists _, _; cbn -[String.append pretty]; by repeat split.
Qed.

(** C3. Resolving a report that is already RESOLVED, and processing a
    queue item whose flag is already set, fail with the "already
    resolved" and "already processed" errors and change nothing (the
    lookup alone is added to the trace).  A first call that completes
    sets the flag, stamps the time of that call and writes one audit
    record; a call that follows fails and leaves the stamp and the audit
    log as the first call left them. *)
Theorem resolution_is_exactly_once (env env2 : Env) (w : World) :
  (forall req report,
     fault env ReportFindById = None ->
     reportsDb w !! reportId req = Some report -> status report = RESOLVED ->
     resolveModerationAction env req w =
     (Abrupt (AppError "Report already resolved" 400 "ALREADY_RESOLVED"),
      emit (EvCall ReportFindById (pretty (reportId req))) w)) /\
  (forall id moderator item,
     fault env QueueFindById = None ->
     queueDb w !! id = Some item -> processed item = true ->
     processQueueItem env id moderator w =
     (Abrupt (AppError "Queue item already processed" 400 "ALREADY_PROCESSED"),
      emit (EvCall QueueFindById (pretty id)) w)) /\
  (forall req req2 resp w1,
     resolveModerationAction env req w = (Normal resp, w1) ->
     reportId req2 = reportId req ->
     fault env2 ReportFindById = None ->
     exists report a,
       reportsDb w !! reportId req = Some report /\ status report <> RESOLVED /\
       reportsDb w1 !! reportId req =
         Some (resolved (req_moderatorId req) (comment req) (now env) report) /\
       auditDb w1 = auditDb w ++ [a] /\
       resolveModerationAction env2 req2 w1 =
       (Abrupt (AppError "Report already resolved" 400 "ALREADY_RESOLVED"),
        emit (EvCall ReportFindById (pretty (reportId req))) w1)) /\
  (forall id moderator moderator2 resp w1,
     processQueueItem env id moderator w = (Normal resp, w1) ->
     fault env2 QueueFindById = None ->
     exists item a,
       queueDb w !! id = Some item /\ processed item = false /\
       queueDb w1 !! id = Some (markItemProcessed (now env) item) /\
       auditDb w1 = auditDb w ++ [a] /\
       processQueueItem env2 id moderator2 w1 =
       (Abrupt (AppError "Queue item already processed" 400 "ALREADY_PROCESSED"),
        emit (EvCall QueueFindById (pretty id)) w1)).
Proof.
  split; [|split; [|split]].
  - intros. by apply resolve_already_resolved with report.
  - intros. by apply process_already_processed with item.
  - intros req req2 resp w1 H1 Hid Hf.
    destruct (resolve_first_call _ _ _ _ _ H1) as (report & a & Hl & Hs & Hr & Ha & _ & _).
    assert (reportsDb w1 !! reportId req =
            Some (resolved (req_moderatorId req) (comment req) (now env) report)) as Hl1.
    { rewrite Hr. apply list_lookup_insert_eq. by eapply lookup_lt_Some. }
    exists report, a. repeat split; try done.
    rewrite <- Hid.
    apply (resolve_already_resolved env2 req2
             (resolved (req_moderatorId req) (comment req) (now env) report) w1 Hf);
      [by rewrite Hid|done].
  - intros id moderator moderator2 resp w1 H1 Hf.
    destruct (process_first_call _ _ _ _ _ _ H1) as (item & a & Hl & Hp & Hq & Ha & _ & _).
    assert (queueDb w1 !! id = Some (markItemProcessed (now env) item)) as Hl1.
    { rewrite Hq. apply list_lookup_insert_eq. by eapply lookup_lt_Some. }
    exists item, a. repeat split; try done.
    by apply (process_already_processed env2 id moderator2
                (markItemProcessed (now env) item) w1 Hf).
Qed.

Lemma resolution_is_exactly_once_witness :
  let w1 := snd (resolveModerationAction (noFaults 100) dismissRequest moderationWorld) in
  let w2 := snd (processQueueItem (noFaults 100) 0 "mod-1" moderationWorld) in
  (exists report a,
     reportsDb moderationWorld !! 0%nat = Some report /\ status report <> RESOLVED /\
     reportsDb w1 !! 0%nat = Some (resolved "mod-1" (Some "seen") 100 report) /\
     auditDb w1 = auditDb moderationWorld ++ [a] /\
     resolveModerationAction (noFaults 200) banRequest w1 =
     (Abrupt (AppError "Report already resolved" 400 "ALREADY_RESOLVED"),
      emit (EvCall ReportFindById (pretty 0%nat)) w1)) /\
  (exists item a,
     queueDb moderationWorld !! 0%nat = Some item /\ processed item = false /\
     queueDb w2 !! 0%nat = Some (markItemProcessed 100 item) /\
     auditDb w2 = auditDb moderationWorld ++ [a] /\
     processQueueItem (noFaults 200) 0 "mod-2" w2 =
     (Abrupt (AppError "Queue item already processed" 400 "ALREADY_PROCESSED"),
      emit (EvCall QueueFindById (pretty 0%nat)) w2)) /\
  resolveModerationAction (noFaults 300) dismissRequest w1 =
    (Abrupt (AppError "Report already resolved" 400 "ALREADY_RESOLVED"),
     emit (EvCall ReportFindById (pretty 0%nat)) w1) /\
  processQueueItem (noFaults 300) 0 "mod-3" w2 =
    (Abrupt (AppError "Queue item already processed" 400 "ALREADY_PROCESSED"),
     emit (EvCall QueueFindById (pretty 0%nat)) w2).
Proof.
  cbn zeta.
  destruct (resolution_is_exactly_once (noFaults 100) (noFaults 200) moderationWorld)
    as (_ & _ & Hresolve & Hprocess).
  split; [|split; [|split]].
  - apply (Hresolve dismissRequest banRequest
             {| rr_reportId := 0; rr_action := Some DISMISS; rr_status := RESOLVED;
                rr_details := {| d_action := Some DISMISS; d_comment := Some "seen";
                                 messageDeleted := None; streamBanned := None;
                                 d_bannedUntil := None; channelSuspended := None |} |});
      reflexivity.
  - apply (Hprocess 0%nat "mod-1" "mod-2" {| pr_queueItemId := 0; pr_processed := true |});
      reflexivity.
  - apply (proj1 (resolution_is_exactly_once (noFaults 300) (noFaults 300)
                    (snd (resolveModerationAction (noFaults 100) dismissRequest moderationWorld)))
             dismissRequest (resolved "mod-1" (Some "seen") 100 sampleReport));
      reflexivity.
  - apply (proj1 (proj2 (resolution_is_exactly_once (noFaults 300) (noFaults 300)
                           (snd (processQueueItem (noFaults 100) 0 "mod-1" moderationWorld))))
             0%nat "mod-3" (markItemProcessed 100 sampleItem));
      reflexivity.
Defined.

(** ** Banning on a report about a message *)

(** C10, as stated, fails.  The report of the tests is about the message
    "msg-123", the moderator asks for BAN_USER and no user has that id.
    The id is not one the driver casts to an ObjectId, so
    [User.findById] throws a CastError: the resolution fails with it,
    the report stays under review and no audit record is written. *)
Lemma ban_on_message_report_raises_cast_error :
  let run := resolveModerationAction (noFaults 100) banRequest moderationWorld in
  reportsDb moderationWorld !! reportId banRequest = Some sampleReport /\
  targetType sampleReport = TMessage /\ req_action banRequest = Some BAN_USER /\
  usersDb moderationWorld !! targetId sampleReport = None /\
  fst run = Abrupt (castError "msg-123") /\
  status <$> reportsDb (snd run) !! reportId banRequest = Some UNDER_REVIEW /\
  auditDb (snd run) = [] /\
  usersDb (snd run) = usersDb moderationWorld.
Proof. vm_compute. repeat split. Qed.

(** C10, as the code has it.  A BAN_USER resolution of a report about a
    message looks the user up under the id of the message, the author
    not being resolved.  When no user has that id, the cast of the id to
    an ObjectId decides.  If the driver cannot cast it -- the case of the
    ids of the provider's messages -- the lookup throws a CastError: the
    resolution fails with that error right after the lookup, no
    collection changes, the report is not resolved and no audit record
    is written.  If the driver can cast it, no user is changed and the
    provider is not asked to ban anyone; the report is resolved all the
    same, with the time of the call, and the audit record of the
    resolution is written, its details carrying no trace of a ban. *)
Theorem ban_on_message_report_follows_the_cast
    (env : Env) (req : ResolveRequest) (w : World) (report : IReport) :
  reportsDb w !! reportId req = Some report ->
  status report <> RESOLVED ->
  targetType report = TMessage ->
  req_action req = Some BAN_USER ->
  usersDb w !! targetId report = None ->
  fault env ReportFindById = None -> fault env UserFindById = None ->
  let lookups :=
    [EvCall ReportFindById (pretty (reportId req));
     EvLog LWarn "Message author lookup needed for ban action";
     EvCall UserFindById (targetId report)] in
  (castsToObjectId env (targetId report) = false ->
   exists w',
     resolveModerationAction env req w = (Abrupt (castError (targetId report)), w') /\
     stores w' = stores w /\
     reportsDb w' !! reportId req = Some report /\
     trace w' = trace w ++ lookups) /\
  (castsToObjectId env (targetId report) = true ->
   fault env ReportSave = None -> fault env AuditCreate = None ->
   exists resp w' added,
     resolveModerationAction env req w = (Normal resp, w') /\
     usersDb w' = usersDb w /\
     trace w' = trace w ++ added /\
     added =
       lookups ++
       [EvCall ReportSave (pretty (reportId req));
        EvCall AuditCreate ("message:" +:+ targetId report);
        EvLog LInfo ("Moderation action resolved: " +:+ pretty (reportId req) +:+
                     " by moderator " +:+ req_moderatorId req)] /\
     existsb callsProvider added = false /\
     reportsDb w' !! reportId req =
       Some {| targetType := TMessage; targetId := targetId report; reason := reason report;
               status := RESOLVED;
               moderatorId := Some (req_moderatorId req);
               moderatorComment := comment req;
               resolvedAt := Some (now env) |} /\
     auditDb w' = auditDb w ++
       [{| a_action := "moderation_resolved";
           actorUserId := Some (req_moderatorId req);
           target := "message:" +:+ targetId report;
           timestamp := now env;
           meta := MetaResolved (reportId req) (Some BAN_USER)
                     {| d_action := Some BAN_USER; d_comment := comment req;
                        messageDeleted := None; streamBanned := None;
                        d_bannedUntil := None; channelSuspended := None |} |}] /\
     rr_status resp = RESOLVED /\
     streamBanned (rr_details resp) = None /\ d_bannedUntil (rr_details resp) = None).
Proof.
  intros Hl Hs Ht Ha Hu Hf1 Hf2. cbn zeta.
  unfold_moderation. cbn -[String.append pretty castError].
  rewrite Hf1. cbn -[String.append pretty castError]. rewrite Hl.
  destruct (decide (status report = RESOLVED)) as [|_]; [done|].
  rewrite Ha. cbn -[String.append pretty castError].
  destruct (decide (targetType report = TMessage \/ targetType report = TUser)) as [_|Hn];
    [|destruct Hn; by left].
  destruct (decide (targetType report = TMessage)) as [_|]; [|done].
  cbn -[String.append pretty castError]. rewrite Hf2. cbn -[String.append pretty castError].
  rewrite Hu. split.
  - intros ->. cbn -[String.append pretty castError].
    eexists. split; [reflexivity|]. cbn -[String.append pretty castError].
    split; [reflexivity|]. split; [done|]. by rewrite <- !app_assoc.
  - intros -> Hf3 Hf4. cbn -[String.append pretty castError].
    rewrite Hf3. cbn -[String.append pretty castError].
    rewrite Hf4. cbn -[String.append pretty castError].
    eexists _, _, _. split; [reflexivity|]. cbn -[String.append pretty castError].
    rewrite Ht. repeat split.
    + by rewrite <- !app_assoc.
    + rewrite list_lookup_insert_eq by (by eapply lookup_lt_Some).
      unfold resolved. by rewrite Ht.
Qed.

(** The report of the tests, whose message id the driver does not cast,
    and a report about a message whose id it does. *)
Lemma ban_on_message_report_follows_the_cast_witness :
  (exists w',
     resolveModerationAction (noFaults 100) banRequest moderationWorld =
       (Abrupt (castError "msg-123"), w') /\
     stores w' = stores moderationWorld) /\
  (exists resp w',
     resolveModerationAction (noFaults 100) banRequest castableWorld = (Normal resp, w') /\
     usersDb w' = usersDb castableWorld /\
     status <$> (reportsDb w' !! 0%nat) = Some RESOLVED /\
     rr_status resp = RESOLVED).
Proof.
  split.
  - destruct (ban_on_message_report_follows_the_cast (noFaults 100) banRequest
                moderationWorld sampleReport
                eq_refl ltac:(discriminate) eq_refl eq_refl eq_refl eq_refl eq_refl)
      as [Hcast _].
    destruct (Hcast eq_refl) as (w' & H & Hs & _). by exists w'.
  - destruct (ban_on_message_report_follows_the_cast (noFaults 100) banRequest
                castableWorld castableReport
                eq_refl ltac:(discriminate) eq_refl eq_refl eq_refl eq_refl eq_refl)
      as [_ Hok].
    destruct (Hok eq_refl eq_refl eq_refl)
      as (resp & w' & added & H & Hu & _ & _ & _ & Hr & _ & Hst & _).
    exists resp, w'. split; [exact H|]. split; [exact Hu|]. split; [|exact Hst].
    change 0%nat with (reportId banRequest). by rewrite Hr.
Defined.

(** ** Case and punctuation *)

Section StringFacts.
Import JsString.

Lemma lowerChar_upperChar c : lowerChar (upperChar c) = lowerChar c.
Proof. destruct c as [[] [] [] [] [] [] [] []]; reflexivity. Qed.

Lemma isSpace_upperChar c : isSpace (upperChar c) = isSpace c.
Proof. destruct c as [[] [] [] [] [] [] [] []]; reflexivity. Qed.

Lemma isReplaced_lowerChar c : isReplaced c = true -> isReplaced (lowerChar c) = true.
Proof. destruct c as [[] [] [] [] [] [] [] []]; vm_compute; congruence. Qed.

Lemma isReplaced_not_space c : isReplaced c = true -> isSpace c = false.
Proof. unfold isReplaced. destruct (isSpace c); [by rewrite andb_false_r|done]. Qed.

Lemma chars_str l : chars (str l) = l.
Proof. apply list_ascii_of_string_of_list_ascii. Qed.

Lemma str_chars s : str (chars s) = s.
Proof. apply string_of_list_ascii_of_string. Qed.

Lemma length_str l : String.length (str l) = length l.
Proof. unfold str. induction l as [|c l IH]; cbn; [done|by rewrite IH]. Qed.

Lemma trimStartChars_nil l : trimStartChars l = [] <-> forallb isSpace l = true.
Proof.
  induction l as [|c l IH]; cbn; [done|].
  destruct (isSpace c); cbn; [done|]. split; discriminate.
Qed.

Lemma trimStartChars_spaces s l :
  forallb isSpace s = true -> trimStartChars (s ++ l) = trimStartChars l.
Proof.
  induction s as [|c s IH]; cbn; [done|].
  destruct (isSpace c); cbn; [done|discriminate].
Qed.

Lemma trimStartChars_app l tail :
  forallb isSpace tail = true ->
  trimStartChars (l ++ tail) =
  if forallb isSpace l then [] else trimStartChars l ++ tail.
Proof.
  intros Ht. induction l as [|c l IH]; cbn.
  - by apply trimStartChars_nil.
  - by destruct (isSpace c).
Qed.

Lemma forallb_isSpace_rev l : forallb isSpace (rev l) = forallb isSpace l.
Proof.
  induction l as [|c l IH]; cbn; [done|].
  rewrite forallb_app, IH. cbn. rewrite andb_true_r. apply andb_comm.
Qed.

Lemma trimStartChars_head l :
  forallb isSpace l = false -> forallb isSpace (trimStartChars l) = false.
Proof.
  induction l as [|c l IH]; cbn; [done|].
  destruct (isSpace c) eqn:Hc; cbn; [done|]. by rewrite Hc.
Qed.

Lemma trimChars_nil l : trimChars l = [] <-> forallb isSpace l = true.
Proof.
  unfold trimChars. split.
  - intros H. destruct (forallb isSpace l) eqn:Hl; [done|].
    apply trimStartChars_head in Hl.
    assert (rev (rev (trimStartChars (rev (trimStartChars l)))) = rev []) as H' by by rewrite H.
    rewrite rev_involutive in H'. cbn in H'.
    apply trimStartChars_nil in H'. rewrite forallb_isSpace_rev in H'. congruence.
  - intros H. apply trimStartChars_nil in H. by rewrite H.
Qed.

(** [trim] removes white space added at the end, and at the start. *)
Lemma trimChars_app_spaces l tail :
  forallb isSpace tail = true -> trimChars (l ++ tail) = trimChars l.
Proof.
  intros Ht. unfold trimChars. rewrite (trimStartChars_app _ _ Ht).
  destruct (forallb isSpace l) eqn:Hl.
  - apply trimStartChars_nil in Hl. by rewrite Hl.
  - rewrite rev_app_distr, trimStartChars_spaces; [done|].
    by rewrite forallb_isSpace_rev.
Qed.

Lemma trimChars_start l l' :
  trimStartChars l = trimStartChars l' -> trimChars l = trimChars l'.
Proof. unfold trimChars. by intros ->. Qed.

Lemma trimStartChars_map f l :
  (forall c, isSpace (f c) = isSpace c) ->
  trimStartChars (map f l) = map f (trimStartChars l).
Proof.
  intros Hf. induction l as [|c l IH]; cbn; [done|].
  rewrite Hf. by destruct (isSpace c).
Qed.

Lemma trimChars_map f l :
  (forall c, isSpace (f c) = isSpace c) ->
  trimChars (map f l) = map f (trimChars l).
Proof.
  intros Hf. unfold trimChars.
  by rewrite trimStartChars_map, <- map_rev, trimStartChars_map, map_rev.
Qed.

(** *** Collapsing *)

Lemma collapseFrom_spaces b s l :
  forallb isSpace s = true ->
  collapseFrom b (s ++ l) =
  if b || match s with [] => true | _ => false end
  then collapseFrom b l
  else " "%char :: collapseFrom true l.
Proof.
  revert b. induction s as [|c s IH]; intros b Hs; cbn.
  - by rewrite orb_true_r.
  - cbn in Hs. apply andb_true_iff in Hs as [Hc Hs]. rewrite Hc.
    rewrite orb_false_r. destruct b.
    + rewrite IH by done. done.
    + rewrite IH by done. cbn. done.
Qed.

Lemma trimStartChars_collapseFrom b l :
  trimStartChars (collapseFrom b l) = trimStartChars (collapseFrom false l).
Proof.
  destruct b; [|done]. destruct l as [|c l]; cbn; [done|].
  by destruct (isSpace c).
Qed.

Lemma collapseFrom_app_spaces b l tail :
  forallb isSpace tail = true ->
  exists tail', forallb isSpace tail' = true /\
                collapseFrom b (l ++ tail) = collapseFrom b l ++ tail'.
Proof.
  intros Ht. revert b. induction l as [|c l IH]; intros b.
  - cbn [app]. rewrite <- (app_nil_r tail), collapseFrom_spaces by done. cbn.
    destruct (b || _); [by exists []|by exists [" "%char]].
  - cbn. destruct (isSpace c).
    + destruct (IH true) as (tail' & Hs & ->). exists tail'. by destruct b.
    + destruct (IH false) as (tail' & Hs & ->). by exists tail'.
Qed.

(** White space around a text does not change what is left after
    collapsing and trimming. *)
Lemma trim_collapse_around s l s' :
  forallb isSpace s = true -> forallb isSpace s' = true ->
  trimChars (collapseSpaces (s ++ l ++ s')) = trimChars (collapseSpaces l).
Proof.
  intros Hs Hs'. unfold collapseSpaces.
  rewrite collapseFrom_spaces by done. cbn [orb].
  destruct (collapseFrom_app_spaces false l s' Hs') as (t0 & Ht0 & E0).
  destruct (collapseFrom_app_spaces true l s' Hs') as (t1 & Ht1 & E1).
  destruct s.
  - rewrite E0. by apply trimChars_app_spaces.
  - rewrite E1.
    rewrite (trimChars_start (" "%char :: collapseFrom true l ++ t1)
               (collapseFrom true l ++ t1)) by done.
    rewrite trimChars_app_spaces by done.
    apply trimChars_start, trimStartChars_collapseFrom.
Qed.

End StringFacts.

Lemma normalizeText_toUpperCase text :
  normalizeText (JsString.toUpperCase text) = normalizeText text.
Proof.
  unfold normalizeText, JsString.toLowerCase, JsString.toUpperCase.
  rewrite !chars_str, map_map.
  by rewrite (map_ext _ JsString.lowerChar lowerChar_upperChar).
Qed.

Lemma isBlank_spec text : isBlank text = forallb JsString.isSpace (JsString.chars text).
Proof.
  unfold isBlank, JsString.trim. rewrite length_str.
  destruct (forallb JsString.isSpace (JsString.chars text)) eqn:Hb.
  - apply trimChars_nil in Hb. rewrite Hb. cbn. apply orb_true_r.
  - apply orb_false_iff. split.
    + apply String.eqb_neq. intros ->. done.
    + apply Nat.eqb_neq. intros Hlen.
      assert (JsString.trimChars (JsString.chars text) = []) as Hnil
        by (by destruct (JsString.trimChars _)).
      apply trimChars_nil in Hnil. congruence.
Qed.

Lemma isBlank_toUpperCase text : isBlank (JsString.toUpperCase text) = isBlank text.
Proof.
  rewrite !isBlank_spec. unfold JsString.toUpperCase. rewrite chars_str.
  induction (JsString.chars text) as [|c l IH]; cbn -[JsString.isSpace]; [done|].
  by rewrite isSpace_upperChar, IH.
Qed.

Lemma loadedKeywords_emit env ev w : loadedKeywords env (emit ev w) = loadedKeywords env w.
Proof.
  unfold loadedKeywords. rewrite !loadKeywords_eq. cbn zeta.
  change (cacheValid env false (emit ev w)) with (cacheValid env false w).
  destruct (cacheValid env false w); [done|]. by destruct (fault env KeywordFind).
Qed.

(** The result of a scan, leaving the world aside. *)
Lemma scanText_result `{engine : RegExpEngine} env text w :
  fst (scanText env text w) =
  Normal (if isBlank text then blankResult
          else scanResultWith (loadedKeywords env w) text).
Proof.
  unfold scanText. run. destruct (isBlank text); [done|].
  rewrite <- (loadedKeywords_emit env (EvScan text) w). unfold loadedKeywords.
  by destruct (loadKeywords_total env false (emit (EvScan text) w)) as (ks & w1 & ->).
Qed.

(** [classify(T)] and [classify(upper(T))] are the same result, for
    every rule set and every engine. *)
Lemma scanText_ignores_case `{engine : RegExpEngine} env text w :
  basicLatin text ->
  fst (scanText env (JsString.toUpperCase text) w) = fst (scanText env text w).
Proof.
  intros _. rewrite !scanText_result, isBlank_toUpperCase.
  unfold scanResultWith. by rewrite normalizeText_toUpperCase.
Qed.

Lemma normalizeText_around before text after :
  Forall (fun c => isReplaced c = true) before ->
  Forall (fun c => isReplaced c = true) after ->
  normalizeText (JsString.str (before ++ JsString.chars text ++ after)) = normalizeText text.
Proof.
  intros Hb Ha. unfold normalizeText, JsString.toLowerCase.
  rewrite !chars_str, !map_app. unfold JsString.replaceNonWordChars.
  rewrite !map_app. f_equal. apply trim_collapse_around.
  - clear Ha. induction Hb as [|c l Hc _ IH]; [done|]. cbn -[JsString.isSpace].
    apply isReplaced_lowerChar in Hc. unfold isReplaced in Hc.
    apply andb_true_iff in Hc as [Hw Hs]. apply negb_true_iff in Hw, Hs.
    by rewrite Hw, Hs.
  - clear Hb. induction Ha as [|c l Hc _ IH]; [done|]. cbn -[JsString.isSpace].
    apply isReplaced_lowerChar in Hc. unfold isReplaced in Hc.
    apply andb_true_iff in Hc as [Hw Hs]. apply negb_true_iff in Hw, Hs.
    by rewrite Hw, Hs.
Qed.

(** Punctuation other than the underscore, put around a text that is
    not blank, changes nothing in the result of the scan. *)
Lemma scanText_ignores_punctuation `{engine : RegExpEngine} env before text after w :
  Forall (fun c => isReplaced c = true) before ->
  Forall (fun c => isReplaced c = true) after ->
  isBlank text = false ->
  fst (scanText env (JsString.str (before ++ JsString.chars text ++ after)) w) =
  fst (scanText env text w).
Proof.
  intros Hb Ha Hblank. rewrite !scanText_result, Hblank.
  assert (isBlank (JsString.str (before ++ JsString.chars text ++ after)) = false) as ->.
  { rewrite isBlank_spec in *. rewrite chars_str, !forallb_app, Hblank.
    cbn. apply andb_false_r. }
  unfold scanResultWith. by rewrite normalizeText_around.
Qed.

(** ** From the model of the engine to every engine that extends it *)

Lemma execKeyword_pattern `{engine : RegExpEngine} k t :
  execKeyword k t = RegExp_exec (patternOf k) (flagsOf k) t.
Proof. unfold execKeyword, patternOf, flagsOf. by destruct (isRegex k). Qed.

Lemma modelEngine_extends : Regex.extends Regex.modelEngine.
Proof. intros p f t r H. unfold Regex.modelEngine. by rewrite H. Qed.

Lemma scanKeywords_model `{engine : RegExpEngine} ks t st :
  Regex.extends engine -> modelled ks t = true ->
  fold_left (scanKeyword (engine := engine) t) ks st =
  fold_left (scanKeyword (engine := Regex.modelEngine) t) ks st.
Proof.
  intros Hext. revert st. induction ks as [|k ks IH]; intros st Hm; [done|].
  cbn in Hm. apply andb_true_iff in Hm as [Hk Hm]. cbn [fold_left].
  rewrite IH by done. f_equal. unfold scanKeyword.
  rewrite !execKeyword_pattern.
  destruct (Regex.exec (patternOf k) (flagsOf k) t) as [r|] eqn:He; [|done].
  unfold RegExp_exec.
  by rewrite (Hext _ _ _ _ He), (modelEngine_extends _ _ _ _ He).
Qed.

Lemma scanResultWith_model `{engine : RegExpEngine} ks text :
  Regex.extends engine -> modelled ks (normalizeText text) = true ->
  scanResultWith (engine := engine) ks text =
  scanResultWith (engine := Regex.modelEngine) ks text.
Proof.
  intros Hext Hm. unfold scanResultWith, scanKeywords.
  by rewrite (scanKeywords_model ks _ _ Hext Hm).
Qed.

Lemma loadedKeywords_cachedWorld env ks :
  forallb enabled ks = true -> loadedKeywords env (cachedWorld ks) = ks.
Proof.
  intros Hen. unfold loadedKeywords. rewrite loadKeywords_eq. cbn zeta.
  assert (List.filter enabled ks = ks) as Hf.
  { induction ks as [|k ks IH]; [done|]. cbn in *.
    apply andb_true_iff in Hen as [-> Hen]. by rewrite IH. }
  destruct (cacheValid env false (cachedWorld ks)); [done|].
  destruct (fault env KeywordFind); [done|]. exact Hf.
Qed.

(** C5 at the input where the code departs from it.  With the rules of
    the tests, "suicide" and "suicide!!!" are classified HIGH on the
    match of the rule "suicide"; with an underscore after it, or around
    it, the same word is classified NONE and nothing matches: this
    punctuation suppresses the match. *)
Theorem underscore_suppresses_match `{engine : RegExpEngine} (env : Env) :
  Regex.extends engine ->
  let found := {| r_severity := HIGH;
                  matches := [{| m_word := "suicide"; m_severity := HIGH;
                                 m_action := ESCALATE; position := 0 |}];
                  severityScore := 3 |} in
  fst (scanText env "suicide" (cachedWorld testKeywords)) = Normal found /\
  fst (scanText env "suicide!!!" (cachedWorld testKeywords)) = Normal found /\
  fst (scanText env "suicide_" (cachedWorld testKeywords)) = Normal blankResult /\
  fst (scanText env "_suicide_" (cachedWorld testKeywords)) = Normal blankResult.
Proof.
  intros Hext. cbn zeta.
  rewrite !scanText_result, !loadedKeywords_cachedWorld by reflexivity.
  rewrite !(scanResultWith_model _ _ Hext) by (vm_compute; reflexivity).
  repeat split; vm_compute; reflexivity.
Qed.

Lemma underscore_suppresses_match_witness :
  fst (scanText (engine := Regex.modelEngine) (noFaults 5) "suicide"
         (cachedWorld testKeywords)) <>
  fst (scanText (engine := Regex.modelEngine) (noFaults 5) "suicide_"
         (cachedWorld testKeywords)).
Proof.
  destruct (underscore_suppresses_match (engine := Regex.modelEngine) (noFaults 5)
              modelEngine_extends) as (H1 & _ & H2 & _).
  rewrite H1, H2. discriminate.
Defined.

(** ** Literal rules *)

Section LiteralRules.
Import JsString Regex.

Lemma chars_append s1 s2 : chars (s1 +:+ s2) = chars s1 ++ chars s2.
Proof. unfold chars. induction s1 as [|c s1 IH]; simpl; [done|by f_equal]. Qed.

Lemma plain_isChar c x : isPlainChar c = true -> isPlainChar x = false -> isChar c x = false.
Proof.
  intros Hc Hx. unfold isChar. destruct (Ascii.eqb_spec c x) as [->|]; [congruence|done].
Qed.

Ltac plain_tests c Hc :=
  rewrite ?(plain_isChar c "|" Hc eq_refl), ?(plain_isChar c ")" Hc eq_refl),
          ?(plain_isChar c "^" Hc eq_refl), ?(plain_isChar c "$" Hc eq_refl),
          ?(plain_isChar c "*" Hc eq_refl), ?(plain_isChar c "+" Hc eq_refl),
          ?(plain_isChar c "?" Hc eq_refl), ?(plain_isChar c "{" Hc eq_refl),
          ?(plain_isChar c "\" Hc eq_refl), ?(plain_isChar c "." Hc eq_refl),
          ?(plain_isChar c "[" Hc eq_refl), ?(plain_isChar c "(" Hc eq_refl).

Lemma quantify_none r s : noQuantifierAhead s -> quantify r s = POk r s.
Proof.
  destruct s as [|h s]; [done|]. intros (H1 & H2 & H3 & H4).
  unfold quantify. by rewrite H1, H2, H3, H4.
Qed.

Lemma noQuantifierAhead_plain term :
  Forall (fun c => isPlainChar c = true) term ->
  noQuantifierAhead (term ++ ["\"%char; "b"%char]).
Proof.
  intros [|c l Hc _]; cbn; [done|].
  by plain_tests c Hc.
Qed.

Lemma parseTerm_plain f c s :
  isPlainChar c = true -> noQuantifierAhead s ->
  parseTerm (S f) (c :: s) = POk (Chr c) s.
Proof.
  intros Hc Hs. cbn.
  plain_tests c Hc. cbn. by apply quantify_none.
Qed.

Lemma parseAlternative_plain term f :
  Forall (fun c => isPlainChar c = true) term ->
  (length term + 3 <= f)%nat ->
  parseAlternative f (term ++ ["\"%char; "b"%char]) =
  POk (foldr (fun c r => Seq (Chr c) r) (Seq WordB Empty) term) [].
Proof.
  intros Hplain. revert f. induction Hplain as [|c term Hc Hterm IH]; intros f Hf.
  - destruct f as [|[|[|f]]]; cbn in Hf; try lia. reflexivity.
  - destruct f as [|[|f]]; cbn in Hf; try lia.
    change (parseAlternative (S (S f)) ((c :: term) ++ ["\"%char; "b"%char])) with
      (if isChar c "|" || isChar c ")" then POk Empty (c :: term ++ ["\"%char; "b"%char])
       else match parseTerm (S f) (c :: term ++ ["\"%char; "b"%char]) with
            | POk t rest =>
                match parseAlternative (S f) rest with
                | POk r rest' => POk (Seq t r) rest'
                | PSyntaxError => PSyntaxError
                | PUnmodelled => PUnmodelled
                end
            | PSyntaxError => PSyntaxError
            | PUnmodelled => PUnmodelled
            end).
    plain_tests c Hc. cbn [orb].
    rewrite parseTerm_plain by (done || by apply noQuantifierAhead_plain).
    rewrite IH by lia. reflexivity.
Qed.

Lemma parsePattern_literal term :
  plainTerm term ->
  parsePattern ("\b" +:+ term +:+ "\b") = POk (literalRegex (chars term)) [].
Proof.
  intros Hplain. unfold parsePattern.
  rewrite !chars_append. change (chars "\b") with ["\"%char; "b"%char].
  set (s := chars term) in *.
  assert (exists f, (4 * length (["\"%char; "b"%char] ++ s ++ ["\"%char; "b"%char]) + 8 =
                     S (S (S f)) /\ length s + 3 <= S f)%nat) as (f & -> & Hf).
  { rewrite !length_app. cbn [length]. exists (4 * (2 + (length s + 2)) + 5)%nat. lia. }
  assert (parseAlternative (S (S f)) (["\"%char; "b"%char] ++ s ++ ["\"%char; "b"%char]) =
          POk (literalRegex s) []) as Halt.
  { change (parseAlternative (S (S f)) (["\"%char; "b"%char] ++ s ++ ["\"%char; "b"%char]))
      with (match parseAlternative (S f) (s ++ ["\"%char; "b"%char]) with
            | POk r rest' => POk (Seq WordB r) rest'
            | PSyntaxError => PSyntaxError
            | PUnmodelled => PUnmodelled
            end).
    by rewrite parseAlternative_plain. }
  change (parseDisjunction (S (S (S f))) (["\"%char; "b"%char] ++ s ++ ["\"%char; "b"%char]))
    with (match parseAlternative (S (S f))
                  (["\"%char; "b"%char] ++ s ++ ["\"%char; "b"%char]) with
          | POk r rest =>
              match rest with
              | c :: rest' =>
                  if isChar c "|"
                  then match parseDisjunction (S (S f)) rest' with
                       | POk r2 rest2 => POk (Alt r r2) rest2
                       | PSyntaxError => PSyntaxError
                       | PUnmodelled => PUnmodelled
                       end
                  else POk r rest
              | [] => POk r rest
              end
          | PSyntaxError => PSyntaxError
          | PUnmodelled => PUnmodelled
          end).
  by rewrite Halt.
Qed.

Lemma matchFrom_literal text term rest i k :
  matchFrom true text (foldr (fun c r => Seq (Chr c) r) rest term) i k =
  standsAt term text i && matchFrom true text rest (i + length term) k.
Proof.
  revert i. induction term as [|c term IH]; intros i.
  - cbn. by rewrite Nat.add_0_r.
  - cbn [foldr matchFrom standsAt length]. destruct (text !! i) as [d|]; [|done].
    rewrite IH. unfold charMatches.
    replace (S i + length term)%nat with (i + S (length term))%nat by lia.
    by rewrite andb_assoc.
Qed.

Lemma matchesAt_literal text term i :
  matchesAt true text (literalRegex term) i = wholeWordAt term text i.
Proof.
  unfold matchesAt, literalRegex, wholeWordAt.
  cbn [matchFrom]. rewrite matchFrom_literal. cbn [matchFrom].
  by rewrite andb_true_r, andb_assoc.
Qed.

Lemma searchFrom_firstPosition ignoreCase text r n i :
  searchFrom ignoreCase text r n i = firstPosition (matchesAt ignoreCase text r) n i.
Proof. revert i. induction n as [|n IH]; intros i; cbn; [done|]. by rewrite IH. Qed.

Lemma firstPosition_ext p q n i :
  (forall j, p j = q j) -> firstPosition p n i = firstPosition q n i.
Proof.
  intros H. revert i. induction n as [|n IH]; intros i; cbn; rewrite H; [done|].
  by rewrite IH.
Qed.

(** What a result of the search means. *)
Lemma firstPosition_match p n i j :
  firstPosition p n i = RxMatch j ->
  p j = true /\ (i <= j <= i + n)%nat /\ forall k, (i <= k < j)%nat -> p k = false.
Proof.
  revert i. induction n as [|n IH]; intros i; cbn.
  - destruct (p i) eqn:Hp; [|done]. intros [= <-]. repeat split; [done|lia|lia|lia].
  - destruct (p i) eqn:Hp.
    + intros [= <-]. repeat split; [done|lia|lia|lia].
    + intros H. destruct (IH _ H) as (Hj & Hr & Hless). repeat split; [done|lia|lia|].
      intros k Hk. destruct (decide (k = i)) as [->|]; [done|]. apply Hless. lia.
Qed.

Lemma firstPosition_null p n i k :
  firstPosition p n i = RxNull -> (i <= k <= i + n)%nat -> p k = false.
Proof.
  revert i. induction n as [|n IH]; intros i; cbn.
  - destruct (p i) eqn:Hp; [done|]. intros _ Hk. by replace k with i by lia.
  - destruct (p i) eqn:Hp; [done|]. intros H Hk.
    destruct (decide (k = i)) as [->|]; [done|]. apply (IH _ H). lia.
Qed.

(** A literal rule with a plain term: the model of the engine is within
    its fragment, the expression is never malformed, and the answer is
    the first position where the term stands as a whole word. *)
Lemma literal_rule_is_whole_word term text :
  plainTerm term ->
  Regex.exec ("\b" +:+ term +:+ "\b") "i" text =
  Some (firstPosition (wholeWordAt (chars term) (chars text)) (length (chars text)) 0).
Proof.
  intros Hplain. unfold Regex.exec. cbn [ignoreCaseOf String.eqb orb Ascii.eqb].
  change (ignoreCaseOf "i") with (Some true). cbn iota.
  rewrite parsePattern_literal by done.
  rewrite searchFrom_firstPosition. f_equal.
  apply firstPosition_ext. intros j. apply matchesAt_literal.
Qed.

End LiteralRules.

(** For every engine that extends the model, a literal rule with a plain
    term is found where, and only where, the term stands as a whole word
    or phrase, and the first such position is reported. *)
Lemma literal_keyword_whole_word `{engine : RegExpEngine} k text :
  Regex.extends engine -> isRegex k = false -> plainTerm (word k) ->
  execKeyword k text =
  firstPosition (wholeWordAt (JsString.chars (word k)) (JsString.chars text))
    (length (JsString.chars text)) 0.
Proof.
  intros Hext Hlit Hplain. unfold execKeyword. rewrite Hlit.
  apply Hext. by apply literal_rule_is_whole_word.
Qed.

Example stress_not_inside_stressed :
  execKeyword (engine := Regex.modelEngine) (keyword "stress" LOW FLAG) "i am stressed" = RxNull /\
  execKeyword (engine := Regex.modelEngine) (keyword "stress" LOW FLAG) "so much stress today" =
    RxMatch 8 /\
  execKeyword (engine := Regex.modelEngine) (keyword "kill myself" HIGH ESCALATE)
    "i want to kill myself" = RxMatch 10 /\
  execKeyword (engine := Regex.modelEngine) (keyword "kill myself" HIGH ESCALATE)
    "i want to kill myselfish" = RxNull.
Proof. repeat split; vm_compute; reflexivity. Qed.

(** C6 at the input where the code departs from it.  The term of a
    literal rule is put into the expression as it is, so a term with an
    operator of the pattern language is read as a pattern: the literal
    rule "stress|anxiety" matches "stressed" at position 0, where the
    term does not stand at all, and inside a word; the literal rule
    "stress" does not match there. *)
Theorem literal_term_read_as_pattern `{engine : RegExpEngine} (env : Env) :
  Regex.extends engine ->
  isRegex alternationRule = false /\
  fst (scanText env "stressed" (cachedWorld [alternationRule])) =
    Normal {| r_severity := MEDIUM;
              matches := [{| m_word := "stress|anxiety"; m_severity := MEDIUM;
                             m_action := FLAG; position := 0 |}];
              severityScore := 2 |} /\
  firstPosition (wholeWordAt (JsString.chars "stress|anxiety") (JsString.chars "stressed"))
    (length (JsString.chars "stressed")) 0 = RxNull /\
  fst (scanText env "stressed" (cachedWorld [keyword "stress" MEDIUM FLAG])) = Normal blankResult.
Proof.
  intros Hext. split; [done|].
  rewrite !scanText_result, !loadedKeywords_cachedWorld by reflexivity.
  rewrite !(scanResultWith_model _ _ Hext) by (vm_compute; reflexivity).
  repeat split; vm_compute; reflexivity.
Qed.

Lemma literal_term_read_as_pattern_witness :
  fst (scanText (engine := Regex.modelEngine) (noFaults 5) "stressed"
         (cachedWorld [alternationRule])) <>
  fst (scanText (engine := Regex.modelEngine) (noFaults 5) "stressed"
         (cachedWorld [keyword "stress" MEDIUM FLAG])).
Proof.
  destruct (literal_term_read_as_pattern (engine := Regex.modelEngine) (noFaults 5)
              modelEngine_extends) as (_ & H1 & _ & H2).
  rewrite H1, H2. discriminate.
Defined.

(** ** The scenarios of the design document, on the model of the engine *)

Example scan_high :
  fst (scanText (engine := Regex.modelEngine) (noFaults 5) "I am thinking about suicide" testWorld) =
  Normal {| r_severity := HIGH;
            matches := [{| m_word := "suicide"; m_severity := HIGH;
                           m_action := ESCALATE; position := 20 |}];
            severityScore := 3 |}.
Proof. vm_compute. reflexivity. Qed.

Example scan_medium_and_low :
  fst (scanText (engine := Regex.modelEngine) (noFaults 5) "I am depressed and stressed" testWorld) =
  Normal {| r_severity := MEDIUM;
            matches := [{| m_word := "depressed"; m_severity := MEDIUM;
                           m_action := FLAG; position := 5 |};
                        {| m_word := "stressed"; m_severity := LOW;
                           m_action := FLAG; position := 19 |}];
            severityScore := 2 |}.
Proof. vm_compute. reflexivity. Qed.

Example scan_clean :
  fst (scanText (engine := Regex.modelEngine) (noFaults 5) "Hello, how are you?" testWorld) =
  Normal blankResult.
Proof. vm_compute. reflexivity. Qed.

Example scan_blank :
  fst (scanText (engine := Regex.modelEngine) (noFaults 5) "   " testWorld) = Normal blankResult.
Proof. vm_compute. reflexivity. Qed.

(** * Further properties of the code *)

(** ** The webhook handler *)

Lemma handlers_raise_env_errors env messageId userId channelId scanResult text w :
  raisedByEnv env (fst (handleHighSeverity env messageId userId channelId scanResult text w)) /\
  raisedByEnv env (fst (handleMediumSeverity env messageId userId channelId scanResult text w)) /\
  raisedByEnv env (fst (handleLowSeverity env messageId userId channelId scanResult text w)) /\
  raisedByEnv env (fst (updateMetricsAndChatRoom env channelId w)).
Proof.
  repeat split; unfold_handlers; explore; cbn; eauto.
Qed.

Section WebhookFacts.
Context {engine : RegExpEngine}.

Lemma classifyAndDispatch_raises_env_errors env message w :
  raisedByEnv env (fst (classifyAndDispatch env message w)).
Proof.
  unfold classifyAndDispatch. run.
  destruct (scanText_effect env (msg_text message) w) as (r & w1 & -> & _).
  set (w2 := emit _ w1). clearbody w2.
  pose proof (handlers_raise_env_errors env (msg_id message) (msg_user_id message)
                (msg_cid message) r (msg_text message) w2) as (Hh & Hm & Hl & _).
  assert (forall (c : Completion unit) w3,
            raisedByEnv env c ->
            raisedByEnv env
              (fst (match c with
                    | Normal _ =>
                        match updateMetricsAndChatRoom env (msg_cid message) w3 with
                        | (Normal _, w4) =>
                            (Normal tt,
                             emit (EvLog LInfo ("Message processing completed: " +:+
                                                msg_id message)) w4)
                        | (Abrupt e, w4) => (Abrupt e, w4)
                        end
                    | Abrupt e => (Abrupt e, w3)
                    end))) as Hafter.
  { intros [[]|e] w3 Hc; [|done].
    pose proof (handlers_raise_env_errors env "" "" (msg_cid message) r "" w3) as (_ & _ & _ & Hu).
    by destruct (updateMetricsAndChatRoom env (msg_cid message) w3) as [[[]|e] w4]. }
  destruct (r_severity r).
  - by apply (Hafter (Normal tt) w2).
  - destruct (handleLowSeverity _ _ _ _ _ _ _) as [c w3]. by apply Hafter.
  - destruct (handleMediumSeverity _ _ _ _ _ _ _) as [c w3]. by apply Hafter.
  - destruct (handleHighSeverity _ _ _ _ _ _ _) as [c w3]. by apply Hafter.
Qed.

Lemma processMessageCreated_raises_env_errors env message w :
  raisedByEnv env (fst (processMessageCreated env message w)).
Proof.
  rewrite processMessageCreated_eq. cbn zeta. rewrite isProcessed_eq.
  destruct (fault env ProcessedFindOne).
  - apply classifyAndDispatch_raises_env_errors.
  - destruct (bool_decide _); [done|]. apply classifyAndDispatch_raises_env_errors.
Qed.

(** X1. A webhook request whose signature header is missing or empty, or
    whose signature the SDK does not accept (or cannot check), is
    answered 401 with the message of the rejection; nothing but log
    lines is done: no lookup of the idempotency record, no scan, no call
    to storage or to the provider, and no collection changes. *)
Theorem webhook_rejects_bad_signature (env : Env) (req : WebhookRequest) (w : World) :
  signatureAccepted env req = false ->
  exists msg w' added,
    handleStreamWebhook env req w =
      (Normal {| res_status := 401; res_success := false; res_error := Some msg |}, w') /\
    (msg = "Missing webhook signature" \/ msg = "Invalid webhook signature") /\
    stores w' = stores w /\ cache w' = cache w /\
    trace w' = trace w ++ added /\ forallb isLog added = true.
Proof.
  unfold signatureAccepted, handleStreamWebhook. unfold_handlers.
  destruct (x_signature req) as [s|]; cbn.
  - destruct (String.eqb s "") eqn:Hs; cbn.
    + intros _. eexists _, _, [_]. repeat split; eauto.
    + destruct (verifyWebhook env (body req) s) as [[]|]; cbn; intros H; try done.
      * eexists _, _, [_]. repeat split; eauto.
      * eexists _, _, [_; _]. repeat split; eauto.
        -- cbn. rewrite <- app_assoc. reflexivity.
        -- reflexivity.
  - intros _. eexists _, _, [_]. repeat split; eauto.
Qed.

(** X2. With an accepted signature, an event that is not a
    [message.new] event with a message is acknowledged 200 with success
    and leaves the world exactly as it was, trace included. *)
Theorem webhook_ignores_other_events (env : Env) (req : WebhookRequest) (w : World) :
  signatureAccepted env req = true ->
  ev_message (body req) = None \/ ev_type (body req) <> "message.new" ->
  handleStreamWebhook env req w =
    (Normal {| res_status := 200; res_success := true; res_error := None |}, w).
Proof.
  unfold signatureAccepted, handleStreamWebhook. unfold_handlers.
  destruct (x_signature req) as [s|]; [|done].
  destruct (String.eqb s ""); [done|]. cbn.
  intros Hv%bool_decide_eq_true. rewrite Hv. cbn.
  intros [-> | Hne]; [done|].
  destruct (ev_message (body req)); [|done].
  apply String.eqb_neq in Hne. by rewrite Hne.
Qed.

(** X3. With an accepted signature a [message.new] event is always
    answered, and with status 200 as long as no failure of storage or of
    the provider carries a signature code: [success] tells whether the
    pipeline completed, and a failure inside it is reported as
    [success: false], never raised to the caller of the handler. *)
Theorem webhook_reports_pipeline_outcome
    (env : Env) (req : WebhookRequest) (message : StreamMessage) (w : World) :
  signatureAccepted env req = true ->
  ev_message (body req) = Some message ->
  ev_type (body req) = "message.new" ->
  faultsAreNotAuthErrors env ->
  exists w',
    handleStreamWebhook env req w =
      (Normal {| res_status := 200;
                 res_success := match fst (processMessageCreated env message w) with
                                | Normal _ => true
                                | Abrupt _ => false
                                end;
                 res_error := None |}, w') /\
    stores w' = stores (snd (processMessageCreated env message w)).
Proof.
  unfold signatureAccepted, handleStreamWebhook. unfold_handlers.
  destruct (x_signature req) as [s|]; [|done].
  destruct (String.eqb s ""); [done|]. cbn.
  intros Hv%bool_decide_eq_true Hm Ht Hauth. rewrite Hv, Hm, Ht. cbn.
  pose proof (processMessageCreated_raises_env_errors env message w) as Hr.
  destruct (processMessageCreated env message w) as [[[]|e] w1]; cbn in *.
  - by eexists.
  - destruct Hr as [site Hsite]. destruct (Hauth _ _ Hsite) as [Hi Hmis].
    destruct (decide _) as [[?|?]|_]; [done|done|]. by eexists.
Qed.

End WebhookFacts.

Lemma webhook_rejects_bad_signature_witness :
  exists msg w' added,
    handleStreamWebhook (engine := Regex.modelEngine) (noFaults 5) unsignedRequest testWorld =
      (Normal {| res_status := 401; res_success := false; res_error := Some msg |}, w') /\
    (msg = "Missing webhook signature" \/ msg = "Invalid webhook signature") /\
    stores w' = stores testWorld /\ cache w' = cache testWorld /\
    trace w' = trace testWorld ++ added /\ forallb isLog added = true.
Proof. apply webhook_rejects_bad_signature. reflexivity. Defined.

Lemma webhook_ignores_other_events_witness :
  handleStreamWebhook (engine := Regex.modelEngine) (noFaults 5) otherEventRequest testWorld =
    (Normal {| res_status := 200; res_success := true; res_error := None |}, testWorld).
Proof. apply webhook_ignores_other_events; [reflexivity|by left]. Defined.

Lemma webhook_reports_pipeline_outcome_witness :
  (exists w',
     handleStreamWebhook (engine := Regex.modelEngine) (noFaults 5)
       (webhookOf highMessage) testWorld =
     (Normal {| res_status := 200; res_success := true; res_error := None |}, w')) /\
  (exists w',
     handleStreamWebhook (engine := Regex.modelEngine)
       (setFault QueueCreate (Some storageError) (noFaults 5))
       (webhookOf highMessage) testWorld =
     (Normal {| res_status := 200; res_success := false; res_error := None |}, w')).
Proof.
  split.
  - destruct (webhook_reports_pipeline_outcome (engine := Regex.modelEngine) (noFaults 5)
                (webhookOf highMessage) highMessage testWorld) as (w' & H & _);
      try reflexivity; [by intros s e|].
    exists w'. rewrite H. vm_compute. reflexivity.
  - destruct (webhook_reports_pipeline_outcome (engine := Regex.modelEngine)
                (setFault QueueCreate (Some storageError) (noFaults 5))
                (webhookOf highMessage) highMessage testWorld) as (w' & H & _);
      try reflexivity.
    + intros s e. destruct s; cbn; intros [= <-]; split; discriminate.
    + exists w'. rewrite H. vm_compute. reflexivity.
Defined.

(** ** The branches of the dispatch *)




Section DispatchFacts.
Context {engine : RegExpEngine}.

Lemma scanKeywords_score_consistent t ks st :
  highestScore st = getSeverityScore (highestSeverity st) ->
  highestScore (fold_left (scanKeyword t) ks st) =
  getSeverityScore (highestSeverity (fold_left (scanKeyword t) ks st)).
Proof.
  revert st. induction ks as [|k ks IH]; intros st Hst; [done|].
  cbn [fold_left]. apply IH. unfold scanKeyword.
  destruct (execKeyword k t); try done.
  by destruct (_ <? _).
Qed.

(** The score of a scan result is the score of its severity. *)
Lemma scanText_score_consistent env text w r w1 :
  scanText env text w = (Normal r, w1) ->
  severityScore r = getSeverityScore (r_severity r).
Proof.
  intros H. pose proof (scanText_result env text w) as Hr.
  rewrite H in Hr. cbn [fst] in Hr. injection Hr as ->.
  destruct (isBlank text); [done|].
  unfold scanResultWith. cbn. by apply scanKeywords_score_consistent.
Qed.

(** X6. What is done with a message that was let in follows the verdict
    of the scan.  When nothing fails: a queue item is created exactly
    when the severity is not NONE, and its severity is the score of the
    scan; a report is created exactly for HIGH; the audit log gets the
    record of a HIGH or of a MEDIUM decision and nothing for LOW and
    NONE; the provider is asked to delete exactly for HIGH and to flag
    exactly for MEDIUM. *)
Theorem dispatch_follows_verdict (env : Env) (message : StreamMessage) (w : World) :
  noFault env ->
  exists r w1 w' added,
    scanText env (msg_text message) w = (Normal r, w1) /\
    classifyAndDispatch env message w = (Normal tt, w') /\
    queueDb w' =
      queueDb w ++
      (if decide (r_severity r = NONE) then []
       else [queueItemOf (msg_id message) (msg_user_id message) (msg_cid message)
               r (msg_text message) (severityScore r)]) /\
    reportsDb w' =
      reportsDb w ++
      (if decide (r_severity r = HIGH) then [automaticReport (msg_id message) r] else []) /\
    auditDb w' =
      auditDb w ++
      match r_severity r with
      | HIGH => [automaticAudit "message_moderated_high" "high" env message r]
      | MEDIUM => [automaticAudit "message_flagged_medium" "medium" env message r]
      | LOW | NONE => []
      end /\
    trace w' = trace w1 ++ added /\
    existsb (callsSite StreamDeleteMessage) added = bool_decide (r_severity r = HIGH) /\
    existsb (callsSite StreamFlagMessage) added = bool_decide (r_severity r = MEDIUM).
Proof.
  intros Hnf. unfold classifyAndDispatch. run.
  destruct (scanText_effect env (msg_text message) w) as (r & w1 & Hscan & Hs).
  pose proof (scanText_score_consistent _ _ _ _ _ Hscan) as Hscore.
  rewrite Hscan. exists r, w1.
  unfold stores in Hs. injection Hs as _ _ Hq Hr _ _ _ Ha.
  rewrite Hscore.
  destruct (r_severity r) eqn:Hsev; unfold_handlers; cbn -[String.append pretty];
    rewrite ?Hnf; cbn -[String.append pretty]; rewrite ?Hnf; cbn -[String.append pretty];
    rewrite ?Hq, ?Hr, ?Ha.
  all: try destruct (pushConfigured env); cbn -[String.append pretty].
  all: eexists _, _; split; [reflexivity|]; split; [reflexivity|].
  all: cbn -[String.append pretty]; rewrite ?Hq, ?Hr, ?Ha.
  all: split; [by rewrite ?app_nil_r|]; split; [by rewrite ?app_nil_r|].
  all: split; [by rewrite ?app_nil_r|].
  all: split; [rewrite <- ?app_assoc; reflexivity|]; split; reflexivity.
Qed.

End DispatchFacts.

Lemma noFaults_noFault t : noFault (noFaults t).
Proof. by intros s. Qed.

Lemma dispatch_follows_verdict_witness :
  exists w',
    classifyAndDispatch (engine := Regex.modelEngine) (noFaults 5) highMessage testWorld =
      (Normal tt, w') /\
    map q_severity (queueDb w') = [3] /\ length (reportsDb w') = 1%nat /\
    map a_action (auditDb w') = ["message_moderated_high"].
Proof.
  destruct (dispatch_follows_verdict (engine := Regex.modelEngine) (noFaults 5)
              highMessage testWorld (noFaults_noFault 5))
    as (r & w1 & w' & added & Hscan & Hrun & Hq & Hr & Ha & _).
  assert (r = {| r_severity := HIGH;
                 matches := [{| m_word := "suicide"; m_severity := HIGH;
                                m_action := ESCALATE; position := 20 |}];
                 severityScore := 3 |}) as ->.
  { assert (fst (scanText (engine := Regex.modelEngine) (noFaults 5)
                   (msg_text highMessage) testWorld) = Normal r) as H by by rewrite Hscan.
    vm_compute in H. by injection H as <-. }
  exists w'. split; [exact Hrun|]. rewrite Hq, Hr, Ha.
  clear. vm_compute. repeat split; reflexivity.
Defined.

(** ** Metrics *)



(** ** The keyword registry *)

(** X8. With an empty cache (as after [clearCache]) and a failing read
    of storage there is no last-known-good set to fall back on: the
    registry answers no rule at all, and every text, whatever it says,
    is classified NONE without a match. *)
Theorem empty_cache_and_failing_storage_classify_none `{engine : RegExpEngine}
    (env : Env) (text : string) (w : World) (e : JsError) :
  fault env KeywordFind = Some e ->
  fst (loadKeywords env false (snd (clearCache w))) = Normal [] /\
  fst (scanText env text (snd (clearCache w))) = Normal blankResult /\
  (cache w = [] -> fst (scanText env text w) = Normal blankResult).
Proof.
  intros He.
  assert (forall w0, cache w0 = [] -> loadedKeywords env w0 = []) as Hempty.
  { intros w0 Hc. unfold loadedKeywords. rewrite loadKeywords_eq.
    unfold cacheValid. rewrite Hc, He. cbn. by rewrite ?andb_false_r. }
  assert (forall w0, cache w0 = [] -> fst (scanText env text w0) = Normal blankResult) as Hscan.
  { intros w0 Hc. rewrite scanText_result, (Hempty _ Hc). by destruct (isBlank text). }
  split; [|split].
  - rewrite loadKeywords_eq. unfold cacheValid. cbn. by rewrite He.
  - by apply Hscan.
  - apply Hscan.
Qed.

Lemma empty_cache_and_failing_storage_classify_none_witness :
  fst (scanText (engine := Regex.modelEngine)
         (setFault KeywordFind (Some storageError) (noFaults 5))
         "I am thinking about suicide"
         (snd (clearCache (cachedWorld testKeywords)))) = Normal blankResult.
Proof.
  pose proof (empty_cache_and_failing_storage_classify_none (engine := Regex.modelEngine)
                (setFault KeywordFind (Some storageError) (noFaults 5))
                "I am thinking about suicide" (cachedWorld testKeywords) storageError eq_refl)
    as (_ & H & _).
  exact H.
Defined.

(** X9. [reloadKeywords] never raises and always reads storage, however
    fresh the cache is.  When the read succeeds the cache becomes the
    enabled rules of the collection, stamped with the time of the call;
    when it fails the cache and its stamp are left as they were. *)
Theorem reloadKeywords_always_reads (env : Env) (w : World) :
  exists w' added,
    reloadKeywords env w = (Normal tt, w') /\
    stores w' = stores w /\
    trace w' = trace w ++ added /\
    existsb (callsSite KeywordFind) added = true /\
    match fault env KeywordFind with
    | None => cache w' = List.filter enabled (keywordsDb w) /\
              lastCacheUpdate w' = Some (now env)
    | Some _ => cache w' = cache w /\ lastCacheUpdate w' = lastCacheUpdate w
    end.
Proof.
  unfold reloadKeywords. run. rewrite loadKeywords_eq.
  assert (cacheValid env true w = false) as -> by done. cbn zeta.
  destruct (fault env KeywordFind); eexists _, _; (split; [reflexivity|]); cbn;
    (split; [reflexivity|]); (split; [rewrite <- !app_assoc; reflexivity|]); done.
Qed.

(** X10. The staleness of the rules is bounded by the TTL and by nothing
    else.  After a load that read a non-empty set from storage, every
    unforced load less than five minutes later answers that same set
    without reading, whatever has become of the collection; from five
    minutes on, the next load reads the collection as it then is. *)
Theorem rules_are_stale_for_at_most_the_ttl
    (env0 env1 : Env) (force : bool) (w : World) (changed : list IModerationKeyword) :
  cacheValid env0 force w = false ->
  fault env0 KeywordFind = None ->
  List.filter enabled (keywordsDb w) <> [] ->
  let w1 := snd (loadKeywords env0 force w) in
  let w2 := withKeywords changed w1 in
  (now env1 - now env0 < 5 * 60 * 1000 ->
   loadKeywords env1 false w2 = (Normal (List.filter enabled (keywordsDb w)), w2)) /\
  (5 * 60 * 1000 <= now env1 - now env0 -> fault env1 KeywordFind = None ->
   fst (loadKeywords env1 false w2) = Normal (List.filter enabled changed)).
Proof.
  intros Hv Hf Hne. cbn zeta. rewrite (loadKeywords_eq env0), Hv, Hf. cbn zeta. cbn [snd].
  split.
  - intros Hlt. rewrite loadKeywords_eq.
    assert (cacheValid env1 false
              (withKeywords changed
                 (emit (EvLog LInfo ("Loaded " +:+
                          pretty (length (List.filter enabled (keywordsDb w))) +:+
                          " moderation keywords into cache"))
                    (setCache (List.filter enabled (keywordsDb w)) (Some (now env0))
                       (emit (EvCall KeywordFind "enabled") w)))) = true) as ->; [|done].
    apply cacheValid_spec. cbn. split; [done|]. split; [done|].
    exists (now env0). split; [done|]. unfold cacheTTL. lia.
  - intros Hge Hf1. rewrite loadKeywords_eq.
    assert (cacheValid env1 false
              (withKeywords changed
                 (emit (EvLog LInfo ("Loaded " +:+
                          pretty (length (List.filter enabled (keywordsDb w))) +:+
                          " moderation keywords into cache"))
                    (setCache (List.filter enabled (keywordsDb w)) (Some (now env0))
                       (emit (EvCall KeywordFind "enabled") w)))) = false) as ->.
    { unfold cacheValid. cbn -[Z.sub Z.ltb]. 
      assert ((now env1 - now env0 <? cacheTTL) = false) as ->
        by (apply Z.ltb_ge; unfold cacheTTL; lia).
      apply andb_false_r. }
    cbn zeta. by rewrite Hf1.
Qed.

Lemma rules_are_stale_for_at_most_the_ttl_witness :
  let w1 := snd (loadKeywords (noFaults 0) false testWorld) in
  let w2 := withKeywords [keyword "suicide" HIGH ESCALATE] w1 in
  loadKeywords (noFaults 299999) false w2 = (Normal testKeywords, w2) /\
  fst (loadKeywords (noFaults 300000) false w2) = Normal [keyword "suicide" HIGH ESCALATE].
Proof.
  pose proof (rules_are_stale_for_at_most_the_ttl (noFaults 0) (noFaults 299999) false
                testWorld [keyword "suicide" HIGH ESCALATE]) as H1.
  pose proof (rules_are_stale_for_at_most_the_ttl (noFaults 0) (noFaults 300000) false
                testWorld [keyword "suicide" HIGH ESCALATE]) as H2.
  cbn zeta in *. split.
  - apply H1; [reflexivity|reflexivity|discriminate|cbn; lia].
  - apply H2; [reflexivity|reflexivity|discriminate|cbn; lia|reflexivity].
Defined.

Lemma filter_enabled_Forall ks : Forall (fun k => enabled k = true) (List.filter enabled ks).
Proof.
  induction ks as [|k ks IH]; cbn; [constructor|].
  destruct (enabled k) eqn:Hk; [by constructor|done].
Qed.

Lemma filter_enabled_subset ks k : k ∈ List.filter enabled ks -> k ∈ ks.
Proof. rewrite !list_elem_of_In. intros H. by apply List.filter_In in H as [H _]. Qed.

Section ScanFacts.
Context {engine : RegExpEngine}.

Lemma encountered_from_rule t ks m :
  m ∈ encountered t ks ->
  exists k, k ∈ ks /\ m_word m = word k /\ m_severity m = severity k /\
            m_action m = action k /\ exists i, execKeyword k t = RxMatch i /\ position m = Z.of_nat i.
Proof.
  unfold encountered. rewrite list_elem_of_omap. intros (k & Hk & Hm).
  exists k. split; [done|]. unfold matchOf in Hm.
  destruct (execKeyword k t) as [| |i]; try done.
  injection Hm as <-. cbn. repeat split; eauto.
Qed.

Lemma scanResultWith_matches ks text :
  matches (scanResultWith ks text) ≡ₚ encountered (normalizeText text) ks.
Proof.
  unfold scanResultWith. cbn. rewrite sortMatches_Permutation. unfold scanKeywords.
  by rewrite scanKeywords_matches.
Qed.

Lemma scanText_eq env text w :
  scanText env text w =
  let w0 := emit (EvScan text) w in
  if isBlank text then (Normal blankResult, w0)
  else
    let ks := loadedKeywords env w in
    let st := scanKeywords (normalizeText text) ks in
    (Normal (scanResultWith ks text),
     emit (EvLog LDebug ("Scanned text, found " +:+
                         pretty (length (sortMatches (s_matches st))) +:+
                         " matches, severity: " +:+ severityName (highestSeverity st)))
       (foldl (fun w ev => emit ev w) (snd (loadKeywords env false w0)) (s_logged st))).
Proof.
  unfold scanText. run. cbn zeta. destruct (isBlank text); [done|].
  rewrite <- (loadedKeywords_emit env (EvScan text) w). unfold loadedKeywords.
  by destruct (loadKeywords_total env false (emit (EvScan text) w)) as (ks & w1 & ->).
Qed.

Lemma loadKeywords_keeps_enabled env force w :
  Forall (fun k => enabled k = true) (cache w) ->
  Forall (fun k => enabled k = true) (cache (snd (loadKeywords env force w))) /\
  Forall (fun k => enabled k = true) (loadedKeywords env w) /\
  forall k, k ∈ loadedKeywords env w -> k ∈ cache w \/ k ∈ keywordsDb w.
Proof.
  intros Hc. unfold loadedKeywords. rewrite !loadKeywords_eq.
  destruct (cacheValid env force w), (cacheValid env false w); cbn zeta;
    destruct (fault env KeywordFind); cbn; repeat split;
    auto using filter_enabled_Forall, filter_enabled_subset.
Qed.

(** X11. Only enabled rules classify.  If the cache holds enabled rules
    only, as it does from the start and after every load, then every
    match that [scanText] reports carries the word, the severity and the
    action of an enabled rule of the cache or of the collection whose
    expression matched the normalized text at the reported position;
    and the cache still holds enabled rules only afterwards. *)
Theorem only_enabled_rules_match (env : Env) (text : string) (w : World) :
  Forall (fun k => enabled k = true) (cache w) ->
  exists r w',
    scanText env text w = (Normal r, w') /\
    Forall (fun k => enabled k = true) (cache w') /\
    forall m, m ∈ matches r ->
      exists k i, (k ∈ cache w \/ k ∈ keywordsDb w) /\ enabled k = true /\
                  m_word m = word k /\ m_severity m = severity k /\ m_action m = action k /\
                  execKeyword k (normalizeText text) = RxMatch i /\ position m = Z.of_nat i.
Proof.
  intros Hcache. rewrite scanText_eq. cbn zeta.
  destruct (isBlank text).
  - eexists _, _. split; [reflexivity|]. split; [done|].
    intros m Hm. by apply elem_of_nil in Hm.
  - eexists _, _. split; [reflexivity|].
    destruct (loadKeywords_keeps_enabled env false w Hcache) as (_ & Hen & Hin).
    split.
    + cbn. rewrite (proj1 (cache_emits _ _)).
      by apply (loadKeywords_keeps_enabled env false (emit (EvScan text) w)).
    + intros m Hm. rewrite scanResultWith_matches in Hm.
      destruct (encountered_from_rule _ _ _ Hm) as (k & Hk & Hw & Hs & Ha & i & Hi & Hp).
      exists k, i. repeat split; try done; [by apply Hin|].
      revert Hen. rewrite Forall_forall. intros Hen. by apply Hen.
Qed.

(** X12. A text that is empty or made of white space only is answered
    NONE at once: the registry is not consulted, so storage is not read
    even when the cache is empty or stale, and nothing but the entry of
    the scan is added to the trace. *)
Theorem blank_text_is_not_scanned (env : Env) (text : string) (w : World) :
  forallb JsString.isSpace (JsString.chars text) = true ->
  scanText env text w = (Normal blankResult, emit (EvScan text) w).
Proof.
  intros Hb. unfold scanText. run. by rewrite isBlank_spec, Hb.
Qed.

Lemma scanKeyword_throw t st k :
  execKeyword k t = RxThrow ->
  s_matches (scanKeyword t st k) = s_matches st /\
  highestSeverity (scanKeyword t st k) = highestSeverity st /\
  highestScore (scanKeyword t st k) = highestScore st /\
  s_logged (scanKeyword t st k) =
    s_logged st ++ [EvLog LError ("Error processing keyword " +:+ dquote +:+ word k +:+
                                  dquote +:+ ":")].
Proof. intros H. unfold scanKeyword. by rewrite H. Qed.

Lemma scanKeywords_same_verdict t ks st st' :
  s_matches st = s_matches st' -> highestSeverity st = highestSeverity st' ->
  highestScore st = highestScore st' ->
  let a := fold_left (scanKeyword t) ks st in
  let b := fold_left (scanKeyword t) ks st' in
  s_matches a = s_matches b /\ highestSeverity a = highestSeverity b /\
  highestScore a = highestScore b.
Proof.
  revert st st'. induction ks as [|k ks IH]; intros st st' Hm Hs Hc; [done|].
  cbn [fold_left]. apply IH; unfold scanKeyword;
    destruct (execKeyword k t); cbn; rewrite ?Hm, ?Hs, ?Hc; try done;
    by destruct (_ <? _).
Qed.

(** X13. A rule whose expression the engine refuses is skipped and
    logged, and the scan goes on: the result is the result of the scan
    without that rule. *)
Theorem malformed_rule_is_skipped
    (ks1 ks2 : list IModerationKeyword) (k : IModerationKeyword) (text : string) :
  execKeyword k (normalizeText text) = RxThrow ->
  scanResultWith (ks1 ++ k :: ks2) text = scanResultWith (ks1 ++ ks2) text /\
  EvLog LError ("Error processing keyword " +:+ dquote +:+ word k +:+ dquote +:+ ":")
    ∈ s_logged (scanKeywords (normalizeText text) (ks1 ++ k :: ks2)).
Proof.
  intros Hthrow. unfold scanResultWith, scanKeywords.
  rewrite !fold_left_app. cbn [fold_left].
  set (st := fold_left (scanKeyword (normalizeText text)) ks1 scanStart).
  destruct (scanKeyword_throw (normalizeText text) st k Hthrow) as (Hm & Hs & Hc & Hl).
  split.
  - destruct (scanKeywords_same_verdict (normalizeText text) ks2 _ _ Hm Hs Hc)
      as (-> & -> & ->). done.
  - assert (forall ks st0, EvLog LError ("Error processing keyword " +:+ dquote +:+ word k +:+
                                         dquote +:+ ":") ∈ s_logged st0 ->
              EvLog LError ("Error processing keyword " +:+ dquote +:+ word k +:+
                            dquote +:+ ":")
                ∈ s_logged (fold_left (scanKeyword (normalizeText text)) ks st0)) as Hkeep.
    { induction ks as [|k0 ks IH]; intros st0 H0; [done|]. cbn [fold_left]. apply IH.
      unfold scanKeyword. destruct (execKeyword k0 _); cbn; try done.
      - set_solver.
      - by destruct (_ <? _). }
    apply Hkeep. rewrite Hl. set_solver.
Qed.

End ScanFacts.

Lemma only_enabled_rules_match_witness :
  exists r w',
    scanText (engine := Regex.modelEngine) (noFaults 5) "I am thinking about suicide"
      (withKeywords [keyword "suicide" HIGH ESCALATE;
                     {| word := "thinking"; severity := LOW; action := FLAG;
                        isRegex := false; enabled := false |}] emptyWorld) = (Normal r, w') /\
    Forall (fun k => enabled k = true) (cache w').
Proof.
  destruct (only_enabled_rules_match (engine := Regex.modelEngine) (noFaults 5)
              "I am thinking about suicide"
              (withKeywords [keyword "suicide" HIGH ESCALATE;
                             {| word := "thinking"; severity := LOW; action := FLAG;
                                isRegex := false; enabled := false |}] emptyWorld))
    as (r & w' & H & Hc & _); [constructor|].
  by exists r, w'.
Defined.

Lemma blank_text_is_not_scanned_witness :
  scanText (engine := Regex.modelEngine) (noFaults 5) "   " testWorld =
  (Normal blankResult, emit (EvScan "   ") testWorld).
Proof. apply blank_text_is_not_scanned. reflexivity. Defined.

Lemma malformed_rule_is_skipped_witness :
  scanResultWith (engine := Regex.modelEngine)
    ([keyword "suicide" HIGH ESCALATE] ++ keyword "c++" LOW FLAG :: [keyword "depressed" MEDIUM FLAG])
    "so depressed, writing c++" =
  scanResultWith (engine := Regex.modelEngine)
    ([keyword "suicide" HIGH ESCALATE] ++ [keyword "depressed" MEDIUM FLAG])
    "so depressed, writing c++".
Proof.
  apply (malformed_rule_is_skipped (engine := Regex.modelEngine)).
  vm_compute. reflexivity.
Defined.

Section VerdictFacts.
Context {engine : RegExpEngine}.

Lemma scanResultWith_score ks text :
  severityScore (scanResultWith ks text) = maxScore (matches (scanResultWith ks text)) /\
  severityScore (scanResultWith ks text) = getSeverityScore (r_severity (scanResultWith ks text)).
Proof.
  unfold scanResultWith. cbn. split.
  - rewrite (maxScore_Permutation _ _ (sortMatches_Permutation _)).
    apply (scanKeywords_aggregated (normalizeText text) ks scanStart aggregated_start).
  - by apply scanKeywords_score_consistent.
Qed.

Lemma maxScore_subseteq (ms ms' : list KeywordMatch) : ms ⊆ ms' -> maxScore ms <= maxScore ms'.
Proof.
  intros Hsub. destruct ms as [|m0 ms0] eqn:E; [apply maxScore_nonneg|].
  destruct (maxScore_attained (m0 :: ms0)) as (m & Hm & <-); [done|].
  apply maxScore_upper, Hsub, Hm.
Qed.

(** X14. The two fields of the verdict agree, and the verdict is read
    off the matches that are reported: the score is the score of the
    severity; the severity is HIGH exactly when a reported match is of a
    HIGH rule, and it is NONE exactly when every reported match is of a
    rule of severity NONE -- so a verdict NONE may come with matches. *)
Theorem verdict_follows_reported_matches (env : Env) (text : string) (w : World) :
  exists r w',
    scanText env text w = (Normal r, w') /\
    severityScore r = getSeverityScore (r_severity r) /\
    (r_severity r = HIGH <-> exists m, m ∈ matches r /\ m_severity m = HIGH) /\
    (r_severity r = NONE <-> forall m, m ∈ matches r -> m_severity m = NONE).
Proof.
  rewrite scanText_eq. cbn zeta. destruct (isBlank text).
  - eexists _, _. split; [reflexivity|]. cbn. split; [done|]. split.
    + split; [done|]. intros (m & Hm & _). by apply elem_of_nil in Hm.
    + split; [|done]. intros _ m Hm. by apply elem_of_nil in Hm.
  - eexists _, _. split; [reflexivity|].
    destruct (scanResultWith_score (loadedKeywords env w) text) as [Hmax Hsev].
    set (r := scanResultWith (loadedKeywords env w) text) in *. clearbody r.
    split; [done|]. rewrite Hsev in Hmax. split; split.
    + intros Hh. rewrite Hh in Hmax. cbn in Hmax.
      destruct (maxScore_attained (matches r)) as (m & Hm & Hs).
      { intros Hnil. by rewrite Hnil in Hmax. }
      exists m. split; [done|]. rewrite <- Hmax in Hs. unfold scoreOf in Hs.
      by destruct (m_severity m).
    + intros (m & Hm & Hs). pose proof (maxScore_upper _ _ Hm) as Hle.
      unfold scoreOf in Hle. rewrite Hs, <- Hmax in Hle.
      pose proof (getSeverityScore_range (r_severity r)).
      by destruct (r_severity r); cbn in *; try lia.
    + intros Hn m Hm. pose proof (maxScore_upper _ _ Hm) as Hle.
      rewrite <- Hmax, Hn in Hle. unfold scoreOf in Hle. cbn in Hle.
      apply getSeverityScore_zero. pose proof (getSeverityScore_range (m_severity m)). lia.
    + intros Hall. apply getSeverityScore_zero. rewrite Hmax.
      destruct (matches r) as [|m0 ms0] eqn:E; [done|].
      destruct (maxScore_attained (m0 :: ms0)) as (m & Hm & <-); [done|].
      unfold scoreOf. by rewrite (Hall m Hm).
Qed.

(** X15. Adding rules never lowers a verdict: if every rule of one set
    is in another, then on every text the matches found with the first
    are found with the second, and the score with the second is at
    least the score with the first. *)
Theorem more_rules_never_lower_the_verdict
    (ks ks' : list IModerationKeyword) (text : string) :
  ks ⊆ ks' ->
  matches (scanResultWith ks text) ⊆ matches (scanResultWith ks' text) /\
  severityScore (scanResultWith ks text) <= severityScore (scanResultWith ks' text).
Proof.
  intros Hsub.
  assert (matches (scanResultWith ks text) ⊆ matches (scanResultWith ks' text)) as Hm.
  { intros m. rewrite !scanResultWith_matches. unfold encountered.
    rewrite !list_elem_of_omap. intros (k & Hk & Hmk). exists k. split; [by apply Hsub|done]. }
  split; [done|].
  rewrite (proj1 (scanResultWith_score ks text)), (proj1 (scanResultWith_score ks' text)).
  by apply maxScore_subseteq.
Qed.

End VerdictFacts.

Lemma more_rules_never_lower_the_verdict_witness :
  severityScore (scanResultWith (engine := Regex.modelEngine)
                   [keyword "depressed" MEDIUM FLAG] "so depressed, thinking about suicide") <=
  severityScore (scanResultWith (engine := Regex.modelEngine)
                   [keyword "suicide" HIGH ESCALATE; keyword "depressed" MEDIUM FLAG]
                   "so depressed, thinking about suicide").
Proof.
  apply (more_rules_never_lower_the_verdict (engine := Regex.modelEngine)).
  intros k Hk. apply list_elem_of_singleton in Hk as ->. repeat constructor.
Defined.

(** ** The normal form of a text *)

Section NormalForm.
Import JsString.

Lemma isKept_step c :
  isKept (if isWordChar (lowerChar c) || isSpace (lowerChar c) then lowerChar c else " "%char) = true.
Proof. destruct c as [[] [] [] [] [] [] [] []]; reflexivity. Qed.

Lemma isKept_fixed c :
  isKept c = true ->
  lowerChar c = c /\ (if isWordChar c || isSpace c then c else " "%char) = c.
Proof. destruct c as [[] [] [] [] [] [] [] []]; vm_compute; intros H; done. Qed.

Lemma isKept_space : isKept " " = true.
Proof. reflexivity. Qed.

Lemma collapseFrom_kept b l :
  Forall (fun c => isKept c = true) l -> Forall (fun c => isKept c = true) (collapseFrom b l).
Proof.
  intros H. revert b. induction H as [|c l Hc _ IH]; intros b; cbn -[isSpace]; [constructor|].
  destruct (isSpace c); [destruct b|]; try constructor; auto using isKept_space.
Qed.

Lemma collapseFrom_singleSpaced b l : singleSpaced b (collapseFrom b l) = true.
Proof.
  revert b. induction l as [|c l IH]; intros b; cbn -[isSpace]; [done|].
  destruct (isSpace c) eqn:Hc.
  - destruct b; [apply IH|]. cbn. apply IH.
  - cbn -[isSpace]. rewrite Hc. apply IH.
Qed.

Lemma singleSpaced_weaken b l : singleSpaced b l = true -> singleSpaced false l = true.
Proof.
  destruct l as [|c l]; cbn -[isSpace]; [done|]. destruct (isSpace c); [|done].
  destruct b; [|done]. by rewrite andb_false_r.
Qed.

Lemma singleSpaced_app_r b l1 l2 : singleSpaced b (l1 ++ l2) = true -> singleSpaced false l2 = true.
Proof.
  revert b. induction l1 as [|c l1 IH]; intros b; cbn -[isSpace]; [apply singleSpaced_weaken|].
  destruct (isSpace c).
  - intros [_ H]%andb_true_iff. by apply IH in H.
  - apply IH.
Qed.

Lemma singleSpaced_app_l b l1 l2 : singleSpaced b (l1 ++ l2) = true -> singleSpaced b l1 = true.
Proof.
  revert b. induction l1 as [|c l1 IH]; intros b; cbn -[isSpace]; [done|].
  destruct (isSpace c).
  - intros [-> H]%andb_true_iff. by apply IH in H.
  - apply IH.
Qed.

Lemma singleSpaced_collapseFrom b l : singleSpaced b l = true -> collapseFrom b l = l.
Proof.
  revert b. induction l as [|c l IH]; intros b; cbn -[isSpace]; [done|].
  destruct (isSpace c).
  - intros [[Hc Hb%negb_true_iff]%andb_true_iff H]%andb_true_iff. subst b.
    apply Ascii.eqb_eq in Hc as ->. by rewrite (IH _ H).
  - intros H. by rewrite (IH _ H).
Qed.

Lemma trimStartChars_split l :
  exists s, forallb isSpace s = true /\ l = s ++ trimStartChars l.
Proof.
  induction l as [|c l (s & Hs & IH)]; [by exists []|]. cbn -[isSpace].
  destruct (isSpace c) eqn:Hc.
  - exists (c :: s). cbn -[isSpace]. rewrite Hc, Hs. by rewrite IH at 1.
  - by exists [].
Qed.

Lemma trimStartChars_idemp l : trimStartChars (trimStartChars l) = trimStartChars l.
Proof.
  induction l as [|c l IH]; cbn -[isSpace]; [done|].
  destruct (isSpace c) eqn:Hc; [done|]. cbn -[isSpace]. by rewrite Hc.
Qed.

Lemma trimStartChars_prefix l tail :
  trimStartChars (l ++ tail) = l ++ tail -> l <> [] -> trimStartChars l = l.
Proof.
  destruct l as [|c l]; [done|]. cbn -[isSpace]. destruct (isSpace c); [|done].
  intros H _. destruct (trimStartChars_split (l ++ tail)) as (s & _ & Hs).
  rewrite H in Hs. apply (f_equal length) in Hs.
  rewrite !length_app in Hs. cbn [length] in Hs. rewrite ?length_app in Hs. lia.
Qed.

(** What [trim] returns is a segment of the text between white space,
    and it is left as it is by [trim]. *)
Lemma trimChars_split l :
  (exists s s', l = s ++ trimChars l ++ s') /\ trimChars (trimChars l) = trimChars l.
Proof.
  unfold trimChars.
  destruct (trimStartChars_split l) as (s & _ & Hl).
  destruct (trimStartChars_split (rev (trimStartChars l))) as (s' & _ & Hr).
  set (m := trimStartChars (rev (trimStartChars l))) in *.
  assert (trimStartChars l = rev m ++ rev s') as Ha.
  { apply (f_equal (@rev ascii)) in Hr. by rewrite rev_involutive, rev_app_distr in Hr. }
  split.
  - exists s, (rev s'). by rewrite <- Ha.
  - assert (trimStartChars (rev m) = rev m) as Hfix.
    { destruct m as [|c m0] eqn:Em; [done|].
      apply (trimStartChars_prefix _ (rev s')).
      - rewrite <- Ha. apply trimStartChars_idemp.
      - intros Hnil. apply (f_equal length) in Hnil. rewrite length_rev in Hnil. done. }
    rewrite Hfix, rev_involutive. unfold m. by rewrite trimStartChars_idemp.
Qed.

Lemma kept_singleSpaced_shape b m :
  Forall (fun c => isKept c = true) m -> singleSpaced b m = true ->
  Forall (fun c => c = " "%char \/ (isWordChar c = true /\ isUpper c = false)) m.
Proof.
  intros Hm. revert b. induction Hm as [|c m Hc _ IH]; intros b; [constructor|].
  cbn -[isSpace isWordChar isUpper]. destruct (isSpace c) eqn:Hsc.
  - intros [[Heq _]%andb_true_iff H]%andb_true_iff. apply Ascii.eqb_eq in Heq.
    constructor; [by left|by eapply IH].
  - intros H. constructor; [|by eapply IH]. right.
    unfold isKept in Hc. rewrite Hsc, orb_false_r in Hc.
    apply andb_true_iff in Hc as [Hw Hu%negb_true_iff]. done.
Qed.

(** X16. [normalizeText] yields a normal form: applied to its own
    result it changes nothing; the result holds lower-case letters,
    digits, underscores and single spaces only, white space never
    follows white space in it, and it is trimmed. *)
Theorem normalizeText_is_a_normal_form (text : string) :
  normalizeText (normalizeText text) = normalizeText text /\
  Forall (fun c => c = " "%char \/ (isWordChar c = true /\ isUpper c = false))
         (chars (normalizeText text)) /\
  singleSpaced false (chars (normalizeText text)) = true /\
  trim (normalizeText text) = normalizeText text.
Proof.
  set (l := collapseSpaces (replaceNonWordChars (map lowerChar (chars text)))).
  assert (Forall (fun c => isKept c = true) l) as Hkept.
  { apply collapseFrom_kept. unfold replaceNonWordChars. rewrite map_map.
    apply Forall_forall. intros c (c0 & -> & _)%list_elem_of_fmap. apply isKept_step. }
  assert (singleSpaced false l = true) as Hsp by apply collapseFrom_singleSpaced.
  destruct (trimChars_split l) as [(s & s' & Hl) Htrim].
  set (m := trimChars l) in *.
  assert (Forall (fun c => isKept c = true) m) as Hm.
  { rewrite Hl in Hkept. by apply Forall_app in Hkept as [_ [H _]%Forall_app]. }
  assert (singleSpaced false m = true) as Hms.
  { rewrite Hl in Hsp. by apply singleSpaced_app_r, singleSpaced_app_l in Hsp. }
  assert (map lowerChar m = m /\ replaceNonWordChars m = m) as [Hlow Hrep].
  { unfold replaceNonWordChars. clear -Hm. induction Hm as [|c m Hc _ [IH1 IH2]]; [done|].
    cbn -[isWordChar isSpace lowerChar]. destruct (isKept_fixed c Hc) as [-> ->].
    by rewrite IH1, IH2. }
  assert (normalizeText text = str m) as ->.
  { unfold normalizeText, toLowerCase. by rewrite chars_str. }
  rewrite !chars_str.
  split; [|split; [|split]].
  - unfold normalizeText, toLowerCase. rewrite !chars_str, Hlow, Hrep.
    unfold collapseSpaces. by rewrite (singleSpaced_collapseFrom _ _ Hms), Htrim.
  - by apply (kept_singleSpaced_shape false).
  - done.
  - unfold trim. by rewrite chars_str, Htrim.
Qed.

End NormalForm.

(** ** The idempotency store *)

(** X17. Marking and checking round-trip.  After [markProcessed], when
    the insert is not made to fail, the message is recorded: a check
    that reaches storage answers [true], the time recorded is the time
    of the first mark (a second mark does not move it), and no other
    record changes.  When the insert fails, nothing is recorded and the
    call completes all the same. *)
Theorem mark_then_check (env env' : Env) (messageId : string) (w : World) :
  let w1 := snd (markProcessed env messageId w) in
  fst (markProcessed env messageId w) = Normal tt /\
  (fault env ProcessedCreate = None ->
   processedDb w1 !! messageId = Some (default (now env) (processedDb w !! messageId)) /\
   (forall other, other <> messageId -> processedDb w1 !! other = processedDb w !! other) /\
   (fault env' ProcessedFindOne = None -> fst (isProcessed env' messageId w1) = Normal true)) /\
  (forall e, fault env ProcessedCreate = Some e -> processedDb w1 = processedDb w).
Proof.
  cbn zeta. rewrite markProcessed_eq, createProcessedMessage_eq. cbn zeta.
  destruct (fault env ProcessedCreate) as [e|] eqn:Hf.
  - split; [done|]. split; [done|]. intros e' _. cbn. by destruct (decide _).
  - destruct (processedDb w !! messageId) as [t|] eqn:Hl; cbn.
    + destruct (decide _) as [Hne|_]; [by destruct Hne|]. cbn.
      split; [done|]. split; [|done]. intros _. split; [done|]. split; [done|].
      intros Hf'. rewrite isProcessed_eq, Hf'. cbn. rewrite Hl. by rewrite bool_decide_eq_true_2.
    + split; [done|]. split; [|done]. intros _. split; [by rewrite lookup_insert_eq|].
      split; [intros other Hne; by rewrite lookup_insert_ne|].
      intros Hf'. rewrite isProcessed_eq, Hf'. cbn. rewrite lookup_insert_eq.
      by rewrite bool_decide_eq_true_2.
Qed.

Lemma mark_then_check_witness :
  let w1 := snd (markProcessed (noFaults 5) "msg-123" testWorld) in
  let w2 := snd (markProcessed (noFaults 9) "msg-123" w1) in
  processedDb w1 !! "msg-123" = Some 5 /\ processedDb w2 !! "msg-123" = Some 5 /\
  fst (isProcessed (noFaults 9) "msg-123" w2) = Normal true.
Proof.
  cbn zeta.
  destruct (mark_then_check (noFaults 5) (noFaults 9) "msg-123" testWorld) as (_ & H1 & _).
  destruct (H1 eq_refl) as (Hl1 & _ & _).
  destruct (mark_then_check (noFaults 9) (noFaults 9) "msg-123"
              (snd (markProcessed (noFaults 5) "msg-123" testWorld))) as (_ & H2 & _).
  destruct (H2 eq_refl) as (Hl2 & _ & Hc).
  split; [exact Hl1|]. split; [|by apply Hc].
  rewrite Hl2, Hl1. reflexivity.
Defined.

Lemma cleanup_eq daysBefore deleteFails env olderThanDays w :
  cleanup daysBefore deleteFails env olderThanDays w =
  match deleteFails with
  | Some _ => (Normal 0, emit (EvLog LError "Error cleaning up processed messages:") w)
  | None =>
      let kept := filter (fun record : string * Z => ¬ (record.2 < daysBefore (now env) olderThanDays))
                         (processedDb w) in
      let deletedCount := Z.of_nat (size (processedDb w)) - Z.of_nat (size kept) in
      (Normal deletedCount,
       emit (EvLog LInfo ("Cleaned up " +:+ pretty deletedCount +:+ " old processed messages"))
         (setProcessedDb kept w))
  end.
Proof.
  unfold cleanup. run. destruct deleteFails; [done|]. cbn zeta.
  by destruct (_ =? 0) eqn:Hz; [apply Z.eqb_eq in Hz; rewrite Hz|].
Qed.

(** X18. [cleanup] never raises.  When the deletion succeeds it removes
    exactly the records older than the cut-off and leaves the others as
    they were, answers the number of records removed, and the messages
    removed are no longer known to [isProcessed], so that a replay of
    one of them would be processed again.  When the deletion fails it
    answers 0 and removes nothing. *)
Theorem cleanup_removes_the_old_records
    (daysBefore : Z -> Z -> Z) (deleteFails : option JsError) (env env' : Env)
    (olderThanDays : Z) (w : World) :
  let cutoff := daysBefore (now env) olderThanDays in
  let run := cleanup daysBefore deleteFails env olderThanDays w in
  match deleteFails with
  | Some _ => fst run = Normal 0 /\ stores (snd run) = stores w
  | None =>
      (forall id t, processedDb (snd run) !! id = Some t <->
                    processedDb w !! id = Some t /\ cutoff <= t) /\
      fst run = Normal (Z.of_nat (size (processedDb w)) - Z.of_nat (size (processedDb (snd run)))) /\
      (forall id t, processedDb w !! id = Some t -> t < cutoff ->
                    fault env' ProcessedFindOne = None ->
                    fst (isProcessed env' id (snd run)) = Normal false)
  end.
Proof.
  cbn zeta. rewrite cleanup_eq. destruct deleteFails; [done|]. cbn.
  assert (forall id t,
            filter (fun record : string * Z => ¬ (record.2 < daysBefore (now env) olderThanDays))
                   (processedDb w) !! id = Some t <->
            processedDb w !! id = Some t /\ daysBefore (now env) olderThanDays <= t) as Hkept.
  { intros id t. rewrite map_lookup_filter_Some. cbn. split.
    - intros [H1 H2]. split; [done|lia].
    - intros [H1 H2]. split; [done|lia]. }
  split; [done|]. split; [done|].
  intros id t Hl Hlt Hf. rewrite isProcessed_eq, Hf. cbn. f_equal.
  apply bool_decide_eq_false_2. intros [t' Ht']. apply Hkept in Ht' as [Ht' Hle].
  rewrite Hl in Ht'. injection Ht' as <-. lia.
Qed.

Lemma cleanup_removes_the_old_records_witness :
  let w := setProcessedDb {[ "old" := 0; "new" := 864000000 ]} testWorld in
  let run := cleanup daysBeforeUTC None (noFaults 864000000) 7 w in
  processedDb (snd run) !! "new" = Some 864000000 /\
  fst (isProcessed (noFaults 864000000) "old" (snd run)) = Normal false.
Proof.
  pose proof (cleanup_removes_the_old_records daysBeforeUTC None (noFaults 864000000)
                (noFaults 864000000) 7
                (setProcessedDb {[ "old" := 0; "new" := 864000000 ]} testWorld))
    as (Hkept & _ & Hgone).
  cbn zeta in *. split.
  - apply Hkept. split; [reflexivity|]. vm_compute. discriminate.
  - apply (Hgone "old" 0); reflexivity.
Defined.

(** ** The actions of a resolution *)

(** What [resolveModerationAction] does once it has found an open
    report: the action, then the report, then the audit record. *)
Lemma resolve_eq env req w report :
  fault env ReportFindById = None ->
  reportsDb w !! reportId req = Some report ->
  status report <> RESOLVED ->
  resolveModerationAction env req w =
  match executeAction env req report (initialDetails req)
          (emit (EvCall ReportFindById (pretty (reportId req))) w) with
  | (Abrupt e, w1) => (Abrupt e, w1)
  | (Normal details, w1) =>
      let w2 := emit (EvCall ReportSave (pretty (reportId req))) w1 in
      match fault env ReportSave with
      | Some e => (Abrupt e, w2)
      | None =>
          let saved := resolved (req_moderatorId req) (comment req) (now env) report in
          let w3 := emit (EvCall AuditCreate (targetTypeName (targetType report) +:+ ":" +:+
                                              targetId report))
                      (setReportsDb (<[reportId req := saved]> (reportsDb w1)) w2) in
          match fault env AuditCreate with
          | Some e => (Abrupt e, w3)
          | None =>
              (Normal (resolutionAnswer req details),
               emit (EvLog LInfo ("Moderation action resolved: " +:+ pretty (reportId req) +:+
                                  " by moderator " +:+ req_moderatorId req))
                 (setAuditDb (auditDb w1 ++ [resolutionRecord env req report details]) w3))
          end
      end
  end.
Proof.
  intros Hf Hl Hs. unfold resolveModerationAction, initialDetails. run.
  cbn -[String.append pretty executeAction]. rewrite Hf. cbn -[String.append pretty executeAction].
  rewrite Hl. destruct (decide (status report = RESOLVED)) as [|_]; [done|].
  destruct (executeAction _ _ _ _ _) as [[details|e] w1]; [|done].
  unfold createAuditLog. run. cbn -[String.append pretty].
  destruct (fault env ReportSave); [done|]. cbn -[String.append pretty].
  destruct (fault env AuditCreate); done.
Qed.

Ltac step := cbn -[String.append pretty].

(** X19. A resolution that names no report, and one that names no valid
    action for an open report, are refused with 404 REPORT_NOT_FOUND and
    with 400 INVALID_ACTION; a queue item that does not exist is refused
    with 404 QUEUE_ITEM_NOT_FOUND.  In each case the lookup is all that
    has happened: no collection changes and nothing else is called. *)
Theorem unknown_targets_and_actions_are_refused (env : Env) (w : World) :
  (forall req,
     fault env ReportFindById = None -> reportsDb w !! reportId req = None ->
     resolveModerationAction env req w =
     (Abrupt (AppError "Report not found" 404 "REPORT_NOT_FOUND"),
      emit (EvCall ReportFindById (pretty (reportId req))) w)) /\
  (forall req report,
     fault env ReportFindById = None -> reportsDb w !! reportId req = Some report ->
     status report <> RESOLVED -> req_action req = None ->
     resolveModerationAction env req w =
     (Abrupt (AppError "Invalid moderation action" 400 "INVALID_ACTION"),
      emit (EvCall ReportFindById (pretty (reportId req))) w)) /\
  (forall id moderator,
     fault env QueueFindById = None -> queueDb w !! id = None ->
     processQueueItem env id moderator w =
     (Abrupt (AppError "Queue item not found" 404 "QUEUE_ITEM_NOT_FOUND"),
      emit (EvCall QueueFindById (pretty id)) w)).
Proof.
  split; [|split].
  - intros req Hf Hl. unfold resolveModerationAction. run. step. rewrite Hf. step.
    by rewrite Hl.
  - intros req report Hf Hl Hs Ha. rewrite (resolve_eq env req w report Hf Hl Hs).
    unfold executeAction. by rewrite Ha.
  - intros id moderator Hf Hl. unfold processQueueItem. run. step. rewrite Hf. step.
    by rewrite Hl.
Qed.

Lemma unknown_targets_and_actions_are_refused_witness :
  resolveModerationAction (noFaults 100) (requestOf 7 (Some DISMISS) None) actionsWorld =
    (Abrupt (AppError "Report not found" 404 "REPORT_NOT_FOUND"),
     emit (EvCall ReportFindById (pretty 7%nat)) actionsWorld) /\
  resolveModerationAction (noFaults 100) (requestOf 1 None None) actionsWorld =
    (Abrupt (AppError "Invalid moderation action" 400 "INVALID_ACTION"),
     emit (EvCall ReportFindById (pretty 1%nat)) actionsWorld) /\
  processQueueItem (noFaults 100) 3 "mod-1" actionsWorld =
    (Abrupt (AppError "Queue item not found" 404 "QUEUE_ITEM_NOT_FOUND"),
     emit (EvCall QueueFindById (pretty 3%nat)) actionsWorld).
Proof.
  destruct (unknown_targets_and_actions_are_refused (noFaults 100) actionsWorld)
    as (H1 & H2 & H3).
  split; [|split].
  - by apply (H1 (requestOf 7 (Some DISMISS) None)).
  - by apply (H2 (requestOf 1 None None) userReport).
  - by apply H3.
Defined.





Lemma executeAction_keeps env req report details w :
  let w1 := snd (executeAction env req report details w) in
  reportsDb w1 = reportsDb w /\ auditDb w1 = auditDb w /\ queueDb w1 = queueDb w /\
  processedDb w1 = processedDb w.
Proof. unfold_moderation. explore_all; done. Qed.

(** X22. The steps of a resolution are not undone when a later step
    fails.  If the user has been banned and the save of the report then
    fails, the error is raised, the user stays banned, the report stays
    open and no audit record is written -- so the resolution can be
    asked again, and will ban again. *)
Theorem failed_report_save_leaves_the_ban
    (env : Env) (req : ResolveRequest) (w : World) (report : IReport) (user : IUser)
    (e : JsError) :
  fault env ReportFindById = None -> fault env UserFindById = None ->
  fault env UserSave = None -> fault env ReportSave = Some e ->
  reportsDb w !! reportId req = Some report -> status report <> RESOLVED ->
  targetType report = TUser -> req_action req = Some BAN_USER ->
  usersDb w !! targetId report = Some user ->
  let run := resolveModerationAction env req w in
  fst run = Abrupt e /\
  usersDb (snd run) !! targetId report = Some (banUntil (banExpiry env req) user) /\
  reportsDb (snd run) = reportsDb w /\ auditDb (snd run) = auditDb w /\
  (forall env2, fault env2 ReportFindById = None -> fault env2 UserFindById = None ->
     fault env2 UserSave = None ->
     exists added,
       trace (snd (resolveModerationAction env2 req (snd run))) = trace (snd run) ++ added /\
       existsb (callsSite StreamBanUser) added = true).
Proof.
  intros Hf Hu Hus Hs Hl Hst Ht Hact Huser. cbn zeta.
  rewrite (resolve_eq env req w report Hf Hl Hst).
  unfold executeAction. rewrite Hact.
  destruct (decide (targetType report = TMessage \/ targetType report = TUser)) as [_|Hn];
    [|destruct Hn; by right].
  destruct (decide (targetType report = TMessage)) as [Hm|_]; [by rewrite Ht in Hm|].
  unfold banUser, findUserById, banExpiry. run. step. rewrite Hu. step. rewrite Huser. step.
  rewrite Hus. step.
  destruct (fault env StreamBanUser); step; rewrite Hs; step;
    (split; [reflexivity|]); (split; [by rewrite lookup_insert_eq|]);
    (split; [reflexivity|]); (split; [reflexivity|]);
    intros env2 Hf2 Hu2 Hus2;
    match goal with
    | |- context [resolveModerationAction env2 req ?w1] =>
        rewrite (resolve_eq env2 req w1 report Hf2 Hl Hst)
    end;
    unfold executeAction; rewrite Hact;
    (destruct (decide (targetType report = TMessage \/ targetType report = TUser)) as [_|Hn];
     [|destruct Hn; by right]);
    (destruct (decide (targetType report = TMessage)) as [Hm|_]; [by rewrite Ht in Hm|]);
    unfold banUser, findUserById; run; step; rewrite Hu2; step; rewrite lookup_insert_eq; step;
    rewrite Hus2; step;
    destruct (fault env2 StreamBanUser); step;
    destruct (fault env2 ReportSave); step; try destruct (fault env2 AuditCreate); step;
    eexists; (split; [rewrite <- !app_assoc; reflexivity|reflexivity]).
Qed.

Lemma failed_report_save_leaves_the_ban_witness :
  let run := resolveModerationAction (setFault ReportSave (Some storageError) (noFaults 100))
               (requestOf 1 (Some BAN_USER) None) actionsWorld in
  fst run = Abrupt storageError /\
  usersDb (snd run) !! samId =
    Some {| displayName := "Sam"; bannedUntil := Some 315360000100 |} /\
  reportsDb (snd run) = reportsDb actionsWorld.
Proof.
  destruct (failed_report_save_leaves_the_ban
              (setFault ReportSave (Some storageError) (noFaults 100))
              (requestOf 1 (Some BAN_USER) None) actionsWorld userReport
              {| displayName := "Sam"; bannedUntil := None |} storageError)
    as (H1 & H2 & H3 & _); try reflexivity; [discriminate|].
  cbn zeta. split; [exact H1|]. split; [exact H2|exact H3].
Defined.

(** X23. If the audit record cannot be written after the report has
    been saved, the error is raised and the report stays resolved
    without a record of its resolution; asking again is refused as
    already resolved, so that the record is never written. *)
Theorem failed_audit_write_leaves_an_unrecorded_resolution
    (env env2 : Env) (req req2 : ResolveRequest) (w : World) (report : IReport)
    (details : ActionDetails) (w1 : World) (e : JsError) :
  fault env ReportFindById = None -> fault env ReportSave = None ->
  fault env AuditCreate = Some e ->
  reportsDb w !! reportId req = Some report -> status report <> RESOLVED ->
  executeAction env req report (initialDetails req)
    (emit (EvCall ReportFindById (pretty (reportId req))) w) = (Normal details, w1) ->
  reportId req2 = reportId req -> fault env2 ReportFindById = None ->
  let run := resolveModerationAction env req w in
  fst run = Abrupt e /\
  reportsDb (snd run) !! reportId req =
    Some (resolved (req_moderatorId req) (comment req) (now env) report) /\
  auditDb (snd run) = auditDb w /\
  fst (resolveModerationAction env2 req2 (snd run)) =
    Abrupt (AppError "Report already resolved" 400 "ALREADY_RESOLVED") /\
  auditDb (snd (resolveModerationAction env2 req2 (snd run))) = auditDb w.
Proof.
  intros Hf Hs Ha Hl Hst Hex Hid Hf2. cbn zeta.
  rewrite (resolve_eq env req w report Hf Hl Hst), Hex. cbn zeta. rewrite Hs, Ha.
  pose proof (executeAction_keeps env req report (initialDetails req)
                (emit (EvCall ReportFindById (pretty (reportId req))) w)) as Hk.
  rewrite Hex in Hk. cbn in Hk. destruct Hk as (Hr & Haud & _).
  assert (reportId req < length (reportsDb w1))%nat as Hlt.
  { rewrite Hr. by eapply lookup_lt_Some. }
  cbn [fst snd]. split; [done|].
  assert (reportsDb
            (emit (EvCall AuditCreate (targetTypeName (targetType report) +:+ ":" +:+
                                       targetId report))
               (setReportsDb
                  (<[reportId req := resolved (req_moderatorId req) (comment req) (now env)
                                       report]> (reportsDb w1))
                  (emit (EvCall ReportSave (pretty (reportId req))) w1))) !! reportId req2 =
          Some (resolved (req_moderatorId req) (comment req) (now env) report)) as Hsaved.
  { rewrite Hid. cbn. by rewrite list_lookup_insert_eq. }
  split; [cbn; by rewrite list_lookup_insert_eq|]. split; [done|].
  by rewrite (resolve_already_resolved env2 req2 _ _ Hf2 Hsaved eq_refl).
Qed.

Lemma failed_audit_write_leaves_an_unrecorded_resolution_witness :
  let run := resolveModerationAction (setFault AuditCreate (Some storageError) (noFaults 100))
               dismissRequest moderationWorld in
  fst run = Abrupt storageError /\
  status <$> reportsDb (snd run) !! 0%nat = Some RESOLVED /\
  auditDb (snd run) = [] /\
  fst (resolveModerationAction (noFaults 200) dismissRequest (snd run)) =
    Abrupt (AppError "Report already resolved" 400 "ALREADY_RESOLVED").
Proof.
  destruct (failed_audit_write_leaves_an_unrecorded_resolution
              (setFault AuditCreate (Some storageError) (noFaults 100)) (noFaults 200)
              dismissRequest dismissRequest moderationWorld sampleReport
              (initialDetails dismissRequest)
              (emit (EvCall ReportFindById (pretty 0%nat)) moderationWorld) storageError)
    as (H1 & H2 & H3 & H4 & _); try reflexivity; [discriminate|].
  cbn zeta. split; [exact H1|]. split; [|split; [exact H3|exact H4]].
  change (reportId dismissRequest) with 0%nat in H2. by rewrite H2.
Defined.

(** X24. A SUSPEND_CHANNEL resolution of a report about a channel adds
    100 to the flagged counter of the room of that channel and does
    nothing else: the provider is not called.  When no room has that channel nothing is
    changed and the details say nothing of a suspension; the report is
    resolved in both cases. *)
Theorem suspension_only_raises_the_flagged_counter
    (env : Env) (req : ResolveRequest) (w : World) (report : IReport) :
  fault env ReportFindById = None -> fault env ChatRoomFindOne = None ->
  fault env ChatRoomSave = None -> fault env ReportSave = None ->
  fault env AuditCreate = None ->
  reportsDb w !! reportId req = Some report -> status report <> RESOLVED ->
  targetType report = TChannel -> req_action req = Some SUSPEND_CHANNEL ->
  exists resp w' added,
    resolveModerationAction env req w = (Normal resp, w') /\
    chatRoomsDb w' = alter (incFlagged 100) (targetId report) (chatRoomsDb w) /\
    channelSuspended (rr_details resp) =
      (if chatRoomsDb w !! targetId report is Some _ then Some true else None) /\
    rr_status resp = RESOLVED /\
    reportsDb w' !! reportId req =
      Some (resolved (req_moderatorId req) (comment req) (now env) report) /\
    usersDb w' = usersDb w /\
    trace w' = trace w ++ added /\ existsb callsProvider added = false.
Proof.
  intros Hf Hc Hcs Hs Ha Hl Hst Ht Hact.
  rewrite (resolve_eq env req w report Hf Hl Hst).
  unfold executeAction. rewrite Hact.
  destruct (decide (targetType report = TChannel)) as [_|]; [|done].
  assert (reportId req < length (reportsDb w))%nat as Hlt by by eapply lookup_lt_Some.
  run. step. rewrite Hc. step.
  destruct (chatRoomsDb w !! targetId report) as [room|] eqn:Hroom; step;
    rewrite ?Hcs; step; rewrite Hs, Ha; step;
    eexists _, _, _; (split; [reflexivity|]); step.
  - split.
    { apply map_eq. intros k. destruct (decide (k = targetId report)) as [->|Hne].
      - by rewrite lookup_insert_eq, lookup_alter_eq, Hroom.
      - by rewrite lookup_insert_ne, lookup_alter_ne. }
    repeat (split; [reflexivity|]). split; [by rewrite list_lookup_insert_eq|].
    split; [reflexivity|]. split; [rewrite <- !app_assoc; reflexivity|reflexivity].
  - split.
    { apply map_eq. intros k. destruct (decide (k = targetId report)) as [->|Hne].
      - by rewrite lookup_alter_eq, Hroom.
      - by rewrite lookup_alter_ne. }
    repeat (split; [reflexivity|]). split; [by rewrite list_lookup_insert_eq|].
    split; [reflexivity|]. split; [rewrite <- !app_assoc; reflexivity|reflexivity].
Qed.

Lemma suspension_only_raises_the_flagged_counter_witness :
  exists resp w',
    resolveModerationAction (noFaults 100) (requestOf 2 (Some SUSPEND_CHANNEL) None)
      actionsWorld = (Normal resp, w') /\
    chatRoomsDb w' !! "messaging:channel-123" =
      Some {| lastMessageAt := Some 7; flaggedCount := 102 |}.
Proof.
  destruct (suspension_only_raises_the_flagged_counter (noFaults 100)
              (requestOf 2 (Some SUSPEND_CHANNEL) None) actionsWorld channelReport)
    as (resp & w' & added & H & Hc & _); try reflexivity; [discriminate|].
  exists resp, w'. split; [exact H|]. rewrite Hc. reflexivity.
Defined.

(** X25. An action that has nothing to act on -- DISMISS, REMOVE on a
    report that is not about a message, BAN_USER on a report about a
    channel or a resource, SUSPEND_CHANNEL on a report that is not about
    a channel -- is not an error: the report is resolved and the audit
    record written with the details as they started, and nothing else
    happens: no user and no room is looked up or changed and the
    provider is not called. *)
Theorem action_without_object_only_resolves
    (env : Env) (req : ResolveRequest) (w : World) (report : IReport) (a : ModerationAction) :
  fault env ReportFindById = None -> fault env ReportSave = None ->
  fault env AuditCreate = None ->
  reportsDb w !! reportId req = Some report -> status report <> RESOLVED ->
  req_action req = Some a -> actionApplies a (targetType report) = false ->
  exists w',
    resolveModerationAction env req w =
      (Normal (resolutionAnswer req (initialDetails req)), w') /\
    reportsDb w' =
      <[reportId req := resolved (req_moderatorId req) (comment req) (now env) report]>
        (reportsDb w) /\
    auditDb w' = auditDb w ++ [resolutionRecord env req report (initialDetails req)] /\
    usersDb w' = usersDb w /\ chatRoomsDb w' = chatRoomsDb w /\ queueDb w' = queueDb w /\
    trace w' = trace w ++
      [EvCall ReportFindById (pretty (reportId req));
       EvCall ReportSave (pretty (reportId req));
       EvCall AuditCreate (targetTypeName (targetType report) +:+ ":" +:+ targetId report);
       EvLog LInfo ("Moderation action resolved: " +:+ pretty (reportId req) +:+
                    " by moderator " +:+ req_moderatorId req)].
Proof.
  intros Hf Hs Ha Hl Hst Hact Hno.
  rewrite (resolve_eq env req w report Hf Hl Hst).
  unfold executeAction. rewrite Hact.
  destruct a, (targetType report) eqn:Ht; try discriminate Hno;
    repeat (destruct (decide _) as [Hd|Hd]; [try discriminate Hd; try (by destruct Hd)|]);
    run; step; rewrite Hs, Ha; step;
    eexists; (split; [reflexivity|]); step; repeat (split; [reflexivity|]);
    by rewrite <- !app_assoc.
Qed.

Lemma action_without_object_only_resolves_witness :
  exists w',
    resolveModerationAction (noFaults 100) (requestOf 2 (Some BAN_USER) (Some 24)) actionsWorld =
      (Normal (resolutionAnswer (requestOf 2 (Some BAN_USER) (Some 24))
                 (initialDetails (requestOf 2 (Some BAN_USER) (Some 24)))), w') /\
    usersDb w' = usersDb actionsWorld.
Proof.
  destruct (action_without_object_only_resolves (noFaults 100)
              (requestOf 2 (Some BAN_USER) (Some 24)) actionsWorld channelReport BAN_USER)
    as (w' & H & _ & _ & Hu & _); try reflexivity; [discriminate|].
  by exists w'.
Defined.

(** ** What the handlers keep *)

Lemma roomsKept_refl m : roomsKept m m.
Proof. intros c. by destruct (m !! c). Qed.

Lemma roomsKept_trans m1 m2 m3 : roomsKept m1 m2 -> roomsKept m2 m3 -> roomsKept m1 m3.
Proof.
  intros H12 H23 c. specialize (H12 c). specialize (H23 c).
  destruct (m1 !! c), (m2 !! c), (m3 !! c); try done. lia.
Qed.

Lemma roomsKept_alter f c m m' : neverLowers f -> roomsKept m m' -> roomsKept m (alter f c m').
Proof.
  intros Hf H c'. specialize (H c'). destruct (decide (c' = c)) as [->|Hne].
  - rewrite lookup_alter_eq. destruct (m !! c), (m' !! c); cbn; try done.
    specialize (Hf i0). lia.
  - by rewrite lookup_alter_ne.
Qed.

Lemma roomsKept_insert c room f m m' :
  m' !! c = Some room -> neverLowers f -> roomsKept m m' -> roomsKept m (<[c := f room]> m').
Proof.
  intros Hl Hf H c'. specialize (H c'). destruct (decide (c' = c)) as [->|Hne].
  - rewrite lookup_insert_eq. rewrite Hl in H. destruct (m !! c); [|done].
    specialize (Hf room). lia.
  - by rewrite lookup_insert_ne.
Qed.

Lemma neverLowers_incFlagged n : 0 <= n -> neverLowers (incFlagged n).
Proof. intros Hn room. cbn. lia. Qed.

Lemma neverLowers_touchRoom t : neverLowers (touchRoom t).
Proof. intros room. cbn. lia. Qed.

Lemma appendsOnly_refl w : appendsOnly w w.
Proof. repeat split; try done. apply roomsKept_refl. Qed.

Lemma appendsOnly_trans w1 w2 w3 : appendsOnly w1 w2 -> appendsOnly w2 w3 -> appendsOnly w1 w3.
Proof.
  intros (Hk & Hu & Hp & Hq & Hr & Ha & Hc) (Hk' & Hu' & Hp' & Hq' & Hr' & Ha' & Hc').
  repeat split; try congruence; try (by etrans). by eapply roomsKept_trans.
Qed.

Lemma appendsOnly_stores w w' : stores w' = stores w -> appendsOnly w w'.
Proof.
  unfold stores. intros H. injection H as Hk Hp Hq Hr Hu Hc _ Ha.
  repeat split; try (by rewrite ?Hk, ?Hp, ?Hq, ?Hr, ?Hu, ?Ha). rewrite Hc. apply roomsKept_refl.
Qed.

Lemma appendsOnly_emit ev w : appendsOnly w (emit ev w).
Proof. by apply appendsOnly_stores. Qed.

Ltac same_stores := by apply appendsOnly_stores.

Section Always.
Context (R : World -> World -> Prop).
Hypothesis R_refl : forall w, R w w.
Hypothesis R_trans : forall w1 w2 w3, R w1 w2 -> R w2 w3 -> R w1 w3.
Hypothesis R_emit : forall ev w, R w (emit ev w).

Lemma always_ret {A} (a : A) : always R (mret a).
Proof. intros w. apply R_refl. Qed.

Lemma always_throw {A} e : always R (throw (A := A) e).
Proof. intros w. apply R_refl. Qed.

Lemma always_bind {A B} (m : M A) (k : A -> M B) :
  always R m -> (forall a, always R (k a)) -> always R (m ≫= k).
Proof.
  intros Hm Hk w. unfold mbind, M_bind, bind. specialize (Hm w).
  destruct (m w) as [[a|e] w1]; cbn [snd] in *; [|done].
  eapply R_trans; [exact Hm|apply Hk].
Qed.

Lemma always_tryCatch {A} (m : M A) (h : JsError -> M A) :
  always R m -> (forall e, always R (h e)) -> always R (tryCatch m h).
Proof.
  intros Hm Hh w. unfold tryCatch. specialize (Hm w).
  destruct (m w) as [[a|e] w1]; cbn [snd] in *; [done|].
  eapply R_trans; [exact Hm|apply Hh].
Qed.

Lemma always_logger lvl msg : always R (logger lvl msg).
Proof. intros w. apply R_emit. Qed.

Lemma always_call env site key : always R (call env site key).
Proof.
  intros w. unfold call. run. cbn. destruct (fault env site); apply R_emit.
Qed.

End Always.

Ltac compose_always :=
  repeat first
    [ solve [auto]
    | apply (always_logger _ appendsOnly_emit)
    | apply (always_call _ appendsOnly_emit)
    | apply (always_ret _ appendsOnly_refl)
    | apply (always_throw _ appendsOnly_refl)
    | apply (always_bind _ appendsOnly_trans); [|intros ?]
    | apply (always_tryCatch _ appendsOnly_trans); [|intros ?]
    | match goal with
      | |- always _ (if ?b then _ else _) => destruct b
      | |- always _ (match ?x with _ => _ end) => destruct x
      end ].

#[local] Hint Resolve appendsOnly_refl appendsOnly_trans appendsOnly_emit : core.

Lemma createQueueItem_appends env item : always appendsOnly (createQueueItem env item).
Proof.
  intros w. unfold createQueueItem. run. cbn. destruct (fault env QueueCreate); cbn; [same_stores|].
  repeat split; try done; [by apply prefix_app_r|apply roomsKept_refl].
Qed.

Lemma createReport_appends env r : always appendsOnly (createReport env r).
Proof.
  intros w. unfold createReport. run. cbn. destruct (fault env ReportCreate); cbn; [same_stores|].
  repeat split; try done; [by apply prefix_app_r|apply roomsKept_refl].
Qed.

Lemma createAuditLog_appends env a : always appendsOnly (createAuditLog env a).
Proof.
  intros w. unfold createAuditLog. run. cbn. destruct (fault env AuditCreate); cbn; [same_stores|].
  repeat split; try done; [by apply prefix_app_r|apply roomsKept_refl].
Qed.

Lemma incFlaggedCount_appends env channelId : always appendsOnly (incFlaggedCount env channelId).
Proof.
  intros w. unfold incFlaggedCount. run. cbn.
  destruct (fault env ChatRoomIncFlagged); cbn; [same_stores|].
  repeat split; try done.
  apply roomsKept_alter; [by apply neverLowers_incFlagged|apply roomsKept_refl].
Qed.

Lemma updateMetricsAndChatRoom_appends env channelId :
  always appendsOnly (updateMetricsAndChatRoom env channelId).
Proof.
  intros w. unfold updateMetricsAndChatRoom. run. cbn -[pretty].
  destruct (fault env ChatRoomTouch); cbn -[pretty]; [same_stores|].
  destruct (fault env MetricsUpsert); cbn -[pretty];
    repeat split; try done;
    (apply roomsKept_alter; [apply neverLowers_touchRoom|apply roomsKept_refl]).
Qed.

Lemma markProcessed_appends env messageId : always appendsOnly (markProcessed env messageId).
Proof.
  intros w. rewrite markProcessed_eq, createProcessedMessage_eq. cbn zeta.
  destruct (fault env ProcessedCreate); cbn.
  - destruct (decide _); same_stores.
  - destruct (processedDb w !! messageId) eqn:Hl; cbn.
    + destruct (decide _); same_stores.
    + repeat split; try done; [by apply insert_subseteq|apply roomsKept_refl].
Qed.

Lemma isProcessed_appends env messageId : always appendsOnly (isProcessed env messageId).
Proof. intros w. rewrite isProcessed_eq. destruct (fault env ProcessedFindOne); same_stores. Qed.

#[local] Hint Resolve createQueueItem_appends createReport_appends createAuditLog_appends
  incFlaggedCount_appends updateMetricsAndChatRoom_appends markProcessed_appends
  isProcessed_appends : core.

Lemma handleHighSeverity_appends env messageId userId channelId scanResult text :
  always appendsOnly (handleHighSeverity env messageId userId channelId scanResult text).
Proof.
  unfold handleHighSeverity, deleteMessage, notifyModerators, sendCrisisResources.
  compose_always.
Qed.

Lemma handleMediumSeverity_appends env messageId userId channelId scanResult text :
  always appendsOnly (handleMediumSeverity env messageId userId channelId scanResult text).
Proof. unfold handleMediumSeverity, flagMessage. compose_always. Qed.

Lemma handleLowSeverity_appends env messageId userId channelId scanResult text :
  always appendsOnly (handleLowSeverity env messageId userId channelId scanResult text).
Proof. unfold handleLowSeverity. compose_always. Qed.

#[local] Hint Resolve handleHighSeverity_appends handleMediumSeverity_appends
  handleLowSeverity_appends : core.

Section WebhookKeeps.
Context {engine : RegExpEngine}.

Lemma scanText_appends env text : always appendsOnly (scanText env text).
Proof.
  intros w. destruct (scanText_effect env text w) as (r & w' & -> & Hs).
  by apply appendsOnly_stores.
Qed.

Lemma verifyWebhookSignature_appends env body signature :
  always appendsOnly (verifyWebhookSignature env body signature).
Proof. unfold verifyWebhookSignature. compose_always. Qed.

Lemma handleStreamWebhook_appends env req : always appendsOnly (handleStreamWebhook env req).
Proof.
  pose proof scanText_appends. pose proof verifyWebhookSignature_appends.
  unfold handleStreamWebhook, processMessageCreated, classifyAndDispatch.
  compose_always.
Qed.

(** X26. The webhook handler only appends.  Whatever the request and
    whatever fails, after [handleStreamWebhook] the rules and the users
    are as before; the processed ids, the queue, the reports and the
    audit log of before are all still there, unchanged and in place; no
    room has appeared or disappeared and no flagged counter has gone
    down. *)
Theorem webhook_only_appends (env : Env) (req : WebhookRequest) (w : World) :
  appendsOnly w (snd (handleStreamWebhook env req w)).
Proof. apply handleStreamWebhook_appends. Qed.

End WebhookKeeps.

Lemma sameReport_refl r : sameReport r r.
Proof. by repeat split. Qed.

Lemma sameReport_trans r1 r2 r3 : sameReport r1 r2 -> sameReport r2 r3 -> sameReport r1 r3.
Proof.
  intros (Ht & Hi & Hr & Hs) (Ht' & Hi' & Hr' & Hs'). repeat split; try congruence.
  intros Hres. specialize (Hs Hres). subst r2. by apply Hs'.
Qed.

Lemma sameReport_resolved moderator c t r :
  status r <> RESOLVED -> sameReport r (resolved moderator c t r).
Proof. intros Hs. by repeat split. Qed.

Lemma sameItem_refl q : sameItem q q.
Proof. by repeat split. Qed.

Lemma sameItem_trans q1 q2 q3 : sameItem q1 q2 -> sameItem q2 q3 -> sameItem q1 q3.
Proof.
  intros (Hp & Ht & Hs & Hd) (Hp' & Ht' & Hs' & Hd'). repeat split; try congruence.
  intros Hdone. specialize (Hd Hdone). subst q2. by apply Hd'.
Qed.

Lemma sameItem_processed t q : processed q = false -> sameItem q (markItemProcessed t q).
Proof. intros Hp. repeat split. intros Hq. congruence. Qed.

Lemma kept_refl {A} (S : A -> A -> Prop) (l : list A) :
  (forall x, S x x) -> forall i x, l !! i = Some x -> exists x', l !! i = Some x' /\ S x x'.
Proof. intros HS i x Hi. eauto. Qed.

Lemma kept_insert {A} (S : A -> A -> Prop) (l : list A) id old new :
  (forall x, S x x) -> l !! id = Some old -> S old new ->
  forall i x, l !! i = Some x -> exists x', <[id := new]> l !! i = Some x' /\ S x x'.
Proof.
  intros HS Hid Hnew i x Hi. destruct (decide (i = id)) as [->|Hne].
  - rewrite list_lookup_insert_eq by (by eapply lookup_lt_Some).
    rewrite Hid in Hi. injection Hi as <-. eauto.
  - rewrite list_lookup_insert_ne by done. eauto.
Qed.

Lemma kept_prefix {A} (S : A -> A -> Prop) (l l' : list A) :
  (forall x, S x x) -> l `prefix_of` l' ->
  forall i x, l !! i = Some x -> exists x', l' !! i = Some x' /\ S x x'.
Proof. intros HS Hp i x Hi. exists x. split; [by eapply prefix_lookup_Some|done]. Qed.

Lemma users_kept_refl (m : gmap string IUser) u : is_Some (m !! u) <-> is_Some (m !! u).
Proof. done. Qed.

Lemma users_kept_insert (m : gmap string IUser) k old new u :
  m !! k = Some old -> is_Some (m !! u) <-> is_Some (<[k := new]> m !! u).
Proof.
  intros Hk. destruct (decide (u = k)) as [->|Hne].
  - rewrite lookup_insert_eq, Hk. split; eauto.
  - by rewrite lookup_insert_ne.
Qed.

Lemma recordsKept_refl w : recordsKept w w.
Proof.
  repeat split; try done; eauto using kept_refl, sameReport_refl, sameItem_refl, roomsKept_refl.
Qed.

Lemma recordsKept_trans w1 w2 w3 : recordsKept w1 w2 -> recordsKept w2 w3 -> recordsKept w1 w3.
Proof.
  intros (Hk & Hp & Ha & Hr & Hq & Hc & Hu) (Hk' & Hp' & Ha' & Hr' & Hq' & Hc' & Hu').
  split; [congruence|]. split; [by etrans|]. split; [by etrans|]. split; [|split; [|split]].
  - intros i r Hi. destruct (Hr i r Hi) as (r2 & Hi2 & Hs2).
    destruct (Hr' i r2 Hi2) as (r3 & Hi3 & Hs3). eauto using sameReport_trans.
  - intros i q Hi. destruct (Hq i q Hi) as (q2 & Hi2 & Hs2).
    destruct (Hq' i q2 Hi2) as (q3 & Hi3 & Hs3). eauto using sameItem_trans.
  - by eapply roomsKept_trans.
  - intros u. by rewrite Hu, Hu'.
Qed.

Lemma appendsOnly_recordsKept w w' : appendsOnly w w' -> recordsKept w w'.
Proof.
  intros (Hk & Hu & Hp & Hq & Hr & Ha & Hc).
  repeat split; try done; try (by rewrite Hu);
    eauto using kept_prefix, sameReport_refl, sameItem_refl.
Qed.

Lemma neverLowers_suspension : neverLowers (incFlagged 100).
Proof. by apply neverLowers_incFlagged. Qed.

Ltac kept :=
  repeat match goal with H : _ !! _ = Some _ |- _ => progress cbn in H end;
  unfold recordsKept; step;
  split; [reflexivity|]; split; [reflexivity|];
  split; [first [reflexivity|by apply prefix_app_r]|];
  split; [eauto using kept_refl, kept_insert, sameReport_refl, sameReport_resolved|];
  split; [eauto using kept_refl, kept_insert, sameItem_refl, sameItem_processed|];
  split; [eauto using roomsKept_refl, roomsKept_insert, neverLowers_suspension|];
  first [by intros u| eauto using users_kept_insert].

Lemma resolveModerationAction_keeps env req w :
  recordsKept w (snd (resolveModerationAction env req w)).
Proof. unfold_moderation. explore_all; kept. Qed.

Lemma processQueueItem_keeps env id moderator w :
  recordsKept w (snd (processQueueItem env id moderator w)).
Proof. unfold_moderation. explore_all; kept. Qed.

Section ServingKeeps.
Context {engine : RegExpEngine}.

Lemma handle_keeps env r w : recordsKept w (handle env r w).
Proof.
  destruct r as [req|req|id moderator]; cbn [handle].
  - apply appendsOnly_recordsKept, handleStreamWebhook_appends.
  - apply resolveModerationAction_keeps.
  - apply processQueueItem_keeps.
Qed.

(** X27. Over any sequence of webhook requests, resolutions and
    processings of queue items, in any environments and whatever fails:
    the rules are not changed; no processed id is forgotten and none
    changes its time; the audit log only grows at its end; every report
    and every queue item stays at its place and stays about the same
    thing, and a resolved report, like a processed queue item, never
    changes again; no room and no user appears or disappears, and no
    flagged counter goes down. *)
Theorem served_requests_keep_the_records (rs : list (Env * Request)) (w : World) :
  recordsKept w (serve rs w).
Proof.
  revert w. induction rs as [|[env r] rs IH]; intros w; [apply recordsKept_refl|].
  cbn. eapply recordsKept_trans; [apply handle_keeps|apply IH].
Qed.

End ServingKeeps.

(** ** Bans and the refresh of tokens *)

Lemma ban_resolution_users env req w report user :
  fault env ReportFindById = None -> fault env UserFindById = None ->
  fault env UserSave = None ->
  reportsDb w !! reportId req = Some report -> status report <> RESOLVED ->
  targetType report = TMessage \/ targetType report = TUser ->
  req_action req = Some BAN_USER ->
  usersDb w !! targetId report = Some user ->
  usersDb (snd (resolveModerationAction env req w)) =
  <[targetId report := banUntil (banExpiry env req) user]> (usersDb w).
Proof.
  intros Hf Hu Hus Hl Hst Ht Hact Huser.
  rewrite (resolve_eq env req w report Hf Hl Hst).
  unfold executeAction. rewrite Hact.
  destruct (decide (targetType report = TMessage \/ targetType report = TUser)) as [_|]; [|done].
  unfold banUser, findUserById, banExpiry. run.
  destruct (decide (targetType report = TMessage)); step; rewrite Hu; step; rewrite Huser;
    step; rewrite Hus; step;
    destruct (fault env StreamBanUser); step;
    destruct (fault env ReportSave); step; try destruct (fault env AuditCreate); reflexivity.
Qed.

(** X28. A ban cuts off the refresh of tokens, and only until it
    expires.  After a BAN_USER resolution that found the user -- whether
    or not the provider accepted the ban, and whether or not the report
    could then be saved -- a refresh with a valid token of that user is
    refused with 403 USER_BANNED at every time before the expiry of the
    ban, and is answered with a new access token from the expiry on. *)
Theorem banned_user_cannot_refresh
    (verifyRefreshToken : string -> JsError + string)
    (generateAccessToken : string -> IUser -> string)
    (env env' : Env) (req : ResolveRequest) (w : World) (report : IReport) (user : IUser)
    (token : string) :
  fault env ReportFindById = None -> fault env UserFindById = None ->
  fault env UserSave = None ->
  reportsDb w !! reportId req = Some report -> status report <> RESOLVED ->
  targetType report = TMessage \/ targetType report = TUser ->
  req_action req = Some BAN_USER ->
  usersDb w !! targetId report = Some user ->
  verifyRefreshToken token = inr (targetId report) ->
  fault env' UserFindById = None ->
  let w' := snd (resolveModerationAction env req w) in
  let answer := fst (refresh verifyRefreshToken generateAccessToken env' token w') in
  (now env' < banExpiry env req ->
   answer = Abrupt (AppError "User is banned" 403 "USER_BANNED")) /\
  (banExpiry env req <= now env' ->
   answer = Normal (generateAccessToken (targetId report)
                      (banUntil (banExpiry env req) user))).
Proof.
  intros Hf Hu Hus Hl Hst Ht Hact Huser Htok Hu'. cbn zeta.
  pose proof (ban_resolution_users env req w report user Hf Hu Hus Hl Hst Ht Hact Huser) as Hdb.
  set (w' := snd (resolveModerationAction env req w)) in *. clearbody w'.
  unfold refresh, findUserById. rewrite Htok. run. step. rewrite Hu'. step.
  rewrite Hdb, lookup_insert_eq. unfold isBanned. cbn [bannedUntil banUntil].
  split; intros Ht'.
  - by rewrite (proj2 (Z.ltb_lt _ _) Ht').
  - by rewrite (proj2 (Z.ltb_ge _ _) Ht').
Qed.

Lemma banned_user_cannot_refresh_witness :
  let w' := snd (resolveModerationAction
                   (setFault StreamBanUser (Some storageError) (noFaults 100))
                   (requestOf 1 (Some BAN_USER) (Some 24)) actionsWorld) in
  fst (refresh verifySample tokenSample (noFaults 86400099) samId w') =
    Abrupt (AppError "User is banned" 403 "USER_BANNED") /\
  fst (refresh verifySample tokenSample (noFaults 86400100) samId w') =
    Normal ("access:" +:+ samId).
Proof.
  cbn zeta. split.
  - destruct (banned_user_cannot_refresh verifySample tokenSample
                (setFault StreamBanUser (Some storageError) (noFaults 100)) (noFaults 86400099)
                (requestOf 1 (Some BAN_USER) (Some 24)) actionsWorld userReport
                {| displayName := "Sam"; bannedUntil := None |} samId
                eq_refl eq_refl eq_refl eq_refl ltac:(discriminate) (or_intror eq_refl)
                eq_refl eq_refl eq_refl eq_refl) as [H _].
    apply H. reflexivity.
  - destruct (banned_user_cannot_refresh verifySample tokenSample
                (setFault StreamBanUser (Some storageError) (noFaults 100)) (noFaults 86400100)
                (requestOf 1 (Some BAN_USER) (Some 24)) actionsWorld userReport
                {| displayName := "Sam"; bannedUntil := None |} samId
                eq_refl eq_refl eq_refl eq_refl ltac:(discriminate) (or_intror eq_refl)
                eq_refl eq_refl eq_refl eq_refl) as [_ H].
    apply H. vm_compute. discriminate.
Defined.
